(** * osmdata: the augmented-diff parsers and the tag pattern matcher

    A shallow embedding of [osmdata/models.py] and [osmdata/parsers.py].

    - The XML input is a [xml.dom.minidom] tree: [DomNode].
    - The Django models are rows of append-only tables: [DB].  A row's
      primary key is its position in its table.  [objects.create] converts
      the values of the numeric columns as Python's [int] and [float] do,
      and refuses the others; a row keeps the text it was given.  The
      lengths of the character columns, which the database of the project
      (SpatiaLite) does not enforce, are outside the model.
    - A parser is a computation in the monad [M]: it threads the database
      and may raise a Python exception, [exn]. *)

From stdpp Require Import base option list strings gmap.
From Stdlib Require Import Ascii.

(** ** Python exceptions *)

Inductive exn : Type :=
| FileFormatError (msg : string)
| KeyError (key : string)
| ValueError (msg : string)
| AttributeError (msg : string)
| TypeError (msg : string)
| NameError (name : string)
| IntegrityError (msg : string)
| OverflowError (msg : string)
| RecursionError.

Inductive Result (A : Type) : Type :=
| Ok (a : A)
| Raise (e : exn).
Arguments Ok {A} a.
Arguments Raise {A} e.

(** The double quote character, for the messages that quote their operand. *)
Definition dquote : string := String (ascii_of_nat 34) EmptyString.

(** ["{}".format(None)] prints [None]. *)
Definition format_opt (o : option string) : string :=
  match o with
  | Some s => s
  | None => "None"
  end.

(** ** Python's [float], [int] and [repr] on a string

    A character of a string is its code point, from 0 to 255. *)

Module Python.

(** The characters [int] and [float] skip at both ends: the spaces of
    ASCII, the next-line character and the no-break space. *)
Definition is_space (c : ascii) : bool :=
  let n := nat_of_ascii c in
  (Nat.leb 9 n && Nat.leb n 13) || Nat.eqb n 32 || Nat.eqb n 133 || Nat.eqb n 160.

Definition is_digit (c : ascii) : bool :=
  let n := nat_of_ascii c in
  Nat.leb 48 n && Nat.leb n 57.

Fixpoint lstrip (l : list ascii) : list ascii :=
  match l with
  | c :: l' => if is_space c then lstrip l' else l
  | [] => []
  end.

Definition strip (l : list ascii) : list ascii := rev (lstrip (rev (lstrip l))).

(** An underscore is allowed between two digits only; [prev] is the
    character before [l]. *)
Fixpoint underscores_ok (prev : option ascii) (l : list ascii) : bool :=
  match l with
  | [] => negb (bool_decide (prev = Some "_"%char))
  | c :: l' =>
      (if Ascii.eqb c "_" then from_option is_digit false prev
       else if bool_decide (prev = Some "_"%char) then is_digit c
       else true)
      && underscores_ok (Some c) l'
  end.

Definition without_underscores (l : list ascii) : list ascii :=
  List.filter (fun c => negb (Ascii.eqb c "_")) l.

Definition skip_sign (l : list ascii) : list ascii :=
  match l with
  | c :: l' => if Ascii.eqb c "+" || Ascii.eqb c "-" then l' else l
  | [] => []
  end.

Fixpoint digits (l : list ascii) : list ascii :=
  match l with
  | c :: l' => if is_digit c then c :: digits l' else []
  | [] => []
  end.

Fixpoint skip_digits (l : list ascii) : list ascii :=
  match l with
  | c :: l' => if is_digit c then skip_digits l' else l
  | [] => []
  end.

(** Digits with an optional point, one digit at least, and an optional
    exponent. *)
Definition decimal (l : list ascii) : bool :=
  let int_part := digits l in
  let l1 := skip_digits l in
  let frac_rest :=
    match l1 with
    | c :: l' => if Ascii.eqb c "." then (digits l', skip_digits l') else ([], l1)
    | [] => ([], [])
    end in
  match int_part ++ frac_rest.1 with
  | [] => false
  | _ :: _ =>
      match frac_rest.2 with
      | [] => true
      | c :: l3 =>
          (Ascii.eqb c "e" || Ascii.eqb c "E")
          && match skip_sign l3 with
             | [] => false
             | exponent => forallb is_digit exponent
             end
      end
  end.

Definition lower (c : ascii) : ascii :=
  let n := nat_of_ascii c in
  if Nat.leb 65 n && Nat.leb n 90 then ascii_of_nat (n + 32) else c.

Definition inf_or_nan (l : list ascii) : bool :=
  let word := map lower l in
  bool_decide (word = String.list_ascii_of_string "inf")
  || bool_decide (word = String.list_ascii_of_string "infinity")
  || bool_decide (word = String.list_ascii_of_string "nan").

(** [float(s)] returns: spaces around, a sign, then a decimal number,
    [inf], [infinity] or [nan]. *)
Definition float_ok (s : string) : bool :=
  let l := strip (String.list_ascii_of_string s) in
  underscores_ok None l
  && (let body := skip_sign (without_underscores l) in decimal body || inf_or_nan body).

Definition digit_value (c : ascii) : Z := Z.of_nat (nat_of_ascii c - 48).

(** [int(s)]: spaces around, a sign, then digits. *)
Definition int_value (s : string) : option Z :=
  let l := strip (String.list_ascii_of_string s) in
  let l' := without_underscores l in
  match skip_sign l' with
  | [] => None
  | body =>
      if underscores_ok None l && forallb is_digit body then
        let n := foldl (fun acc c => 10 * acc + digit_value c)%Z 0%Z body in
        Some (if bool_decide (head l' = Some "-"%char) then (- n)%Z else n)
      else None
  end.

Definition hex_digit (n : nat) : ascii :=
  nth n (String.list_ascii_of_string "0123456789abcdef") "0"%char.

Definition escape (quote c : ascii) : string :=
  let n := nat_of_ascii c in
  if Ascii.eqb c quote || Ascii.eqb c "\" then String "\" (String c "")
  else if Nat.eqb n 9 then "\t"
  else if Nat.eqb n 10 then "\n"
  else if Nat.eqb n 13 then "\r"
  else if Nat.ltb n 32 || (Nat.leb 127 n && Nat.leb n 160) || Nat.eqb n 173 then
    String "\" (String "x" (String (hex_digit (n / 16)) (String (hex_digit (n mod 16)) "")))
  else String c "".

(** [repr(s)]: in single quotes, unless [s] holds a single quote and no
    double quote; a character that does not print is escaped. *)
Definition repr (s : string) : string :=
  let l := String.list_ascii_of_string s in
  let quote : ascii :=
    if existsb (Ascii.eqb "'") l && negb (existsb (Ascii.eqb (ascii_of_nat 34)) l)
    then ascii_of_nat 34 else "'"%char in
  String quote (String.concat "" (map (escape quote) l) +:+ String quote "").

End Python.

(** ** Regular expressions, as far as [Tag.RE_TAG_PATTERN] needs them

    A backtracking matcher in continuation-passing style, as Python's [re]
    runs: a greedy [.+] first takes as many characters as it can and gives
    them back one at a time while the rest of the pattern fails. *)

Module Re.

Inductive regex : Type :=
| Lit (c : ascii)                   (* a literal character *)
| AnyPlus                           (* [.+], greedy; [.] is any character but a newline *)
| Group (name : string) (r : regex) (* [(?P<name>r)] *)
| Seq (r1 r2 : regex).

Definition newline : ascii := ascii_of_nat 10.

Definition substring_before (s rest : string) : string :=
  String.substring 0 (String.length s - String.length rest) s.

Fixpoint any_plus {R : Type} (s : string) (k : string -> option R) : option R :=
  match s with
  | EmptyString => None
  | String c s' =>
      if Ascii.eqb c newline then None
      else match any_plus s' k with
           | Some r => Some r
           | None => k s'
           end
  end.

Fixpoint run {R : Type} (r : regex) (s : string) (groups : gmap string string)
    (k : gmap string string -> string -> option R) : option R :=
  match r with
  | Lit c =>
      match s with
      | String c' s' => if Ascii.eqb c c' then k groups s' else None
      | EmptyString => None
      end
  | AnyPlus => any_plus s (k groups)
  | Group name r' =>
      run r' s groups
        (fun groups' rest => k (<[name := substring_before s rest]> groups') rest)
  | Seq r1 r2 =>
      run r1 s groups (fun groups' rest => run r2 rest groups' k)
  end.

(** [pattern.match(s)]: anchored at the start of [s], not at its end.
    The result is the match object's named groups. *)
Definition match_ (r : regex) (s : string) : option (gmap string string) :=
  run r s ∅ (fun groups _ => Some groups).

(** [m.group(name)] of a group that took part in the match. *)
Definition group (m : gmap string string) (name : string) : string :=
  default "" (m !! name).

End Re.


(** ** xml.dom.minidom *)

Inductive DomNode : Type :=
| Element (tag : string) (attrs : gmap string string) (children : list DomNode)
| Text (data : string)
| Comment (data : string).

Module Dom.

(** [node.childNodes]; character data has none. *)
Definition childNodes (n : DomNode) : list DomNode :=
  match n with
  | Element _ _ children => children
  | _ => []
  end.

(** [node.attributes]: [None] on a node that is not an element. *)
Definition attributes (n : DomNode) : option (gmap string string) :=
  match n with
  | Element _ attrs _ => Some attrs
  | _ => None
  end.

Definition tagName (n : DomNode) : option string :=
  match n with
  | Element tag _ _ => Some tag
  | _ => None
  end.

(** [s.split(":", 1)[-1]] *)
Fixpoint after_colon (s : string) : option string :=
  match s with
  | EmptyString => None
  | String c s' => if Ascii.eqb c ":" then Some s' else after_colon s'
  end.

(** [node.localName]: the tag name without its prefix; [None] on a node
    that is not an element. *)
Definition localName (n : DomNode) : option string :=
  match n with
  | Element tag _ _ => Some (default tag (after_colon tag))
  | _ => None
  end.

Definition isText (n : DomNode) : bool :=
  match n with
  | Text _ => true
  | _ => false
  end.

(** The test of [_get_elements_by_tagName_helper]:
    [node.nodeType == ELEMENT_NODE and (name == "*" or node.tagName == name)] *)
Definition tag_matches (name : string) (n : DomNode) : bool :=
  match n with
  | Element tag _ _ => bool_decide (name = "*") || bool_decide (tag = name)
  | _ => false
  end.

(** [_get_elements_by_tagName_helper(parent, name, rc)]: every descendant
    element of that name, in document order; [parent] itself is not one. *)
Fixpoint elements_by_tagName (name : string) (parent : DomNode) : list DomNode :=
  match parent with
  | Element _ _ children =>
      flat_map (fun n => (if tag_matches name n then [n] else [])
                           ++ elements_by_tagName name n) children
  | _ => []
  end.

(** The direct children that are elements of that name. *)
Definition children_by_tagName (name : string) (parent : DomNode) : list DomNode :=
  List.filter (tag_matches name) (childNodes parent).

Fixpoint height (n : DomNode) : nat :=
  match n with
  | Element _ _ children => S (foldr (fun c h => Nat.max (height c) h) 0 children)
  | _ => 0
  end.

End Dom.

(** ** models.py *)

(** A Python dict with string keys and values: the keyword arguments of a
    filter or of [objects.create]. *)
Abbreviation pydict := (gmap string string).

Module Tag.

(** [RE_TAG_PATTERN = re.compile(r'(?P<key>.+)=(?P<value>.+)')] *)
Definition RE_TAG_PATTERN : Re.regex :=
  Re.Seq (Re.Group "key" Re.AnyPlus)
         (Re.Seq (Re.Lit "=") (Re.Group "value" Re.AnyPlus)).

Definition parse_tag_pattern (tag_pattern : string) : Result pydict :=
  match Re.match_ RE_TAG_PATTERN tag_pattern with
  | Some m =>
      let key := Re.group m "key" in
      let value := Re.group m "value" in
      let _filter : pydict := {[ "k" := key ]} in
      Ok (if decide (value ≠ "*") then <["v" := value]> _filter else _filter)
  | None =>
      Raise (ValueError ("Invalid tag pattern : " +:+ dquote +:+ tag_pattern +:+ dquote))
  end.

End Tag.

(** The rows of the tables.  A foreign key is the referenced row's primary
    key.  Attribute values are kept as the strings the XML gives, those of
    the numeric columns too: a row holds the text its number was read from. *)

Inductive Subtype : Type := NODE | RELATION | WAY.

Record Bounds : Type := {
  minlat : string; minlon : string; maxlat : string; maxlon : string
}.

(** [OSMElement] with the columns of its subclasses [Node] (lat, lon),
    [Way] and [Relation].  The projected [latlon] that [Node.save] derives
    with [geo_utils.planify_coords] is not part of these sources. *)
Record OSMElement : Type := {
  subtype : Subtype;
  osmid : option string;
  version : option string;
  timestamp : option string;
  uid : option string;
  user : string;
  changeset : option string;
  bounds : option nat;
  visible : bool;
  lat : option string;
  lon : option string
}.

Record TagRow : Type := { element : nat; k : string; v : string }.

Record WayNode : Type := { way : nat; node : nat; wn_order : nat }.

Record RelationMember : Type := {
  relation : nat; rm_element : nat; order : nat; role : string
}.

Record Action : Type := { type : string; new : option nat; old : option nat }.

(** [Diff.actions] is a many-to-many relation, kept as the list of the
    actions' keys in the order [set] received them.  [import_date] is the
    wall clock at creation and is not modelled. *)
Record Diff : Type := { actions : list nat }.

Record DB : Type := {
  bounds_table : list Bounds;
  elements : list OSMElement;
  tags : list TagRow;
  waynodes : list WayNode;
  members : list RelationMember;
  action_table : list Action;
  diffs : list Diff
}.

Definition empty_db : DB :=
  {| bounds_table := []; elements := []; tags := []; waynodes := [];
     members := []; action_table := []; diffs := [] |}.

(** ** The parser monad: database state and Python exceptions *)

Definition M (A : Type) : Type := DB -> DB * Result A.

Definition ret {A : Type} (a : A) : M A := fun db => (db, Ok a).

Definition raise {A : Type} (e : exn) : M A := fun db => (db, Raise e).

Definition bind {A B : Type} (m : M A) (f : A -> M B) : M B :=
  fun db =>
    match m db with
    | (db', Ok a) => f a db'
    | (db', Raise e) => (db', Raise e)
    end.

Notation "'let*' x ':=' m 'in' body" := (bind m (fun x => body))
  (at level 10, x pattern, m at level 100, body at level 200).

(** [for x in xs: results.append(body(x))] *)
Fixpoint for_each {A B : Type} (xs : list A) (body : A -> M B) : M (list B) :=
  match xs with
  | [] => ret []
  | x :: xs' =>
      let* y := body x in
      let* ys := for_each xs' body in
      ret (y :: ys)
  end.

(** [for index, x in enumerate(xs): body(index, x)], counting from [index]. *)
Fixpoint for_enumerate {A B : Type} (xs : list A) (index : nat)
    (body : nat -> A -> M B) : M unit :=
  match xs with
  | [] => ret tt
  | x :: xs' =>
      let* _ := body index x in
      for_enumerate xs' (S index) body
  end.

(** ** The ORM: [objects.create] appends a row and returns its key *)

Module ORM.

(** Keyword arguments to a row of [OSMElement]; a column that is not given
    takes the field's default. *)
Definition OSMElement_of_kwargs (st : Subtype) (kwargs : pydict) : OSMElement :=
  {| subtype := st;
     osmid := kwargs !! "osmid";
     version := kwargs !! "version";
     timestamp := kwargs !! "timestamp";
     uid := kwargs !! "uid";
     user := default "" (kwargs !! "user");
     changeset := kwargs !! "changeset";
     bounds := None;
     visible := true;
     lat := kwargs !! "lat";
     lon := kwargs !! "lon" |}.

(** The first error of a list of checks, in their order. *)
Definition first_error (checks : list (option exn)) : option exn :=
  foldr (fun check rest => match check with Some e => Some e | None => rest end) None checks.

(** [float(value)] in [Node.save]. *)
Definition float_error (value : string) : option exn :=
  if Python.float_ok value then None
  else Some (ValueError ("could not convert string to float: " +:+ Python.repr value)).

(** [Node.save]: when neither coordinate is empty, both are converted for
    the projected point, the latitude first, before the row is written. *)
Definition Node_save (kwargs : pydict) : option exn :=
  match kwargs !! "lat", kwargs !! "lon" with
  | Some lat, Some lon =>
      if bool_decide (lat <> "") && bool_decide (lon <> "")
      then first_error [float_error lat; float_error lon]
      else None
  | _, _ => None
  end.

(** The message of a numeric field that is given no number. *)
Definition expected_a_number (field value : string) : exn :=
  ValueError ("Field '" +:+ field +:+ "' expected a number but got "
              +:+ Python.repr value +:+ ".").

(** The column [osmid], a [PositiveIntegerField]: the value is converted
    with [int]; the table refuses a negative number, and the database one
    beyond its 64-bit integers. *)
Definition osmid_error (value : option string) : option exn :=
  match value with
  | None => None
  | Some s =>
      match Python.int_value s with
      | None => Some (expected_a_number "osmid" s)
      | Some n =>
          if (n <? 0)%Z then
            Some (IntegrityError ("CHECK constraint failed: " +:+ dquote +:+ "osmid"
                                  +:+ dquote +:+ " >= 0"))
          else if (2 ^ 63 <=? n)%Z then
            Some (OverflowError "Python int too large to convert to SQLite INTEGER")
          else None
      end
  end.

(** A [FloatField] column: the value is converted with [float]. *)
Definition float_column_error (field : string) (value : option string) : option exn :=
  match value with
  | None => None
  | Some s => if Python.float_ok s then None else Some (expected_a_number field s)
  end.

(** What [save] raises for these keyword arguments, if anything: the
    conversions of [Node.save], then those of the columns, the parent
    table's first. *)
Definition save_error (st : Subtype) (kwargs : pydict) : option exn :=
  first_error
    [ match st with NODE => Node_save kwargs | _ => None end;
      osmid_error (kwargs !! "osmid");
      match st with NODE => float_column_error "lat" (kwargs !! "lat") | _ => None end;
      match st with NODE => float_column_error "lon" (kwargs !! "lon") | _ => None end ].

(** [objects.create]: the row is written when [save] raises
    nothing, and nothing is written otherwise. *)
Definition OSMElement_create (st : Subtype) (kwargs : pydict) : M nat :=
  fun db =>
    match save_error st kwargs with
    | Some e => (db, Raise e)
    | None =>
        ({| bounds_table := bounds_table db;
            elements := elements db ++ [OSMElement_of_kwargs st kwargs];
            tags := tags db; waynodes := waynodes db; members := members db;
            action_table := action_table db; diffs := diffs db |},
         Ok (length (elements db)))
    end.

Definition Tag_create (row : TagRow) : M nat :=
  fun db =>
    ({| bounds_table := bounds_table db; elements := elements db;
        tags := tags db ++ [row];
        waynodes := waynodes db; members := members db;
        action_table := action_table db; diffs := diffs db |},
     Ok (length (tags db))).

Definition WayNode_create (row : WayNode) : M nat :=
  fun db =>
    ({| bounds_table := bounds_table db; elements := elements db;
        tags := tags db;
        waynodes := waynodes db ++ [row];
        members := members db;
        action_table := action_table db; diffs := diffs db |},
     Ok (length (waynodes db))).

Definition RelationMember_create (row : RelationMember) : M nat :=
  fun db =>
    ({| bounds_table := bounds_table db; elements := elements db;
        tags := tags db; waynodes := waynodes db;
        members := members db ++ [row];
        action_table := action_table db; diffs := diffs db |},
     Ok (length (members db))).

Definition Action_create (row : Action) : M nat :=
  fun db =>
    ({| bounds_table := bounds_table db; elements := elements db;
        tags := tags db; waynodes := waynodes db; members := members db;
        action_table := action_table db ++ [row];
        diffs := diffs db |},
     Ok (length (action_table db))).

(** [Diff.objects.create()]: a diff with no action yet. *)
Definition Diff_create : M nat :=
  fun db =>
    ({| bounds_table := bounds_table db; elements := elements db;
        tags := tags db; waynodes := waynodes db; members := members db;
        action_table := action_table db;
        diffs := diffs db ++ [{| actions := [] |}] |},
     Ok (length (diffs db))).

(** [diff.actions.set(objs)] *)
Definition Diff_actions_set (diff : nat) (objs : list nat) : M unit :=
  fun db =>
    ({| bounds_table := bounds_table db; elements := elements db;
        tags := tags db; waynodes := waynodes db; members := members db;
        action_table := action_table db;
        diffs := <[diff := {| actions := objs |}]> (diffs db) |},
     Ok tt).

(** The related managers: the rows that point to a given row, by key. *)
Definition element_tags (db : DB) (e : nat) : list (string * string) :=
  (fun t => (k t, v t)) <$> filter (fun t => element t = e) (tags db).

Definition way_nodes (db : DB) (w : nat) : list (nat * nat) :=
  (fun r => (node r, wn_order r)) <$> filter (fun r => way r = w) (waynodes db).

Definition relation_members (db : DB) (r : nat) : list RelationMember :=
  filter (fun m => relation m = r) (members db).

Definition diff_actions (db : DB) (d : nat) : option (list nat) :=
  actions <$> diffs db !! d.

End ORM.

(** ** parsers.py *)

(** What the parsers read of a DOM node, with the exception Python raises
    when the node has no such member. *)
Module NodeAccess.

Definition class_name (n : DomNode) : string :=
  match n with
  | Element _ _ _ => "Element"
  | Text _ => "Text"
  | Comment _ => "Comment"
  end.

Definition no_attribute (n : DomNode) (member : string) : exn :=
  AttributeError ("'" +:+ class_name n +:+ "' object has no attribute '" +:+ member +:+ "'").

(** [node.attributes[name].value] *)
Definition attribute (n : DomNode) (name : string) : M string :=
  match Dom.attributes n with
  | None => raise (TypeError "'NoneType' object is not subscriptable")
  | Some attrs =>
      match attrs !! name with
      | Some value => ret value
      | None => raise (KeyError name)
      end
  end.

(** [name in node.attributes] *)
Definition has_attribute (n : DomNode) (name : string) : M bool :=
  match Dom.attributes n with
  | None => raise (TypeError "argument of type 'NoneType' is not iterable")
  | Some attrs => ret (bool_decide (is_Some (attrs !! name)))
  end.

(** [node.getElementsByTagName(name)], a method of elements only. *)
Definition getElementsByTagName (n : DomNode) (name : string) : M (list DomNode) :=
  match n with
  | Element _ _ _ => ret (Dom.elements_by_tagName name n)
  | _ => raise (no_attribute n "getElementsByTagName")
  end.

(** [node.tagName] *)
Definition tagName (n : DomNode) : M string :=
  match Dom.tagName n with
  | Some tag => ret tag
  | None => raise (no_attribute n "tagName")
  end.

End NodeAccess.

Import NodeAccess.

(** [getFirstNontextChild(element)].  The argument may be [None]: reading
    [childNodes] of it raises.  The loop returns [None] when it ends. *)
Definition getFirstNontextChild (element : option DomNode) : M (option DomNode) :=
  match element with
  | None => raise (AttributeError "'NoneType' object has no attribute 'childNodes'")
  | Some el => ret (List.find (fun i => negb (Dom.isText i)) (Dom.childNodes el))
  end.

Definition unknown_member_type (str_name : option string) : exn :=
  FileFormatError ("Unknown member type : " +:+ dquote +:+ format_opt str_name +:+ dquote).

Module AbstractOSMElementParser.

(** [parse_tags(element)]: one [Tag] row per [tag] element below the node. *)
Definition parse_tags (node : DomNode) (element : nat) : M (list nat) :=
  let* tag_els := getElementsByTagName node "tag" in
  for_each tag_els (fun tag_el =>
    let* k := attribute tag_el "k" in
    let* v := attribute tag_el "v" in
    ORM.Tag_create {| element := element; k := k; v := v |}).

(** The first of [keys] that is an attribute of the node: the [for] loop
    with its [break]. *)
Fixpoint first_key (node : DomNode) (keys : list string) : M (option string) :=
  match keys with
  | [] => ret None
  | key :: keys' =>
      let* found := has_attribute node key in
      if found then ret (Some key) else first_key node keys'
  end.

Definition get_basic_attributes (node : DomNode) : M pydict :=
  let* osmid_key := first_key node ["id"; "ref"] in
  match osmid_key with
  | None => ret ∅
  | Some key =>
      let* value := attribute node key in
      ret {[ "osmid" := value ]}
  end.

End AbstractOSMElementParser.

Module BoundsParser.

Definition BOUNDS_ATTRS : list string := ["minlat"; "minlon"; "maxlat"; "maxlon"].

(** [attrs = {k: ... for k in BOUNDS_ATTRS}], then [Bounds.objects.create]:
    the module does not import [Bounds], so the call raises [NameError]. *)
Definition parse (node : DomNode) : M nat :=
  let* attrs := for_each BOUNDS_ATTRS (fun k =>
                  let* value := attribute node k in ret (k, value)) in
  raise (NameError "name 'Bounds' is not defined").

End BoundsParser.

Module Import ElementParsers.
Import AbstractOSMElementParser.

(** [parse_bounds()]; no [parse] method calls it. *)
Definition parse_bounds (node : DomNode) : M (option nat) :=
  let* bounds_tags := getElementsByTagName node "bounds" in
  match bounds_tags with
  | [] => ret None                      (* IndexError: optional *)
  | bounds_tag :: _ =>
      let* b := BoundsParser.parse bounds_tag in
      ret (Some b)
  end.

Definition NodeParser_parse (node : DomNode) : M nat :=
  let* lat := attribute node "lat" in
  let* lon := attribute node "lon" in
  let* basic := get_basic_attributes node in
  let* node_pk := ORM.OSMElement_create NODE (<["lat" := lat]> (<["lon" := lon]> basic)) in
  let* _ := parse_tags node node_pk in
  ret node_pk.

Definition WayParser_parse (node : DomNode) : M nat :=
  let* basic := get_basic_attributes node in
  let* way := ORM.OSMElement_create WAY basic in
  let* nds := getElementsByTagName node "nd" in
  let* _ := for_enumerate nds 0 (fun index nd =>
              let* node_pk := NodeParser_parse nd in
              ORM.WayNode_create {| way := way; node := node_pk; wn_order := index |}) in
  let* _ := parse_tags node way in
  ret way.

(** [RelationMemberParser(node, relation, order).parse()], given the parser
    of a nested relation. *)
Definition RelationMemberParser_parse_with (RelationParser_parse : DomNode -> M nat)
    (node : DomNode) (relation : nat) (order : nat) : M nat :=
  let* _type := attribute node "type" in
  let* element :=
    if decide (_type = "node") then NodeParser_parse node
    else if decide (_type = "way") then WayParser_parse node
    else if decide (_type = "relation") then RelationParser_parse node
    else raise (unknown_member_type (Some _type)) in
  let* role := attribute node "role" in
  ORM.RelationMember_create
    {| relation := relation; rm_element := element; order := order; role := role |}.

(** [RelationParser.parse] calls itself through the member parser, on a
    member element below its node: [depth] bounds the nesting. *)
Fixpoint RelationParser_parse_rec (depth : nat) (node : DomNode) : M nat :=
  match depth with
  | 0 => raise RecursionError
  | S depth' =>
      let* basic := get_basic_attributes node in
      let* relation := ORM.OSMElement_create RELATION basic in
      let* member_els := getElementsByTagName node "member" in
      let* _ := for_enumerate member_els 0 (fun index member =>
                  RelationMemberParser_parse_with (RelationParser_parse_rec depth')
                    member relation index) in
      let* _ := parse_tags node relation in
      ret relation
  end.

Definition RelationParser_parse (node : DomNode) : M nat :=
  RelationParser_parse_rec (S (Dom.height node)) node.

Definition RelationMemberParser_parse : DomNode -> nat -> nat -> M nat :=
  RelationMemberParser_parse_with RelationParser_parse.

End ElementParsers.

Module AbstractXMLParser.

Definition PARSER_MAP : gmap string (DomNode -> M nat) :=
  {[ "node" := NodeParser_parse;
     "way" := WayParser_parse;
     "relation" := RelationParser_parse ]}.

(** [_dict_fetch(_dict, str_name)] *)
Definition _dict_fetch {V : Type} (_dict : gmap string V) (str_name : option string) : M V :=
  match str_name ≫= (fun name => _dict !! name) with
  | Some klass => ret klass
  | None => raise (unknown_member_type str_name)
  end.

Definition get_parser (str_name : option string) : M (DomNode -> M nat) :=
  _dict_fetch PARSER_MAP str_name.

(** [ELEMENT_TYPES]: the model class of each kind, here the subtype its
    rows carry. *)
Definition ELEMENT_TYPES : gmap string Subtype :=
  {[ "node" := NODE; "way" := WAY; "relation" := RELATION ]}.

Definition get_model (str_name : option string) : M Subtype :=
  _dict_fetch ELEMENT_TYPES str_name.

(** [transform(node)]; the node may be [None]. *)
Definition transform (node : option DomNode) : M nat :=
  match node with
  | None => raise (AttributeError "'NoneType' object has no attribute 'localName'")
  | Some n =>
      let* klass := get_parser (Dom.localName n) in
      klass n
  end.

End AbstractXMLParser.

Module ActionParser.
Import AbstractXMLParser.

(** One step of the generator [_get_old_new]: the first [i] element below
    the node, or [None], handed to [getFirstNontextChild]. *)
Definition _get_old_new_item (node : DomNode) (i : string) : M (option DomNode) :=
  let* found := getElementsByTagName node i in
  let tag := head found in              (* IndexError: tag = None *)
  getFirstNontextChild tag.

(** [a, b = self._get_old_new()] runs the generator to its end. *)
Definition _get_old_new (node : DomNode) : M (option DomNode * option DomNode) :=
  let* old_tag := _get_old_new_item node "old" in
  let* new_tag := _get_old_new_item node "new" in
  ret (old_tag, new_tag).

Definition parse (node : DomNode) : M nat :=
  let* action_type := attribute node "type" in
  let* new_old :=
    if decide (action_type = "create") then
      let* child := getFirstNontextChild (Some node) in
      let* new := transform child in
      ret (Some new, None)
    else if decide (action_type = "modify") then
      let* tags := _get_old_new node in
      let* old := match tags.1 with
                  | Some old_tag => let* e := transform (Some old_tag) in ret (Some e)
                  | None => ret None
                  end in
      let* new := match tags.2 with
                  | Some new_tag => let* e := transform (Some new_tag) in ret (Some e)
                  | None => ret None
                  end in
      ret (new, old)
    else if decide (action_type = "delete") then
      let* tags := _get_old_new node in
      let* old := transform tags.1 in
      ret (None, Some old)
    else ret (None, None) in
  ORM.Action_create {| type := action_type; new := new_old.1; old := new_old.2 |}.

End ActionParser.

Module AdiffParser.

Definition parse (node : DomNode) : M nat :=
  let* tag := tagName node in
  if decide (tag ≠ "osm") then
    raise (FileFormatError "That does not look like an adiff file…")
  else
    let* diff := ORM.Diff_create in
    let* action_els := getElementsByTagName node "action" in
    let* actions := for_each action_els ActionParser.parse in
    let* _ := ORM.Diff_actions_set diff actions in
    ret diff.

End AdiffParser.

(** ** models.py: the methods of the models *)

Module TagMethods.

(** [str.split(sep)] for a separator of one character: the pieces between
    the separators, the empty ones included; never an empty list. *)
Fixpoint split (sep : ascii) (s : string) : list string :=
  match s with
  | EmptyString => [EmptyString]
  | String c s' =>
      if Ascii.eqb c sep then EmptyString :: split sep s'
      else match split sep s' with
           | piece :: pieces => String c piece :: pieces
           | [] => [String c EmptyString]
           end
  end.

(** [Tag.split_tag_pattern]: [multi_tag_pattern.split(',')] *)
Definition split_tag_pattern (multi_tag_pattern : string) : list string :=
  split "," multi_tag_pattern.

(** [getattr(self, name)] for the two fields a filter names. *)
Definition getattr (self : TagRow) (name : string) : Result string :=
  if decide (name = "k") then Ok (k self)
  else if decide (name = "v") then Ok (v self)
  else Raise (AttributeError ("'Tag' object has no attribute '" +:+ name +:+ "'")).

(** [filter_spec.items()]: the filter holds [k], then [v] when it was
    given; a dict is iterated in the order of insertion. *)
Definition items (filter_spec : pydict) : list (string * string) :=
  omap (fun name => (fun value => (name, value)) <$> filter_spec !! name) ["k"; "v"].

(** The loop of [Tag.match]: [False] at the first field that differs. *)
Fixpoint match_items (self : TagRow) (spec : list (string * string)) : Result bool :=
  match spec with
  | [] => Ok true
  | (model_field_name, model_field_value) :: spec' =>
      match getattr self model_field_name with
      | Raise e => Raise e
      | Ok value =>
          if decide (value <> model_field_value) then Ok false
          else match_items self spec'
      end
  end.

(** [Tag.match(tag_pattern)] *)
Definition match_ (self : TagRow) (tag_pattern : string) : Result bool :=
  match Tag.parse_tag_pattern tag_pattern with
  | Raise e => Raise e
  | Ok filter_spec => match_items self (items filter_spec)
  end.

(** [Tag.__str__]: ['{}={}'.format(self.k, self.v)] *)
Definition __str__ (self : TagRow) : string := k self +:+ "=" +:+ v self.

End TagMethods.

(** [OSMElement.tags_dict()]: the dict comprehension over the element's
    tags; a later tag replaces an earlier one of the same key. *)
Definition tags_dict (db : DB) (e : nat) : pydict :=
  foldl (fun d kv => <[kv.1 := kv.2]> d) ∅ (ORM.element_tags db e).

(** * The vocabulary of the properties *)

(** ** Runs of a parser *)

(** A loop that succeeds ran its body on every item in turn: the results
    with the state each run started from and ended in. *)
Inductive runs_each {A B : Type} (body : A -> M B) :
    list A -> DB -> list B -> DB -> Prop :=
| runs_nil db : runs_each body [] db [] db
| runs_cons x xs db db1 db2 y ys :
    body x db = (db1, Ok y) ->
    runs_each body xs db1 ys db2 ->
    runs_each body (x :: xs) db (y :: ys) db2.

(** [grows n db db']: the tables of elements and actions are extended, the
    diffs and the bounds are left alone, and every new tag row belongs to an
    element whose key is [n] or more. *)
Record grows (n : nat) (db db' : DB) : Prop := {
  grows_elements : elements db `prefix_of` elements db';
  grows_tags : exists new, tags db' = tags db ++ new /\ Forall (fun t => n <= element t) new;
  grows_actions : action_table db `prefix_of` action_table db';
  grows_diffs : diffs db' = diffs db;
  grows_bounds : bounds_table db' = bounds_table db
}.

(** [keeps n m Q]: from a database with [n] elements or more, [m] grows the
    tables above [n], and a result it returns satisfies [Q]. *)
Definition keeps {A : Type} (n : nat) (m : M A) (Q : A -> Prop) : Prop :=
  forall db, n <= length (elements db) ->
    grows n db (m db).1 /\ forall a, (m db).2 = Ok a -> Q a.

(** [pure m]: [m] leaves the database alone. *)
Definition pure {A : Type} (m : M A) : Prop := forall db, (m db).1 = db.

(** [no_overflow m]: [m] does not stop on the nesting bound. *)
Definition no_overflow {A : Type} (m : M A) : Prop :=
  forall db, (m db).2 <> Raise RecursionError.

(** Every tag row of the database belongs to an element of the database. *)
Definition tags_wf (db : DB) : Prop :=
  Forall (fun t => element t < length (elements db)) (tags db).

(** Every way-node row of the database belongs to an element of the
    database. *)
Definition waynodes_wf (db : DB) : Prop :=
  Forall (fun r => way r < length (elements db)) (waynodes db).

(** ** Tables that only grow, references that stay valid *)

(** [appends db db']: every table of [db'] starts with the rows of [db]. *)
Record appends (db db' : DB) : Prop := {
  appends_bounds : bounds_table db `prefix_of` bounds_table db';
  appends_elements : elements db `prefix_of` elements db';
  appends_tags : tags db `prefix_of` tags db';
  appends_waynodes : waynodes db `prefix_of` waynodes db';
  appends_members : members db `prefix_of` members db';
  appends_actions : action_table db `prefix_of` action_table db';
  appends_diffs : diffs db `prefix_of` diffs db'
}.

Definition appending {A : Type} (m : M A) : Prop := forall db, appends db (m db).1.

(** Key [e] is that of an element; of an element of subtype [st]; key [a]
    is that of an Action; an optional key is that of an element. *)
Definition has_row (e : nat) (db : DB) : Prop := e < length (elements db).

Definition has_subtype (st : Subtype) (e : nat) (db : DB) : Prop :=
  subtype <$> elements db !! e = Some st.

Definition has_action (a : nat) (db : DB) : Prop := a < length (action_table db).

Definition opt_row (o : option nat) (db : DB) : Prop :=
  forall e, o = Some e -> has_row e db.

(** Every foreign key of the database is the key of a row, of the model
    the field names: a way-node joins a Way and a Node, a member belongs to
    a Relation. *)
Record db_wf (db : DB) : Prop := {
  wf_elements : Forall (fun row => forall b, bounds row = Some b -> b < length (bounds_table db))
                  (elements db);
  wf_tags : Forall (fun t => has_row (element t) db) (tags db);
  wf_waynodes : Forall (fun r => has_subtype WAY (way r) db /\ has_subtype NODE (node r) db)
                  (waynodes db);
  wf_members : Forall (fun m => has_subtype RELATION (relation m) db /\ has_row (rm_element m) db)
                 (members db);
  wf_actions : Forall (fun a => opt_row (new a) db /\ opt_row (old a) db) (action_table db);
  wf_diffs : Forall (fun d => Forall (fun a => has_action a db) (actions d)) (diffs db)
}.

(** [stable F]: [F] stays true when the tables grow. *)
Definition stable (F : DB -> Prop) : Prop :=
  forall db db', appends db db' -> F db -> F db'.

(** [preserves F m Q]: from a database with valid references where [F]
    holds, [m] ends in a database with valid references, also when it fails,
    and a result it returns satisfies [Q] there. *)
Definition preserves {A : Type} (F : DB -> Prop) (m : M A) (Q : A -> DB -> Prop) : Prop :=
  forall db, db_wf db -> F db ->
    db_wf (m db).1 /\ forall a, (m db).2 = Ok a -> Q a (m db).1.

(** [leaves table m]: [m] ends with the table it started with. *)
Definition leaves {A T : Type} (table : DB -> T) (m : M A) : Prop :=
  forall db, table (m db).1 = table db.

(** [fresh_members n db db']: no element is lost, and the member rows added
    belong to relations whose key is [n] or more. *)
Record fresh_members (n : nat) (db db' : DB) : Prop := {
  fresh_elements : length (elements db) <= length (elements db');
  fresh_rows : exists new, members db' = members db ++ new
                           /\ Forall (fun m => n <= relation m) new
}.

Definition keeps_fresh {A : Type} (n : nat) (m : M A) (Q : A -> Prop) : Prop :=
  forall db, n <= length (elements db) ->
    fresh_members n db (m db).1 /\ forall a, (m db).2 = Ok a -> Q a.

(** ** What a parse reads and stores *)

(** The database with one more element, with more tags, with one more
    way-node. *)
Definition add_element (row : OSMElement) (db : DB) : DB :=
  {| bounds_table := bounds_table db;
     elements := elements db ++ [row];
     tags := tags db; waynodes := waynodes db; members := members db;
     action_table := action_table db; diffs := diffs db |}.

Definition add_tags (rows : list TagRow) (db : DB) : DB :=
  {| bounds_table := bounds_table db; elements := elements db;
     tags := tags db ++ rows;
     waynodes := waynodes db; members := members db;
     action_table := action_table db; diffs := diffs db |}.

Definition add_waynode (row : WayNode) (db : DB) : DB :=
  {| bounds_table := bounds_table db; elements := elements db; tags := tags db;
     waynodes := waynodes db ++ [row];
     members := members db; action_table := action_table db; diffs := diffs db |}.

(** The key and value a [tag] element carries, when it carries both. *)
Definition tag_kv (tag_el : DomNode) : option (string * string) :=
  attrs ← Dom.attributes tag_el;
  k ← attrs !! "k";
  v ← attrs !! "v";
  Some (k, v).

(** The tag rows of element [e] for a list of keys and values. *)
Definition tag_rows (e : nat) (kvs : list (string * string)) : list TagRow :=
  (fun kv => {| element := e; k := kv.1; v := kv.2 |}) <$> kvs.

(** The identifier [get_basic_attributes] finds: [id], else [ref]. *)
Definition osmid_of (attrs : gmap string string) : option string :=
  match attrs !! "id" with
  | Some value => Some value
  | None => attrs !! "ref"
  end.

Definition basic_of (attrs : gmap string string) : pydict :=
  match osmid_of attrs with
  | Some value => {[ "osmid" := value ]}
  | None => ∅
  end.

(** The row of a Point: coordinates and identifier from the node, every
    other column at its default. *)
Definition node_row (attrs : gmap string string) (la lo : string) : OSMElement :=
  {| subtype := NODE; osmid := osmid_of attrs; version := None; timestamp := None;
     uid := None; user := ""; changeset := None; bounds := None; visible := true;
     lat := Some la; lon := Some lo |}.

(** The row of a Path or Group: the identifier only. *)
Definition plain_row (st : Subtype) (attrs : gmap string string) : OSMElement :=
  {| subtype := st; osmid := osmid_of attrs; version := None; timestamp := None;
     uid := None; user := ""; changeset := None; bounds := None; visible := true;
     lat := None; lon := None |}.

(** The keyword arguments of a Point: the coordinates and the identifier. *)
Definition node_kwargs (attrs : gmap string string) (la lo : string) : pydict :=
  <["lat" := la]> (<["lon" := lo]> (basic_of attrs)).

(** What the Point parser makes of a node: its row and its tags, when the
    node carries both coordinates, [save] accepts its values, and its tag
    elements carry key and value. *)
Definition node_content (nd : DomNode) : option (OSMElement * list (string * string)) :=
  attrs ← Dom.attributes nd;
  la ← attrs !! "lat";
  lo ← attrs !! "lon";
  match ORM.save_error NODE (node_kwargs attrs la lo) with
  | Some _ => None
  | None =>
      kvs ← mapM tag_kv (Dom.elements_by_tagName "tag" nd);
      Some (node_row attrs la lo, kvs)
  end.

(** The attribute of that name of a node, when it has one. *)
Definition attribute_of (name : string) (n : DomNode) : option string :=
  attrs ← Dom.attributes n; attrs !! name.

(** The first child of a wrapper that is not text. *)
Definition first_nontext (wrapper : DomNode) : option DomNode :=
  List.find (fun c => negb (Dom.isText c)) (Dom.childNodes wrapper).

(** The error of reading [childNodes] of [None]. *)
Definition no_childNodes : exn :=
  AttributeError "'NoneType' object has no attribute 'childNodes'".

(** The error of reading [localName] of [None]. *)
Definition no_localName : exn :=
  AttributeError "'NoneType' object has no attribute 'localName'".

(** ** The tag pattern *)

(** [occurs c s]: the character [c] occurs in [s]. *)
Fixpoint occurs (c : ascii) (s : string) : bool :=
  match s with
  | EmptyString => false
  | String c' s' => Ascii.eqb c c' || occurs c s'
  end.

(** What is left of [RE_TAG_PATTERN] once the key is taken: the [=], then
    the value. *)
Definition after_key (s rest : string) : option (gmap string string) :=
  match rest with
  | String c r =>
      if Ascii.eqb "=" c then
        Re.any_plus r (fun rest' =>
          Some (<["value" := Re.substring_before r rest']>
                  (<["key" := Re.substring_before s rest]> ∅)))
      else None
  | EmptyString => None
  end.

(** The error of a pattern that does not match. *)
Definition invalid_tag_pattern (s : string) : exn :=
  ValueError ("Invalid tag pattern : " +:+ dquote +:+ s +:+ dquote).

(** [s] read as a pattern: a key, an [=], a value, and what follows the
    line of the value.  Key and value are not empty and hold no line
    break; the value goes to the end of its line; and its [=] is the last
    one of the line with a character after it, so that an [=] in the value
    can only be its last character. *)
Definition pattern_parts (s key value rest : string) : Prop :=
  s = key +:+ "=" +:+ value +:+ rest
  /\ key <> "" /\ value <> ""
  /\ occurs Re.newline key = false /\ occurs Re.newline value = false
  /\ (rest = "" \/ exists rest', rest = String Re.newline rest')
  /\ (forall v1 v2, value = v1 +:+ "=" +:+ v2 -> v2 = "").

(** [s] holds no [=] with a character before it and one after it on its
    first line. *)
Definition no_pattern (s : string) : Prop :=
  forall key c rest,
    s = key +:+ "=" +:+ String c rest ->
    key <> "" -> occurs Re.newline key = false -> c = Re.newline.

(** The filter of a key and a value. *)
Definition pattern_filter (key value : string) : pydict :=
  if decide (value <> "*") then <["v" := value]> {["k" := key]} else {["k" := key]}.

(** ** Example documents *)

(** Examples are written with the attributes as a list. *)
Definition el (tag : string) (attrs : list (string * string)) (children : list DomNode) : DomNode :=
  Element tag (list_to_map attrs) children.

Definition point (id lat lon : string) : DomNode :=
  el "node" [("id", id); ("lat", lat); ("lon", lon)] [].

Definition point_with_bounds : DomNode :=
  el "node" [("id", "1"); ("lat", "10"); ("lon", "20")]
    [el "bounds" [("minlat", "9"); ("minlon", "19"); ("maxlat", "11"); ("maxlon", "21")] []].

Definition way_with_two_nd : DomNode :=
  el "way" [("id", "7")]
    [el "nd" [("ref", "1"); ("lat", "10"); ("lon", "20")] [];
     el "nd" [("ref", "2"); ("lat", "11"); ("lon", "21")] [];
     el "tag" [("k", "highway"); ("v", "primary")] []].

Definition way_with_nested_nd : DomNode :=
  el "way" [("id", "7")]
    [el "nd" [("ref", "1"); ("lat", "10"); ("lon", "20")]
       [el "nd" [("ref", "2"); ("lat", "11"); ("lon", "21")] []]].

Definition way_with_bare_nd : DomNode :=
  el "way" [("id", "7")] [el "nd" [("ref", "1")] []].

Definition way_with_named_nd : DomNode :=
  el "way" [("id", "7")] [el "nd" [("ref", "1"); ("lat", "north"); ("lon", "20")] []].

Definition way_with_tagged_nd : DomNode :=
  el "way" [("id", "7")]
    [el "nd" [("ref", "1"); ("lat", "10"); ("lon", "20")]
       [el "tag" [("k", "name"); ("v", "stop")] []];
     el "tag" [("k", "highway"); ("v", "primary")] [];
     el "tag" [("k", "highway"); ("v", "primary")] []].

Definition member_without_role : DomNode :=
  el "member" [("type", "node"); ("ref", "5"); ("lat", "10"); ("lon", "20")] [].

Definition member_with_role : DomNode :=
  el "member" [("type", "node"); ("ref", "5"); ("role", "stop"); ("lat", "10"); ("lon", "20")] [].

Definition relation_with_nested_member : DomNode :=
  el "relation" [("id", "9")]
    [el "member" [("type", "relation"); ("ref", "8"); ("role", "part")]
       [el "member" [("type", "node"); ("ref", "5"); ("role", "stop");
                     ("lat", "10"); ("lon", "20")] []]].

Definition remove_action : DomNode := el "action" [("type", "remove")] [].

Definition modify_without_wrappers : DomNode := el "action" [("type", "modify")] [].

Definition delete_without_old : DomNode := el "action" [("type", "delete")] [].

Definition delete_old_only : DomNode :=
  el "action" [("type", "delete")] [el "old" [] [point "2" "10" "20"]].

Definition delete_old_new : DomNode :=
  el "action" [("type", "delete")]
    [Text " "; el "old" [] [Text " "; point "2" "10" "20"];
     el "new" [] [el "node" [("id", "2"); ("visible", "false")] []]].

Definition adiff_two_actions : DomNode :=
  el "osm" []
    [el "action" [("type", "create")] [point "1" "10" "20"];
     el "action" [("type", "remove")] []].

Definition adiff_nested_action : DomNode :=
  el "osm" [] [el "action" [("type", "remove")] [el "action" [("type", "remove")] []]].

Definition adiff_empty_modify : DomNode :=
  el "osm" [] [el "action" [("type", "modify")] []].

Definition adiff_create_then_empty_modify : DomNode :=
  el "osm" []
    [el "action" [("type", "create")] [point "1" "10" "20"];
     el "action" [("type", "modify")] []].

Definition modify_old_only : DomNode :=
  el "action" [("type", "modify")] [el "old" [] [point "2" "10" "20"]].

Definition modify_empty_wrappers : DomNode :=
  el "action" [("type", "modify")] [el "old" [] []; el "new" [] [Text " "]].

Definition modify_old_new : DomNode :=
  el "action" [("type", "modify")]
    [el "old" [] [Text " "; point "2" "10" "20"];
     el "new" [] [Text " "; point "2" "11" "21"]].

(** * Properties *)

(** ** The monad *)

Section monad_facts.
Context {A B : Type}.
Implicit Types (m : M A) (f : A -> M B).

Lemma bind_ok m f db db1 a :
  m db = (db1, Ok a) -> bind m f db = f a db1.
Proof. intros Hm. unfold bind. by rewrite Hm. Qed.

Lemma bind_raise m f db db1 e :
  m db = (db1, Raise e) -> bind m f db = (db1, Raise e).
Proof. intros Hm. unfold bind. by rewrite Hm. Qed.

Lemma bind_ok_inv m f db db' b :
  bind m f db = (db', Ok b) ->
  exists db1 a, m db = (db1, Ok a) /\ f a db1 = (db', Ok b).
Proof.
  unfold bind. destruct (m db) as [db1 [a|e]]; [eauto | discriminate].
Qed.

Lemma bind_ret_l (a : A) f db : bind (ret a) f db = f a db.
Proof. reflexivity. Qed.
End monad_facts.

(** Splits a successful run of a [bind] into its two runs. *)
Ltac bind_inv H :=
  let db1 := fresh "db" in
  let a := fresh "a" in
  let Hm := fresh "Hrun" in
  apply bind_ok_inv in H as (db1 & a & Hm & H).

Lemma for_each_runs {A B : Type} (body : A -> M B) xs db db' ys :
  for_each xs body db = (db', Ok ys) <-> runs_each body xs db ys db'.
Proof.
  split.
  - revert db ys. induction xs as [|x xs IH]; intros db ys H; simpl in H.
    + inversion H; subst. constructor.
    + bind_inv H. bind_inv H. inversion H; subst.
      econstructor; eauto.
  - induction 1 as [|x xs db db1 db2 y ys Hx _ IH]; simpl; [done|].
    rewrite (bind_ok _ _ _ _ _ Hx). by rewrite (bind_ok _ _ _ _ _ IH).
Qed.

Lemma runs_each_length {A B : Type} (body : A -> M B) xs db ys db' :
  runs_each body xs db ys db' -> length ys = length xs.
Proof. induction 1; simpl; congruence. Qed.

(** ** How a parser run changes the tables *)

Lemma grows_refl n db : grows n db db.
Proof.
  split; try done; exists []; by rewrite app_nil_r.
Qed.

Lemma grows_trans n db db1 db2 :
  grows n db db1 -> grows n db1 db2 -> grows n db db2.
Proof.
  intros [He (t1 & Ht1 & F1) Ha Hd Hb] [He' (t2 & Ht2 & F2) Ha' Hd' Hb'].
  split.
  - by etrans.
  - exists (t1 ++ t2). rewrite Ht2, Ht1, <- (assoc_L (++)). split; [done|].
    by apply Forall_app.
  - by etrans.
  - congruence.
  - congruence.
Qed.

Lemma grows_weaken n n' db db' : n' <= n -> grows n db db' -> grows n' db db'.
Proof.
  intros Hn [He (t & Ht & F) Ha Hd Hb]. split; try done.
  exists t. split; [done|]. eapply Forall_impl; [done|]. simpl. lia.
Qed.

Lemma grows_length n db db' :
  grows n db db' -> length (elements db) <= length (elements db').
Proof. intros [He _ _ _ _]. by apply prefix_length. Qed.

Lemma keeps_ret {A : Type} n (a : A) (Q : A -> Prop) : Q a -> keeps n (ret a) Q.
Proof. intros HQ db _. split; [apply grows_refl|]. simpl. by intros ? [= <-]. Qed.

Lemma keeps_raise {A : Type} n e (Q : A -> Prop) : keeps n (raise e) Q.
Proof. intros db _. split; [apply grows_refl|]. simpl. by intros ? [=]. Qed.

Lemma keeps_bind {A B : Type} n (m : M A) (f : A -> M B) Q R :
  keeps n m Q -> (forall a, Q a -> keeps n (f a) R) -> keeps n (bind m f) R.
Proof.
  intros Hm Hf db Hn. destruct (Hm db Hn) as [Hg HQ].
  unfold bind. destruct (m db) as [db1 [a|e]]; simpl in *.
  - destruct (Hf a (HQ a eq_refl) db1) as [Hg' HR].
    { apply grows_length in Hg. lia. }
    split; [by eapply grows_trans|done].
  - split; [done|]. by intros ? [=].
Qed.

Lemma keeps_weaken {A : Type} n (m : M A) (Q R : A -> Prop) :
  keeps n m Q -> (forall a, Q a -> R a) -> keeps n m R.
Proof. intros Hm HQR db Hn. destruct (Hm db Hn). naive_solver. Qed.

Lemma keeps_for_each {A B : Type} n (xs : list A) (body : A -> M B) :
  (forall x, x ∈ xs -> keeps n (body x) (fun _ => True)) ->
  keeps n (for_each xs body) (fun _ => True).
Proof.
  induction xs as [|x xs IH]; intros Hb; simpl.
  - by apply keeps_ret.
  - eapply keeps_bind; [apply Hb; left|]. intros y _.
    eapply keeps_bind; [apply IH; intros; apply Hb; by right|].
    intros ys _. by apply keeps_ret.
Qed.

Lemma keeps_for_enumerate {A B : Type} n (xs : list A) index (body : nat -> A -> M B) :
  (forall i x, x ∈ xs -> keeps n (body i x) (fun _ => True)) ->
  keeps n (for_enumerate xs index body) (fun _ => True).
Proof.
  revert index. induction xs as [|x xs IH]; intros index Hb; simpl.
  - by apply keeps_ret.
  - eapply keeps_bind; [apply Hb; left|]. intros y _.
    apply IH. intros; apply Hb; by right.
Qed.

(** ** The DOM *)

Lemma DomNode_children_ind (P : DomNode -> Prop) :
  (forall tag attrs children, Forall P children -> P (Element tag attrs children)) ->
  (forall data, P (Text data)) ->
  (forall data, P (Comment data)) ->
  forall n, P n.
Proof.
  intros HE HT HC. fix IH 1. intros [tag attrs children|data|data]; [|done..].
  apply HE. induction children as [|c children IHc]; constructor; [apply IH|apply IHc].
Qed.

Lemma elem_of_elements_by_tagName name parent x :
  x ∈ Dom.elements_by_tagName name parent <->
  exists c, c ∈ Dom.childNodes parent /\
    ((Dom.tag_matches name c = true /\ x = c) \/ x ∈ Dom.elements_by_tagName name c).
Proof.
  destruct parent as [tag attrs children|?|?]; simpl.
  - rewrite list_elem_of_In, in_flat_map. setoid_rewrite <- list_elem_of_In.
    setoid_rewrite elem_of_app.
    split; intros (c & Hc & H); exists c; (split; [done|]).
    + destruct H as [H|H]; [left|by right].
      destruct (Dom.tag_matches name c); [|by apply elem_of_nil in H].
      apply list_elem_of_singleton in H. done.
    + destruct H as [[Hm ->]|H]; [left|by right]. rewrite Hm. by left.
  - split; [by intros ?%elem_of_nil|]. by intros (c & ?%elem_of_nil & _).
  - split; [by intros ?%elem_of_nil|]. by intros (c & ?%elem_of_nil & _).
Qed.

Lemma height_child tag attrs children c :
  c ∈ children -> Dom.height c < Dom.height (Element tag attrs children).
Proof.
  simpl. induction 1 as [c l|c c' l _ IH]; simpl; lia.
Qed.

(** An element found below a node is less high than the node. *)
Lemma elements_by_tagName_height name parent x :
  x ∈ Dom.elements_by_tagName name parent -> Dom.height x < Dom.height parent.
Proof.
  revert x. induction parent as [tag attrs children IH| |] using DomNode_children_ind;
    intros x Hx; try by apply elem_of_nil in Hx.
  apply elem_of_elements_by_tagName in Hx as (c & Hc & Hx). simpl in Hc.
  pose proof (height_child tag attrs children c Hc) as Hh.
  destruct Hx as [[_ ->]|Hx]; [done|].
  rewrite Forall_forall in IH. specialize (IH c Hc x Hx). lia.
Qed.

(** What is found below a descendant is found below the node. *)
Lemma elements_by_tagName_below name name' parent x y :
  x ∈ Dom.elements_by_tagName name parent ->
  y ∈ Dom.elements_by_tagName name' x ->
  y ∈ Dom.elements_by_tagName name' parent.
Proof.
  revert x. induction parent as [tag attrs children IH| |] using DomNode_children_ind;
    intros x Hx Hy; try by apply elem_of_nil in Hx.
  apply elem_of_elements_by_tagName in Hx as (c & Hc & Hx).
  apply elem_of_elements_by_tagName. exists c. split; [done|]. right.
  destruct Hx as [[_ ->]|Hx]; [done|].
  rewrite Forall_forall in IH. by apply (IH c Hc x).
Qed.

Lemma elements_by_tagName_are_elements name parent x :
  x ∈ Dom.elements_by_tagName name parent -> Dom.tag_matches name x = true.
Proof.
  revert x. induction parent as [tag attrs children IH| |] using DomNode_children_ind;
    intros x Hx; try by apply elem_of_nil in Hx.
  apply elem_of_elements_by_tagName in Hx as (c & Hc & Hx).
  destruct Hx as [[? ->]|Hx]; [done|].
  rewrite Forall_forall in IH. by apply (IH c Hc x).
Qed.

(** ** Reading a node leaves the database alone *)

Lemma pure_ret {A : Type} (a : A) : pure (ret a).
Proof. done. Qed.

Lemma pure_raise {A : Type} e : pure (raise (A:=A) e).
Proof. done. Qed.

Lemma pure_bind {A B : Type} (m : M A) (f : A -> M B) :
  pure m -> (forall a, pure (f a)) -> pure (bind m f).
Proof.
  intros Hm Hf db. unfold bind. specialize (Hm db).
  destruct (m db) as [db1 [a|e]]; simpl in *; subst; [apply Hf|done].
Qed.

Lemma pure_attribute n name : pure (attribute n name).
Proof. unfold attribute. repeat case_match; done. Qed.

Lemma pure_has_attribute n name : pure (has_attribute n name).
Proof. unfold has_attribute. repeat case_match; done. Qed.

Lemma pure_getElementsByTagName n name : pure (getElementsByTagName n name).
Proof. by destruct n. Qed.

Lemma pure_tagName n : pure (NodeAccess.tagName n).
Proof. unfold NodeAccess.tagName. by case_match. Qed.

Lemma pure_getFirstNontextChild element : pure (getFirstNontextChild element).
Proof. by destruct element. Qed.

Lemma pure_first_key node keys : pure (AbstractOSMElementParser.first_key node keys).
Proof.
  induction keys as [|key keys IH]; simpl; [done|].
  apply pure_bind; [apply pure_has_attribute|]. by intros [].
Qed.

Lemma pure_get_basic_attributes node :
  pure (AbstractOSMElementParser.get_basic_attributes node).
Proof.
  apply pure_bind; [apply pure_first_key|]. intros [key|]; [|done].
  apply pure_bind; [apply pure_attribute|done].
Qed.

Lemma pure_keeps {A : Type} n (m : M A) : pure m -> keeps n m (fun _ => True).
Proof. intros Hm db _. rewrite Hm. split; [apply grows_refl|done]. Qed.

Create HintDb parsers.

#[local] Hint Resolve pure_attribute pure_has_attribute pure_getElementsByTagName
  pure_tagName pure_getFirstNontextChild pure_first_key pure_get_basic_attributes
  pure_ret pure_raise : parsers.

(** ** The ORM operations and the parsers grow the tables *)

(** [objects.create] of an element either raises the error of [save] and
    leaves the database alone, or appends the row. *)
Lemma OSMElement_create_cases st kwargs db :
  (exists e, ORM.save_error st kwargs = Some e
             /\ ORM.OSMElement_create st kwargs db = (db, Raise e))
  \/ (ORM.save_error st kwargs = None
      /\ ORM.OSMElement_create st kwargs db
         = (add_element (ORM.OSMElement_of_kwargs st kwargs) db, Ok (length (elements db)))).
Proof.
  unfold ORM.OSMElement_create. destruct (ORM.save_error st kwargs) as [e|]; [left|right]; eauto.
Qed.

Lemma OSMElement_create_Ok st kwargs db db' pk :
  ORM.OSMElement_create st kwargs db = (db', Ok pk) ->
  ORM.save_error st kwargs = None
  /\ db' = add_element (ORM.OSMElement_of_kwargs st kwargs) db
  /\ pk = length (elements db).
Proof.
  destruct (OSMElement_create_cases st kwargs db) as [(e & _ & ->)|[He ->]]; [done|].
  by intros [= <- <-].
Qed.

(** In a run that returned, the creation of the element returned. *)
Ltac create_ok H :=
  match type of H with
  | bind (ORM.OSMElement_create ?st ?kwargs) _ ?db = _ =>
      let Hc := fresh "Hc" in
      let err := fresh "err" in
      destruct (OSMElement_create_cases st kwargs db) as [(err & _ & Hc)|[_ Hc]];
      [by erewrite bind_raise in H by exact Hc|];
      erewrite bind_ok in H by exact Hc; clear Hc
  end.

Lemma keeps_OSMElement_create n st kwargs :
  keeps n (ORM.OSMElement_create st kwargs) (fun pk => n <= pk).
Proof.
  intros db Hn.
  destruct (OSMElement_create_cases st kwargs db) as [(e & _ & ->)|[_ ->]].
  { split; [apply grows_refl|done]. }
  split; [|by intros ? [= <-]].
  split; simpl; try done; [by apply prefix_app_r|]; exists []; by rewrite app_nil_r.
Qed.

Lemma keeps_Tag_create n row :
  n <= element row -> keeps n (ORM.Tag_create row) (fun _ => True).
Proof.
  intros Hrow db Hn. split; [|done].
  split; simpl; try done. exists [row]; by repeat constructor.
Qed.

Lemma keeps_WayNode_create n row :
  keeps n (ORM.WayNode_create row) (fun _ => True).
Proof.
  intros db Hn. split; [|done].
  split; simpl; try done. exists []; by rewrite app_nil_r.
Qed.

Lemma keeps_RelationMember_create n row :
  keeps n (ORM.RelationMember_create row) (fun _ => True).
Proof.
  intros db Hn. split; [|done].
  split; simpl; try done; exists []; by rewrite app_nil_r.
Qed.

Lemma keeps_Action_create n row :
  keeps n (ORM.Action_create row) (fun _ => True).
Proof.
  intros db Hn. split; [|done].
  split; simpl; try done; [|by apply prefix_app_r]; exists []; by rewrite app_nil_r.
Qed.

Lemma keeps_parse_tags n node e :
  n <= e -> keeps n (AbstractOSMElementParser.parse_tags node e) (fun _ => True).
Proof.
  intros He. unfold AbstractOSMElementParser.parse_tags.
  eapply keeps_bind; [apply pure_keeps; auto with parsers|]. intros tag_els _.
  apply keeps_for_each. intros tag_el _.
  do 2 (eapply keeps_bind; [apply pure_keeps; auto with parsers|]; intros ? _).
  by apply keeps_Tag_create.
Qed.

Lemma keeps_NodeParser_parse n node :
  keeps n (NodeParser_parse node) (fun pk => n <= pk).
Proof.
  unfold NodeParser_parse.
  do 3 (eapply keeps_bind; [apply pure_keeps; auto with parsers|]; intros ? _).
  eapply keeps_bind; [apply keeps_OSMElement_create|]. intros pk Hpk.
  eapply keeps_bind; [by apply keeps_parse_tags|]. intros _ _.
  by apply keeps_ret.
Qed.

Lemma keeps_WayParser_parse n node :
  keeps n (WayParser_parse node) (fun pk => n <= pk).
Proof.
  unfold WayParser_parse.
  eapply keeps_bind; [apply pure_keeps; auto with parsers|]; intros basic _.
  eapply keeps_bind; [apply keeps_OSMElement_create|]. intros w Hw.
  eapply keeps_bind; [apply pure_keeps; auto with parsers|]; intros nds _.
  eapply keeps_bind.
  { apply keeps_for_enumerate. intros i nd _.
    eapply keeps_bind; [apply keeps_NodeParser_parse|]. intros pk _.
    apply keeps_WayNode_create. }
  intros _ _. eapply keeps_bind; [by apply keeps_parse_tags|]. intros _ _.
  by apply keeps_ret.
Qed.

Lemma keeps_RelationMemberParser_parse_with n rec node relation order :
  keeps n (rec node) (fun pk => n <= pk) ->
  keeps n (RelationMemberParser_parse_with rec node relation order) (fun _ => True).
Proof.
  intros Hrec. unfold RelationMemberParser_parse_with.
  eapply keeps_bind; [apply pure_keeps; auto with parsers|]; intros _type _.
  eapply keeps_bind with (Q := fun _ => True).
  { repeat case_decide.
    - eapply keeps_weaken; [apply keeps_NodeParser_parse|done].
    - eapply keeps_weaken; [apply keeps_WayParser_parse|done].
    - eapply keeps_weaken; [apply Hrec|done].
    - apply keeps_raise. }
  intros element _.
  eapply keeps_bind; [apply pure_keeps; auto with parsers|]; intros role _.
  apply keeps_RelationMember_create.
Qed.

Lemma keeps_RelationParser_parse_rec depth : forall n node,
  keeps n (RelationParser_parse_rec depth node) (fun pk => n <= pk).
Proof.
  induction depth as [|depth IH]; intros n node; simpl; [apply keeps_raise|].
  eapply keeps_bind; [apply pure_keeps; auto with parsers|]; intros basic _.
  eapply keeps_bind; [apply keeps_OSMElement_create|]. intros r Hr.
  eapply keeps_bind; [apply pure_keeps; auto with parsers|]; intros member_els _.
  eapply keeps_bind.
  { apply keeps_for_enumerate. intros i member _.
    apply keeps_RelationMemberParser_parse_with, IH. }
  intros _ _. eapply keeps_bind; [by apply keeps_parse_tags|]. intros _ _.
  by apply keeps_ret.
Qed.

Lemma keeps_RelationParser_parse n node :
  keeps n (RelationParser_parse node) (fun pk => n <= pk).
Proof. apply keeps_RelationParser_parse_rec. Qed.

Lemma PARSER_MAP_lookup name klass :
  AbstractXMLParser.PARSER_MAP !! name = Some klass ->
  (name = "node" /\ klass = NodeParser_parse)
  \/ (name = "way" /\ klass = WayParser_parse)
  \/ (name = "relation" /\ klass = RelationParser_parse).
Proof.
  unfold AbstractXMLParser.PARSER_MAP. intros H.
  repeat (apply lookup_insert_Some in H as [[<- <-]|[_ H]]; [by auto|]).
  apply lookup_singleton_Some in H as [<- <-]. by auto.
Qed.

Lemma keeps_registered n name klass node :
  AbstractXMLParser.PARSER_MAP !! name = Some klass ->
  keeps n (klass node) (fun pk => n <= pk).
Proof.
  intros [[_ ->]|[[_ ->]|[_ ->]]]%PARSER_MAP_lookup;
    auto using keeps_NodeParser_parse, keeps_WayParser_parse, keeps_RelationParser_parse.
Qed.

Lemma keeps_transform n node :
  keeps n (AbstractXMLParser.transform node) (fun pk => n <= pk).
Proof.
  destruct node as [node|]; simpl; [|apply keeps_raise].
  unfold AbstractXMLParser.get_parser, AbstractXMLParser._dict_fetch, bind.
  destruct (Dom.localName node ≫= _) as [klass|] eqn:Hk; simpl; [|apply keeps_raise].
  destruct (Dom.localName node) as [name|]; [|done]. simpl in Hk.
  by eapply keeps_registered.
Qed.

Lemma pure__get_old_new node : pure (ActionParser._get_old_new node).
Proof.
  unfold ActionParser._get_old_new, ActionParser._get_old_new_item.
  repeat (apply pure_bind; [auto with parsers|intros ?]); auto with parsers.
Qed.

Lemma keeps_ActionParser_parse n node :
  keeps n (ActionParser.parse node) (fun _ => True).
Proof.
  unfold ActionParser.parse.
  eapply keeps_bind; [apply pure_keeps; auto with parsers|]; intros action_type _.
  eapply keeps_bind with (Q := fun _ => True); [|intros; apply keeps_Action_create].
  pose proof pure__get_old_new.
  repeat case_decide.
  - eapply keeps_bind; [apply pure_keeps; auto with parsers|]; intros child _.
    eapply keeps_bind; [apply keeps_transform|]. intros; by apply keeps_ret.
  - eapply keeps_bind; [apply pure_keeps; auto with parsers|]; intros [old_tag new_tag] _.
    cbn [fst snd]. eapply keeps_bind with (Q := fun _ => True).
    { destruct old_tag; [|by apply keeps_ret].
      eapply keeps_bind; [apply keeps_transform|]. intros; by apply keeps_ret. }
    intros old _. eapply keeps_bind with (Q := fun _ => True).
    { destruct new_tag; [|by apply keeps_ret].
      eapply keeps_bind; [apply keeps_transform|]. intros; by apply keeps_ret. }
    intros; by apply keeps_ret.
  - eapply keeps_bind; [apply pure_keeps; auto with parsers|]; intros tags _.
    eapply keeps_bind; [apply keeps_transform|]. intros; by apply keeps_ret.
  - by apply keeps_ret.
Qed.

(** ** The nesting bound of [RelationParser.parse] is never reached *)

Lemma bind_ext {A B : Type} (m : M A) (f g : A -> M B) db :
  (forall a db1, f a db1 = g a db1) -> bind m f db = bind m g db.
Proof. intros Hfg. unfold bind. destruct (m db) as [db1 [a|e]]; auto. Qed.

Lemma for_enumerate_ext {A B : Type} (xs : list A) (body body' : nat -> A -> M B) :
  (forall i x db, x ∈ xs -> body i x db = body' i x db) ->
  forall index db, for_enumerate xs index body db = for_enumerate xs index body' db.
Proof.
  induction xs as [|x xs IH]; intros Hb index db; simpl; [done|].
  unfold bind. rewrite (Hb index x db) by left.
  destruct (body' index x db) as [db1 [a|e]]; [|done].
  apply IH. intros; apply Hb; by right.
Qed.

Lemma RelationMemberParser_parse_with_ext rec rec' node relation order db :
  (forall db1, rec node db1 = rec' node db1) ->
  RelationMemberParser_parse_with rec node relation order db
  = RelationMemberParser_parse_with rec' node relation order db.
Proof.
  intros Hrec. unfold RelationMemberParser_parse_with.
  apply bind_ext. intros _type db1. unfold bind at 1 3.
  repeat case_decide; try done. by rewrite Hrec.
Qed.

Lemma RelationParser_parse_rec_depth d1 : forall d2 node db,
  Dom.height node < d1 -> Dom.height node < d2 ->
  RelationParser_parse_rec d1 node db = RelationParser_parse_rec d2 node db.
Proof.
  induction d1 as [|d1 IH]; intros [|d2] node db H1 H2; try lia. simpl.
  apply bind_ext; intros basic db1. apply bind_ext; intros relation db2.
  destruct node as [tag attrs children| |]; [|done..].
  cbn [getElementsByTagName]. rewrite !bind_ret_l. unfold bind at 1 3.
  rewrite for_enumerate_ext with (body' := fun index member =>
    RelationMemberParser_parse_with (RelationParser_parse_rec d2) member relation index);
    [done|].
  intros i member db3 Hm%elements_by_tagName_height.
  apply RelationMemberParser_parse_with_ext. intros db4. apply IH; lia.
Qed.

(** [RelationParser.parse] in terms of the member parser, as the source
    writes it. *)
Lemma RelationParser_parse_unfold node db :
  RelationParser_parse node db =
  (let* basic := AbstractOSMElementParser.get_basic_attributes node in
   let* relation := ORM.OSMElement_create RELATION basic in
   let* member_els := getElementsByTagName node "member" in
   let* _ := for_enumerate member_els 0 (fun index member =>
               RelationMemberParser_parse member relation index) in
   let* _ := AbstractOSMElementParser.parse_tags node relation in
   ret relation) db.
Proof.
  unfold RelationParser_parse. simpl.
  apply bind_ext; intros basic db1. apply bind_ext; intros relation db2.
  destruct node as [tag attrs children| |]; [|done..].
  cbn [getElementsByTagName]. rewrite !bind_ret_l. unfold bind at 1 3.
  rewrite for_enumerate_ext with (body' := fun index member =>
    RelationMemberParser_parse member relation index); [done|].
  intros i member db3 Hm%elements_by_tagName_height.
  apply RelationMemberParser_parse_with_ext. intros db4.
  apply RelationParser_parse_rec_depth; lia.
Qed.

Lemma no_overflow_ret {A : Type} (a : A) : no_overflow (ret a).
Proof. by intros db. Qed.

Lemma no_overflow_bind {A B : Type} (m : M A) (f : A -> M B) :
  no_overflow m -> (forall a, no_overflow (f a)) -> no_overflow (bind m f).
Proof.
  intros Hm Hf db. unfold bind. specialize (Hm db).
  destruct (m db) as [db1 [a|e]]; [apply Hf|]. simpl in *. congruence.
Qed.

Lemma no_overflow_for_each {A B : Type} (xs : list A) (body : A -> M B) :
  (forall x, no_overflow (body x)) -> no_overflow (for_each xs body).
Proof.
  intros Hb. induction xs as [|x xs IH]; simpl; [apply no_overflow_ret|].
  apply no_overflow_bind; [done|]. intros y.
  apply no_overflow_bind; [done|]. intros ys. apply no_overflow_ret.
Qed.

Lemma no_overflow_for_enumerate {A B : Type} (xs : list A) index (body : nat -> A -> M B) :
  (forall i x, x ∈ xs -> no_overflow (body i x)) ->
  no_overflow (for_enumerate xs index body).
Proof.
  revert index. induction xs as [|x xs IH]; intros index Hb; simpl; [apply no_overflow_ret|].
  apply no_overflow_bind; [apply Hb; left|]. intros _.
  apply IH. intros; apply Hb; by right.
Qed.

Lemma no_overflow_attribute n name : no_overflow (attribute n name).
Proof. intros db. unfold attribute. by repeat case_match. Qed.

Lemma no_overflow_getElementsByTagName n name : no_overflow (getElementsByTagName n name).
Proof. intros db. by destruct n. Qed.

Lemma no_overflow_get_basic_attributes node :
  no_overflow (AbstractOSMElementParser.get_basic_attributes node).
Proof.
  apply no_overflow_bind.
  - generalize ["id"; "ref"]. intros keys.
    induction keys as [|key keys IH]; simpl; [apply no_overflow_ret|].
    apply no_overflow_bind.
    + intros db. unfold has_attribute. by case_match.
    + intros []; [apply no_overflow_ret|done].
  - intros [key|]; [|apply no_overflow_ret].
    apply no_overflow_bind; [apply no_overflow_attribute|]. intros ?. apply no_overflow_ret.
Qed.

Lemma no_overflow_parse_tags node e :
  no_overflow (AbstractOSMElementParser.parse_tags node e).
Proof.
  apply no_overflow_bind; [apply no_overflow_getElementsByTagName|]. intros tag_els.
  apply no_overflow_for_each. intros tag_el.
  do 2 (apply no_overflow_bind; [apply no_overflow_attribute|]; intros ?).
  by intros db.
Qed.

Lemma first_error_Some checks e :
  ORM.first_error checks = Some e -> Some e ∈ checks.
Proof.
  induction checks as [|check checks IH]; simpl; [done|].
  destruct check as [e'|]; [intros [= ->]; by left|]. intros H. right. by apply IH.
Qed.

Lemma float_error_kind value e :
  ORM.float_error value = Some e -> exists msg, e = ValueError msg.
Proof. unfold ORM.float_error. case_match; [done|]. intros [= <-]. eauto. Qed.

Lemma float_column_error_kind field value e :
  ORM.float_column_error field value = Some e -> exists msg, e = ValueError msg.
Proof.
  unfold ORM.float_column_error, ORM.expected_a_number.
  repeat case_match; try done. intros [= <-]. eauto.
Qed.

(** The errors of [save] are those of the conversions and of the table. *)
Lemma save_error_kind st kwargs e :
  ORM.save_error st kwargs = Some e ->
  (exists msg, e = ValueError msg) \/ (exists msg, e = IntegrityError msg)
  \/ (exists msg, e = OverflowError msg).
Proof.
  intros He. apply first_error_Some in He.
  repeat (apply elem_of_cons in He as [He|He]); [| | | |by apply elem_of_nil in He].
  - destruct st; [|done..]. symmetry in He. unfold ORM.Node_save in He.
    destruct (kwargs !! "lat") as [la|]; [|done].
    destruct (kwargs !! "lon") as [lo|]; [|done].
    destruct (_ && _); [|done]. apply first_error_Some in He.
    repeat (apply elem_of_cons in He as [He|He]); [| |by apply elem_of_nil in He].
    + left. eapply float_error_kind. by symmetry.
    + left. eapply float_error_kind. by symmetry.
  - symmetry in He. unfold ORM.osmid_error, ORM.expected_a_number in He.
    destruct (kwargs !! "osmid") as [value|]; [|done].
    destruct (Python.int_value value) as [n|]; [|injection He as <-; by eauto].
    destruct (n <? 0)%Z; [injection He as <-; by eauto|].
    destruct (2 ^ 63 <=? n)%Z; [injection He as <-; by eauto|done].
  - destruct st; [|done..]. left. eapply float_column_error_kind. by symmetry.
  - destruct st; [|done..]. left. eapply float_column_error_kind. by symmetry.
Qed.

Lemma no_overflow_OSMElement_create st kwargs :
  no_overflow (ORM.OSMElement_create st kwargs).
Proof.
  intros db. destruct (OSMElement_create_cases st kwargs db) as [(e & He & ->)|[_ ->]]; [|done].
  simpl. intros [= ->]. by destruct (save_error_kind _ _ _ He) as [[? ?]|[[? ?]|[? ?]]].
Qed.

Lemma no_overflow_NodeParser_parse node : no_overflow (NodeParser_parse node).
Proof.
  unfold NodeParser_parse.
  do 2 (apply no_overflow_bind; [apply no_overflow_attribute|]; intros ?).
  apply no_overflow_bind; [apply no_overflow_get_basic_attributes|]; intros ?.
  apply no_overflow_bind; [apply no_overflow_OSMElement_create|]; intros ?.
  apply no_overflow_bind; [apply no_overflow_parse_tags|]; intros ?.
  apply no_overflow_ret.
Qed.

Lemma no_overflow_WayParser_parse node : no_overflow (WayParser_parse node).
Proof.
  unfold WayParser_parse.
  apply no_overflow_bind; [apply no_overflow_get_basic_attributes|]; intros ?.
  apply no_overflow_bind; [apply no_overflow_OSMElement_create|]; intros ?.
  apply no_overflow_bind; [apply no_overflow_getElementsByTagName|]; intros ?.
  apply no_overflow_bind.
  { apply no_overflow_for_enumerate. intros i nd _.
    apply no_overflow_bind; [apply no_overflow_NodeParser_parse|]. by intros ? db. }
  intros ?. apply no_overflow_bind; [apply no_overflow_parse_tags|]; intros ?.
  apply no_overflow_ret.
Qed.

Lemma no_overflow_RelationParser_parse_rec depth : forall node,
  Dom.height node < depth -> no_overflow (RelationParser_parse_rec depth node).
Proof.
  induction depth as [|depth IH]; intros node Hh; [lia|]. simpl.
  apply no_overflow_bind; [apply no_overflow_get_basic_attributes|]; intros ?.
  apply no_overflow_bind; [apply no_overflow_OSMElement_create|]; intros relation.
  destruct node as [tag attrs children| |]; [|by intros db..].
  cbn [getElementsByTagName]. intros db. rewrite bind_ret_l. revert db.
  apply no_overflow_bind.
  { apply no_overflow_for_enumerate. intros i member Hm%elements_by_tagName_height.
    unfold RelationMemberParser_parse_with.
    apply no_overflow_bind; [apply no_overflow_attribute|]; intros _type.
    apply no_overflow_bind.
    - repeat case_decide;
        [apply no_overflow_NodeParser_parse|apply no_overflow_WayParser_parse| |by intros db].
      apply IH. lia.
    - intros ?. apply no_overflow_bind; [apply no_overflow_attribute|]. by intros ? db. }
  intros ?. apply no_overflow_bind; [apply no_overflow_parse_tags|]; intros ?.
  apply no_overflow_ret.
Qed.

(** The relation parser is total: it never runs out of depth. *)
Lemma no_overflow_RelationParser_parse node : no_overflow (RelationParser_parse node).
Proof. apply no_overflow_RelationParser_parse_rec. lia. Qed.

(** ** Reading an element *)

Arguments Dom.elements_by_tagName : simpl never.

Lemma attribute_Some tag attrs children name value db :
  attrs !! name = Some value ->
  attribute (Element tag attrs children) name db = (db, Ok value).
Proof. intros H. unfold attribute. simpl. by rewrite H. Qed.

Lemma attribute_None tag attrs children name db :
  attrs !! name = None ->
  attribute (Element tag attrs children) name db = (db, Raise (KeyError name)).
Proof. intros H. unfold attribute. simpl. by rewrite H. Qed.

Lemma getElementsByTagName_Element tag attrs children name db :
  getElementsByTagName (Element tag attrs children) name db
  = (db, Ok (Dom.elements_by_tagName name (Element tag attrs children))).
Proof. reflexivity. Qed.

(** ** The Change Parser *)

Lemma _get_old_new_item_None tag attrs children i db :
  head (Dom.elements_by_tagName i (Element tag attrs children)) = None ->
  ActionParser._get_old_new_item (Element tag attrs children) i db = (db, Raise no_childNodes).
Proof.
  intros H. unfold ActionParser._get_old_new_item.
  erewrite bind_ok by apply getElementsByTagName_Element. by rewrite H.
Qed.

Lemma _get_old_new_item_Some tag attrs children i wrapper db :
  head (Dom.elements_by_tagName i (Element tag attrs children)) = Some wrapper ->
  ActionParser._get_old_new_item (Element tag attrs children) i db
  = (db, Ok (List.find (fun c => negb (Dom.isText c)) (Dom.childNodes wrapper))).
Proof.
  intros H. unfold ActionParser._get_old_new_item.
  erewrite bind_ok by apply getElementsByTagName_Element. by rewrite H.
Qed.

(** C10. A change node whose kind is none of create, modify and delete
    (remove, or any other string) is parsed without error: the parser
    stores one Action row with that kind as given and with neither an old
    nor a new element, and changes nothing else. *)
Theorem C10_other_kind_recorded tag attrs children db action_type :
  attrs !! "type" = Some action_type ->
  action_type <> "create" -> action_type <> "modify" -> action_type <> "delete" ->
  exists db' pk,
    ActionParser.parse (Element tag attrs children) db = (db', Ok pk)
    /\ action_table db' !! pk = Some {| type := action_type; new := None; old := None |}
    /\ action_table db' = action_table db ++ [{| type := action_type; new := None; old := None |}]
    /\ elements db' = elements db /\ tags db' = tags db.
Proof.
  intros Htype Hc Hm Hd. eexists _, _. split.
  - unfold ActionParser.parse.
    erewrite bind_ok by (by apply attribute_Some).
    rewrite !decide_False by done. reflexivity.
  - simpl. split_and!; try done. by rewrite lookup_app_r, Nat.sub_diag.
Qed.

Lemma C10_other_kind_recorded_witness :
  exists db' pk,
    ActionParser.parse remove_action empty_db = (db', Ok pk)
    /\ action_table db' !! pk = Some {| type := "remove"; new := None; old := None |}
    /\ action_table db' = action_table empty_db ++ [{| type := "remove"; new := None; old := None |}]
    /\ elements db' = elements empty_db /\ tags db' = tags empty_db.
Proof.
  apply (C10_other_kind_recorded "action" (list_to_map [("type", "remove")]) [] empty_db "remove");
    [reflexivity|done..].
Defined.

(** C3. The claim: a modify change with neither wrapper is parsed to a
    Change with both elements absent.  The code: [_get_old_new] sets
    [tag = None] for the missing wrapper and hands it to
    [getFirstNontextChild], which reads [childNodes] of it; the parse stops
    on that AttributeError before any row is stored. *)
Theorem C3_modify_without_old_raises tag attrs children db :
  attrs !! "type" = Some "modify" ->
  Dom.elements_by_tagName "old" (Element tag attrs children) = [] ->
  ActionParser.parse (Element tag attrs children) db = (db, Raise no_childNodes).
Proof.
  intros Htype Hold. unfold ActionParser.parse.
  erewrite bind_ok by (by apply attribute_Some).
  rewrite decide_False, decide_True by done.
  erewrite bind_raise; [done|]. erewrite bind_raise; [done|].
  unfold ActionParser._get_old_new. erewrite bind_raise; [done|].
  apply _get_old_new_item_None. by rewrite Hold.
Qed.

Lemma C3_modify_without_old_raises_witness :
  ActionParser.parse modify_without_wrappers empty_db = (empty_db, Raise no_childNodes).
Proof.
  apply (C3_modify_without_old_raises "action" (list_to_map [("type", "modify")]) [] empty_db);
    reflexivity.
Defined.

(** C2.  The claim: a change of kind delete without an old wrapper is
    refused with a FileFormatError that names the wrapper, and with an old
    wrapper it is parsed to a Change with that old element and no new one.
    The code: [_get_old_new] sets [tag = None] for a wrapper that is
    missing and hands it to [getFirstNontextChild], which reads
    [childNodes] of it.  So without an old wrapper the parse stops on that
    AttributeError, and with an old wrapper but no new one it stops on it
    as well, before the old element is parsed; nothing is stored.  Only
    with both wrappers does it store the Change of kind delete with the old
    element and no new one. *)
Theorem C2_delete_old_wrapper tag attrs children db :
  attrs !! "type" = Some "delete" ->
  (Dom.elements_by_tagName "old" (Element tag attrs children) = [] ->
   ActionParser.parse (Element tag attrs children) db = (db, Raise no_childNodes))
  /\ (forall old_wrapper,
        head (Dom.elements_by_tagName "old" (Element tag attrs children)) = Some old_wrapper ->
        Dom.elements_by_tagName "new" (Element tag attrs children) = [] ->
        ActionParser.parse (Element tag attrs children) db = (db, Raise no_childNodes))
  /\ (forall old_wrapper new_wrapper db1 e,
        head (Dom.elements_by_tagName "old" (Element tag attrs children)) = Some old_wrapper ->
        head (Dom.elements_by_tagName "new" (Element tag attrs children)) = Some new_wrapper ->
        AbstractXMLParser.transform (first_nontext old_wrapper) db = (db1, Ok e) ->
        ActionParser.parse (Element tag attrs children) db
        = ORM.Action_create {| type := "delete"; new := None; old := Some e |} db1).
Proof.
  intros Htype. split_and!.
  - intros Hold. unfold ActionParser.parse.
    erewrite bind_ok by (by apply attribute_Some).
    rewrite !decide_False, decide_True by done.
    erewrite bind_raise; [done|]. erewrite bind_raise; [done|].
    unfold ActionParser._get_old_new. erewrite bind_raise; [done|].
    apply _get_old_new_item_None. by rewrite Hold.
  - intros old_wrapper Hold Hnew. unfold ActionParser.parse.
    erewrite bind_ok by (by apply attribute_Some).
    rewrite !decide_False, decide_True by done.
    erewrite bind_raise; [done|]. erewrite bind_raise; [done|].
    unfold ActionParser._get_old_new.
    erewrite bind_ok by (by apply _get_old_new_item_Some).
    erewrite bind_raise; [done|]. apply _get_old_new_item_None. by rewrite Hnew.
  - intros old_wrapper new_wrapper db1 e Hold Hnew He. unfold ActionParser.parse.
    erewrite bind_ok by (by apply attribute_Some).
    rewrite !decide_False, decide_True by done.
    erewrite bind_ok; cycle 1.
    { erewrite bind_ok; cycle 1.
      { unfold ActionParser._get_old_new.
        erewrite bind_ok by (by apply _get_old_new_item_Some).
        erewrite bind_ok by (by apply _get_old_new_item_Some). done. }
      cbn [fst]. fold (first_nontext old_wrapper). by erewrite bind_ok by exact He. }
    reflexivity.
Qed.

Lemma C2_delete_old_wrapper_witness :
  ActionParser.parse delete_without_old empty_db = (empty_db, Raise no_childNodes)
  /\ ActionParser.parse delete_old_only empty_db = (empty_db, Raise no_childNodes)
  /\ exists db', ActionParser.parse delete_old_new empty_db = (db', Ok 0)
       /\ action_table db' = [{| type := "delete"; new := None; old := Some 0 |}]
       /\ (lat <$> elements db' !! 0) = Some (Some "10").
Proof.
  split_and!.
  - pose proof (C2_delete_old_wrapper "action" (list_to_map [("type", "delete")]) []
                  empty_db eq_refl) as (H & _ & _).
    by apply H.
  - pose proof (C2_delete_old_wrapper "action" (list_to_map [("type", "delete")])
                  [el "old" [] [point "2" "10" "20"]] empty_db eq_refl) as (_ & H & _).
    by apply (H (el "old" [] [point "2" "10" "20"])).
  - pose proof (C2_delete_old_wrapper "action" (list_to_map [("type", "delete")])
                  [Text " "; el "old" [] [Text " "; point "2" "10" "20"];
                   el "new" [] [el "node" [("id", "2"); ("visible", "false")] []]]
                  empty_db eq_refl) as (_ & _ & H).
    eexists. unfold delete_old_new, el at 1.
    erewrite H; [| reflexivity | reflexivity | vm_compute; reflexivity].
    by vm_compute.
Defined.

(** ** Tags and basic attributes *)

Arguments add_tags : simpl never.

Lemma add_tags_nil db : add_tags [] db = db.
Proof. destruct db. unfold add_tags. simpl. by rewrite app_nil_r. Qed.

Lemma add_tags_app rows1 rows2 db :
  add_tags rows2 (add_tags rows1 db) = add_tags (rows1 ++ rows2) db.
Proof. unfold add_tags. simpl. by rewrite (assoc_L (++)). Qed.

Lemma add_tags_cons row rows db :
  add_tags rows (add_tags [row] db) = add_tags (row :: rows) db.
Proof. apply add_tags_app. Qed.

Lemma tag_body_run e tag_el db :
  (let* k := attribute tag_el "k" in
   let* v := attribute tag_el "v" in
   ORM.Tag_create {| element := e; k := k; v := v |}) db
  = match tag_kv tag_el with
    | Some kv => (add_tags (tag_rows e [kv]) db, Ok (length (tags db)))
    | None => (db, Raise (match Dom.attributes tag_el with
                          | None => TypeError "'NoneType' object is not subscriptable"
                          | Some attrs => KeyError (if attrs !! "k" is Some _ then "v" else "k")
                          end))
    end.
Proof.
  unfold bind, attribute, tag_kv.
  destruct (Dom.attributes tag_el) as [attrs|]; simpl; [|done].
  destruct (attrs !! "k"); simpl; [|done]. by destruct (attrs !! "v").
Qed.

Lemma for_each_tags e tag_els : forall db db' pks,
  for_each tag_els (fun tag_el =>
    let* k := attribute tag_el "k" in
    let* v := attribute tag_el "v" in
    ORM.Tag_create {| element := e; k := k; v := v |}) db = (db', Ok pks)
  <-> exists kvs, mapM tag_kv tag_els = Some kvs
        /\ db' = add_tags (tag_rows e kvs) db
        /\ pks = seq (length (tags db)) (length kvs).
Proof.
  induction tag_els as [|tag_el tag_els IH]; intros db db' pks; simpl.
  - split.
    + intros [= <- <-]. exists []. by rewrite add_tags_nil.
    + intros (kvs & [= <-] & -> & ->). by rewrite add_tags_nil.
  - unfold bind at 1. rewrite tag_body_run.
    destruct (tag_kv tag_el) as [kv|]; simpl.
    + unfold bind at 1.
      destruct (for_each tag_els _ _) as [db1 [ys|err]] eqn:Hrest.
      * apply IH in Hrest as (kvs & Hkvs & -> & ->). rewrite Hkvs. simpl.
        rewrite add_tags_cons, length_app. simpl. rewrite Nat.add_1_r. split.
        -- intros [= <- <-]. by exists (kv :: kvs).
        -- by intros (kvs' & [= <-] & -> & ->).
      * split; [done|]. intros (kvs' & Hm & -> & ->).
        destruct (mapM tag_kv tag_els) as [kvs|] eqn:Hkvs; [|done].
        exfalso.
        pose proof (proj2 (IH (add_tags [{| element := e; k := kv.1; v := kv.2 |}] db) _ _)
                      (ex_intro _ kvs (conj eq_refl (conj eq_refl eq_refl)))) as Hok.
        rewrite Hrest in Hok. discriminate.
    + split; [done|]. by intros (kvs & [=] & _).
Qed.

Lemma parse_tags_Element tag attrs children e db db' pks :
  AbstractOSMElementParser.parse_tags (Element tag attrs children) e db = (db', Ok pks)
  <-> exists kvs,
        mapM tag_kv (Dom.elements_by_tagName "tag" (Element tag attrs children)) = Some kvs
        /\ db' = add_tags (tag_rows e kvs) db
        /\ pks = seq (length (tags db)) (length kvs).
Proof.
  unfold AbstractOSMElementParser.parse_tags.
  erewrite bind_ok by apply getElementsByTagName_Element. apply for_each_tags.
Qed.

Lemma get_basic_attributes_Element tag attrs children db :
  AbstractOSMElementParser.get_basic_attributes (Element tag attrs children) db
  = (db, Ok (basic_of attrs)).
Proof.
  unfold AbstractOSMElementParser.get_basic_attributes, basic_of, osmid_of.
  simpl. unfold bind, has_attribute, attribute. simpl.
  destruct (attrs !! "id") as [value|] eqn:Hid; simpl.
  - by rewrite Hid.
  - destruct (attrs !! "ref") as [value|] eqn:Href; simpl; [|done]. by rewrite Href.
Qed.

(** The tags of a new element, when no other row points to its key. *)
Lemma element_tags_new others e kvs :
  Forall (fun t => element t <> e) others ->
  filter (fun t => element t = e) (others ++ tag_rows e kvs) = tag_rows e kvs.
Proof.
  intros Hothers. rewrite filter_app.
  replace (filter (fun t => element t = e) others) with (@nil TagRow); cycle 1.
  { induction Hothers as [|t others Ht _ IH]; [done|].
    by rewrite filter_cons_False. }
  simpl. induction kvs as [|kv kvs IH]; [done|]. simpl.
  rewrite filter_cons_True by done. by f_equal.
Qed.

Lemma tag_rows_kv e kvs : (fun t => (k t, v t)) <$> tag_rows e kvs = kvs.
Proof.
  unfold tag_rows. rewrite <- list_fmap_compose.
  induction kvs as [|[? ?] kvs IH]; simpl; [done|]. by f_equal.
Qed.

(** ** The Point parser *)

Arguments add_element : simpl never.

Lemma OSMElement_of_kwargs_node attrs la lo :
  ORM.OSMElement_of_kwargs NODE (<["lat" := la]> (<["lon" := lo]> (basic_of attrs)))
  = node_row attrs la lo.
Proof.
  unfold ORM.OSMElement_of_kwargs, node_row, basic_of.
  destruct (osmid_of attrs); by simplify_map_eq.
Qed.

Lemma OSMElement_of_kwargs_plain st attrs :
  ORM.OSMElement_of_kwargs st (basic_of attrs) = plain_row st attrs.
Proof.
  unfold ORM.OSMElement_of_kwargs, plain_row, basic_of.
  destruct (osmid_of attrs); by simplify_map_eq.
Qed.

Lemma basic_of_osmid attrs : basic_of attrs !! "osmid" = osmid_of attrs.
Proof. unfold basic_of. destruct (osmid_of attrs); by simplify_map_eq. Qed.

Lemma basic_of_other attrs key : key <> "osmid" -> basic_of attrs !! key = None.
Proof. intros Hkey. unfold basic_of. destruct (osmid_of attrs); by simplify_map_eq. Qed.

Lemma OSMElement_create_run st kwargs db :
  ORM.save_error st kwargs = None ->
  ORM.OSMElement_create st kwargs db
  = (add_element (ORM.OSMElement_of_kwargs st kwargs) db, Ok (length (elements db))).
Proof. intros H. unfold ORM.OSMElement_create. by rewrite H. Qed.

Lemma OSMElement_create_error st kwargs e db :
  ORM.save_error st kwargs = Some e ->
  ORM.OSMElement_create st kwargs db = (db, Raise e).
Proof. intros H. unfold ORM.OSMElement_create. by rewrite H. Qed.

(** A Path or a Group is saved when its identifier is. *)
Lemma save_error_plain st attrs :
  st <> NODE -> ORM.save_error st (basic_of attrs) = ORM.osmid_error (osmid_of attrs).
Proof.
  intros Hst. unfold ORM.save_error. rewrite basic_of_osmid.
  destruct st; [done|..]; simpl; by destruct (ORM.osmid_error _).
Qed.

Lemma float_error_None value : ORM.float_error value = None <-> Python.float_ok value = true.
Proof. unfold ORM.float_error. by destruct (Python.float_ok value). Qed.

(** A Point is saved when [float] reads both coordinates and the
    identifier is saved. *)
Lemma save_error_node attrs la lo :
  ORM.save_error NODE (node_kwargs attrs la lo) = None
  <-> Python.float_ok la = true /\ Python.float_ok lo = true
      /\ ORM.osmid_error (osmid_of attrs) = None.
Proof.
  unfold ORM.save_error, ORM.Node_save, ORM.float_column_error, node_kwargs.
  rewrite lookup_insert_eq, lookup_insert_ne, lookup_insert_eq by done.
  rewrite !lookup_insert_ne, basic_of_osmid by done. simpl.
  unfold ORM.float_error.
  destruct (Python.float_ok la), (Python.float_ok lo), (ORM.osmid_error (osmid_of attrs));
    simpl; repeat case_match; intuition congruence.
Qed.

Lemma NodeParser_parse_no_lat tag attrs children db :
  attrs !! "lat" = None ->
  NodeParser_parse (Element tag attrs children) db = (db, Raise (KeyError "lat")).
Proof.
  intros H. unfold NodeParser_parse. by erewrite bind_raise by (by apply attribute_None).
Qed.

Lemma NodeParser_parse_no_lon tag attrs children db la :
  attrs !! "lat" = Some la -> attrs !! "lon" = None ->
  NodeParser_parse (Element tag attrs children) db = (db, Raise (KeyError "lon")).
Proof.
  intros Hla Hlo. unfold NodeParser_parse.
  erewrite bind_ok by (by apply attribute_Some).
  by erewrite bind_raise by (by apply attribute_None).
Qed.

(** A Point whose values [save] refuses: the error of [save], and nothing
    stored. *)
Lemma NodeParser_parse_save_error tag attrs children db la lo e :
  attrs !! "lat" = Some la -> attrs !! "lon" = Some lo ->
  ORM.save_error NODE (node_kwargs attrs la lo) = Some e ->
  NodeParser_parse (Element tag attrs children) db = (db, Raise e).
Proof.
  intros Hla Hlo He. unfold NodeParser_parse.
  erewrite bind_ok by (by apply attribute_Some).
  erewrite bind_ok by (by apply attribute_Some).
  erewrite bind_ok by apply get_basic_attributes_Element.
  by erewrite bind_raise by (by apply OSMElement_create_error).
Qed.

(** A Point parse that returns: what it read and what it stored. *)
Lemma NodeParser_parse_ok tag attrs children db db' pk :
  NodeParser_parse (Element tag attrs children) db = (db', Ok pk)
  <-> exists la lo kvs,
        attrs !! "lat" = Some la /\ attrs !! "lon" = Some lo
        /\ ORM.save_error NODE (node_kwargs attrs la lo) = None
        /\ mapM tag_kv (Dom.elements_by_tagName "tag" (Element tag attrs children)) = Some kvs
        /\ pk = length (elements db)
        /\ db' = add_tags (tag_rows pk kvs) (add_element (node_row attrs la lo) db).
Proof.
  destruct (attrs !! "lat") as [la|] eqn:Hla; cycle 1.
  { rewrite NodeParser_parse_no_lat by done. split; [done|]. by intros (? & ? & ? & [=] & _). }
  destruct (attrs !! "lon") as [lo|] eqn:Hlo; cycle 1.
  { erewrite NodeParser_parse_no_lon by done. split; [done|].
    by intros (? & ? & ? & _ & [=] & _). }
  destruct (ORM.save_error NODE (node_kwargs attrs la lo)) as [e|] eqn:Hsave.
  { erewrite NodeParser_parse_save_error by done. split; [done|].
    intros (la' & lo' & ? & [= <-] & [= <-] & Hsave' & _). congruence. }
  unfold NodeParser_parse.
  erewrite bind_ok by (by apply attribute_Some).
  erewrite bind_ok by (by apply attribute_Some).
  erewrite bind_ok by apply get_basic_attributes_Element.
  erewrite bind_ok by (by apply OSMElement_create_run).
  rewrite OSMElement_of_kwargs_node. unfold bind at 1.
  destruct (AbstractOSMElementParser.parse_tags _ _ _) as [db1 [pks|err]] eqn:Htags.
  - apply parse_tags_Element in Htags as (kvs & Hkvs & -> & _). simpl. split.
    + intros [= <- <-]. by exists la, lo, kvs.
    + intros (la' & lo' & kvs' & [= <-] & [= <-] & _ & Hkvs' & -> & ->).
      rewrite Hkvs in Hkvs'. by injection Hkvs' as <-.
  - split; [done|]. intros (la' & lo' & kvs' & [= <-] & [= <-] & _ & Hkvs' & -> & ->).
    exfalso.
    pose proof (proj2 (parse_tags_Element tag attrs children (length (elements db))
                         (add_element (node_row attrs la lo) db) _ _)
                  (ex_intro _ kvs' (conj Hkvs' (conj eq_refl eq_refl)))) as Hok.
    rewrite Htags in Hok. discriminate.
Qed.

Lemma elements_add_tags rows db : elements (add_tags rows db) = elements db.
Proof. reflexivity. Qed.

Lemma tags_wf_fresh db :
  tags_wf db -> Forall (fun t => element t <> length (elements db)) (tags db).
Proof. intros Hwf. eapply Forall_impl; [exact Hwf|]. simpl. intros t. lia. Qed.

(** C7 as stated fails: a Point node without coordinates is rejected. *)
Lemma C7_counterexample :
  NodeParser_parse (el "node" [("id", "1")] []) empty_db = (empty_db, Raise (KeyError "lat"))
  /\ NodeParser_parse (el "nd" [("ref", "1"); ("lat", "10")] []) empty_db
     = (empty_db, Raise (KeyError "lon")).
Proof. split; by vm_compute. Qed.

(** C7, amended.  A node parsed as a Point needs both coordinates: without
    a latitude the parse stops on [KeyError lat], with a latitude but no
    longitude on [KeyError lon], and nothing is stored.  With both, the
    values must be such that the row can be saved: when a coordinate is
    not a number that [float] reads, the parse stops on the ValueError of
    the conversion, and whatever error [save] raises is the error of the
    parse, with nothing stored.  When [float] reads both coordinates, the
    identifier, if any, is an integer from 0 to 2^63 - 1, and every tag
    element below the node carries a key and a value, the parse returns a
    Point whose row holds the two coordinates and the identifier ([id], else
    [ref], else none), every other column at its default, and whose tags are
    the parsed tags. *)
Theorem C7_point_coordinates tag attrs children db :
  (attrs !! "lat" = None ->
   NodeParser_parse (Element tag attrs children) db = (db, Raise (KeyError "lat")))
  /\ (forall la, attrs !! "lat" = Some la -> attrs !! "lon" = None ->
      NodeParser_parse (Element tag attrs children) db = (db, Raise (KeyError "lon")))
  /\ (forall la lo,
        attrs !! "lat" = Some la -> attrs !! "lon" = Some lo ->
        la <> "" -> lo <> "" -> Python.float_ok la = false ->
        NodeParser_parse (Element tag attrs children) db
        = (db, Raise (ValueError ("could not convert string to float: " +:+ Python.repr la))))
  /\ (forall la lo e,
        attrs !! "lat" = Some la -> attrs !! "lon" = Some lo ->
        ORM.save_error NODE (node_kwargs attrs la lo) = Some e ->
        NodeParser_parse (Element tag attrs children) db = (db, Raise e))
  /\ (forall la lo kvs,
        attrs !! "lat" = Some la -> attrs !! "lon" = Some lo ->
        Python.float_ok la = true -> Python.float_ok lo = true ->
        ORM.osmid_error (osmid_of attrs) = None ->
        mapM tag_kv (Dom.elements_by_tagName "tag" (Element tag attrs children)) = Some kvs ->
        tags_wf db ->
        exists db' pk,
          NodeParser_parse (Element tag attrs children) db = (db', Ok pk)
          /\ elements db' !! pk = Some (node_row attrs la lo)
          /\ ORM.element_tags db' pk = kvs).
Proof.
  split_and!.
  - apply NodeParser_parse_no_lat.
  - intros la. apply NodeParser_parse_no_lon.
  - intros la lo Hla Hlo Hla' Hlo' Hfloat.
    eapply NodeParser_parse_save_error; [done..|].
    unfold ORM.save_error, ORM.Node_save, node_kwargs.
    rewrite lookup_insert_eq, lookup_insert_ne, lookup_insert_eq by done.
    rewrite !bool_decide_eq_true_2 by done. simpl.
    unfold ORM.float_error. by rewrite Hfloat.
  - intros la lo e. apply NodeParser_parse_save_error.
  - intros la lo kvs Hla Hlo Hfla Hflo Hid Hkvs Hwf. eexists _, _. split_and!.
    + apply NodeParser_parse_ok. exists la, lo, kvs. split_and!; try done.
      by apply save_error_node.
    + rewrite elements_add_tags. unfold add_element. simpl.
      by rewrite lookup_app_r, Nat.sub_diag.
    + unfold ORM.element_tags, add_tags, add_element. simpl.
      rewrite element_tags_new by (by apply tags_wf_fresh). apply tag_rows_kv.
Qed.

Lemma C7_point_coordinates_witness :
  NodeParser_parse (el "node" [("id", "1")] []) empty_db = (empty_db, Raise (KeyError "lat"))
  /\ NodeParser_parse (el "node" [("id", "1"); ("lat", "north"); ("lon", "20")] []) empty_db
     = (empty_db, Raise (ValueError "could not convert string to float: 'north'"))
  /\ exists db' pk,
       NodeParser_parse
         (el "node" [("id", "1"); ("lat", "10"); ("lon", "20")]
            [el "tag" [("k", "highway"); ("v", "primary")] []]) empty_db = (db', Ok pk)
       /\ elements db' !! pk = Some (node_row (list_to_map [("id", "1"); ("lat", "10"); ("lon", "20")]) "10" "20")
       /\ ORM.element_tags db' pk = [("highway", "primary")].
Proof.
  split; [|split].
  - apply (C7_point_coordinates "node" (list_to_map [("id", "1")]) [] empty_db). reflexivity.
  - apply (proj1 (proj2 (proj2 (C7_point_coordinates "node"
                   (list_to_map [("id", "1"); ("lat", "north"); ("lon", "20")]) [] empty_db)))
             "north" "20"); done.
  - apply (C7_point_coordinates "node"
             (list_to_map [("id", "1"); ("lat", "10"); ("lon", "20")])
             [el "tag" [("k", "highway"); ("v", "primary")] []] empty_db);
      [reflexivity|reflexivity|reflexivity|reflexivity|reflexivity|reflexivity|constructor].
Defined.

(** ** The Member Reference Parser *)

(** The chain of tests on the member's type picks the registered parser. *)
Lemma RelationMemberParser_parse_registered tag attrs children relation order db _type klass :
  attrs !! "type" = Some _type ->
  AbstractXMLParser.PARSER_MAP !! _type = Some klass ->
  RelationMemberParser_parse (Element tag attrs children) relation order db
  = (let* element := klass (Element tag attrs children) in
     let* role := attribute (Element tag attrs children) "role" in
     ORM.RelationMember_create
       {| relation := relation; rm_element := element; order := order; role := role |}) db.
Proof.
  intros Htype Hklass. unfold RelationMemberParser_parse, RelationMemberParser_parse_with.
  erewrite bind_ok by (by apply attribute_Some).
  apply PARSER_MAP_lookup in Hklass as [[-> ->]|[[-> ->]|[-> ->]]].
  - by rewrite decide_True by done.
  - by rewrite decide_False, decide_True by done.
  - by rewrite !decide_False, decide_True by done.
Qed.

(** C9 as stated fails: a member without a role attribute is rejected, no
    member with an empty role is returned. *)
Lemma C9_counterexample :
  (RelationMemberParser_parse member_without_role 0 0 empty_db).2 = Raise (KeyError "role").
Proof. by vm_compute. Qed.

(** C9, amended.  A member node without a role attribute is never parsed
    to a member: once its element is parsed, reading the role raises
    [KeyError role].  With a role attribute, and when the parser registered
    for the member's type parses the node to an element, the stored member
    has that element, the role attribute's value as role, and the index the
    caller supplied as order. *)
Theorem C9_member_role_and_order tag attrs children relation order db :
  (attrs !! "role" = None ->
   forall pk, (RelationMemberParser_parse (Element tag attrs children) relation order db).2 <> Ok pk)
  /\ (forall _type klass db1 element,
        attrs !! "role" = None ->
        attrs !! "type" = Some _type ->
        AbstractXMLParser.PARSER_MAP !! _type = Some klass ->
        klass (Element tag attrs children) db = (db1, Ok element) ->
        RelationMemberParser_parse (Element tag attrs children) relation order db
        = (db1, Raise (KeyError "role")))
  /\ (forall value _type klass db1 element,
        attrs !! "role" = Some value ->
        attrs !! "type" = Some _type ->
        AbstractXMLParser.PARSER_MAP !! _type = Some klass ->
        klass (Element tag attrs children) db = (db1, Ok element) ->
        exists db' pk,
          RelationMemberParser_parse (Element tag attrs children) relation order db = (db', Ok pk)
          /\ members db' !! pk
             = Some {| relation := relation; rm_element := element;
                       order := order; role := value |}).
Proof.
  split_and!.
  - intros Hrole pk Hok.
    destruct (RelationMemberParser_parse _ _ _ _) as [db' r] eqn:H. simpl in Hok. subst r.
    unfold RelationMemberParser_parse, RelationMemberParser_parse_with in H.
    bind_inv H. bind_inv H. bind_inv H.
    rewrite attribute_None in Hrun1 by done. discriminate.
  - intros _type klass db1 element Hrole Htype Hklass Hel.
    erewrite RelationMemberParser_parse_registered by done.
    erewrite bind_ok by exact Hel.
    by erewrite bind_raise by (by apply attribute_None).
  - intros value _type klass db1 element Hrole Htype Hklass Hel.
    erewrite RelationMemberParser_parse_registered by done.
    erewrite bind_ok by exact Hel.
    erewrite bind_ok by (by apply attribute_Some).
    eexists _, _. split; [reflexivity|]. simpl.
    by rewrite lookup_app_r, Nat.sub_diag.
Qed.

Lemma C9_member_role_and_order_witness :
  RelationMemberParser_parse member_without_role 3 7 empty_db
  = (add_element (node_row (list_to_map [("type", "node"); ("ref", "5"); ("lat", "10"); ("lon", "20")]) "10" "20") empty_db,
     Raise (KeyError "role"))
  /\ exists db' pk,
       RelationMemberParser_parse member_with_role 3 7 empty_db = (db', Ok pk)
       /\ members db' !! pk = Some {| relation := 3; rm_element := 0; order := 7; role := "stop" |}.
Proof.
  split.
  - apply (C9_member_role_and_order "member"
             (list_to_map [("type", "node"); ("ref", "5"); ("lat", "10"); ("lon", "20")])
             [] 3 7 empty_db) with (_type := "node") (klass := NodeParser_parse) (element := 0);
      reflexivity.
  - apply (C9_member_role_and_order "member"
             (list_to_map [("type", "node"); ("ref", "5"); ("role", "stop"); ("lat", "10"); ("lon", "20")])
             [] 3 7 empty_db) with (_type := "node") (klass := NodeParser_parse)
             (db1 := add_element (node_row (list_to_map [("type", "node"); ("ref", "5"); ("role", "stop"); ("lat", "10"); ("lon", "20")]) "10" "20") empty_db);
      reflexivity.
Defined.

(** ** The tags of a parsed element *)

Lemma keeps_run {A : Type} n (m : M A) Q db db' r :
  keeps n m Q -> n <= length (elements db) -> m db = (db', r) -> grows n db db'.
Proof. intros Hk Hn Hm. destruct (Hk db Hn) as [Hg _]. by rewrite Hm in Hg. Qed.

(** An element's own tags are stored last; what its parse stored before
    belongs to later elements. *)
Lemma element_tags_own db1 db2 e kvs :
  Forall (fun t => element t <> e) (tags db1) ->
  grows (S e) db1 db2 ->
  ORM.element_tags (add_tags (tag_rows e kvs) db2) e = kvs.
Proof.
  intros Hold [_ (new & Hnew & Hfresh) _ _ _].
  unfold ORM.element_tags, add_tags. simpl. rewrite Hnew.
  rewrite element_tags_new; [apply tag_rows_kv|].
  apply Forall_app. split; [done|].
  eapply Forall_impl; [exact Hfresh|]. simpl. intros t. lia.
Qed.

Lemma tags_add_element row db : tags (add_element row db) = tags db.
Proof. reflexivity. Qed.

Lemma length_elements_add_element row db :
  length (elements (add_element row db)) = S (length (elements db)).
Proof. unfold add_element. simpl. rewrite length_app. simpl. lia. Qed.

Lemma WayParser_parse_tags tag attrs children db db' w :
  tags_wf db ->
  WayParser_parse (Element tag attrs children) db = (db', Ok w) ->
  mapM tag_kv (Dom.elements_by_tagName "tag" (Element tag attrs children))
  = Some (ORM.element_tags db' w).
Proof.
  intros Hwf H. unfold WayParser_parse in H.
  erewrite bind_ok in H by apply get_basic_attributes_Element.
  create_ok H.
  erewrite bind_ok in H by apply getElementsByTagName_Element.
  bind_inv H. bind_inv H. injection H as <- <-.
  apply parse_tags_Element in Hrun0 as (kvs & Hkvs & -> & _).
  rewrite Hkvs. f_equal. symmetry.
  apply element_tags_own with (db1 := add_element (ORM.OSMElement_of_kwargs WAY (basic_of attrs)) db).
  - rewrite tags_add_element. by apply tags_wf_fresh.
  - eapply keeps_run; [|by rewrite length_elements_add_element|exact Hrun].
    apply keeps_for_enumerate. intros i nd _.
    eapply keeps_bind; [apply keeps_NodeParser_parse|]. intros pk _.
    apply keeps_WayNode_create.
Qed.

Lemma RelationParser_parse_tags tag attrs children db db' r :
  tags_wf db ->
  RelationParser_parse (Element tag attrs children) db = (db', Ok r) ->
  mapM tag_kv (Dom.elements_by_tagName "tag" (Element tag attrs children))
  = Some (ORM.element_tags db' r).
Proof.
  intros Hwf H. rewrite RelationParser_parse_unfold in H.
  erewrite bind_ok in H by apply get_basic_attributes_Element.
  create_ok H.
  erewrite bind_ok in H by apply getElementsByTagName_Element.
  bind_inv H. bind_inv H. injection H as <- <-.
  apply parse_tags_Element in Hrun0 as (kvs & Hkvs & -> & _).
  rewrite Hkvs. f_equal. symmetry.
  apply element_tags_own with (db1 := add_element (ORM.OSMElement_of_kwargs RELATION (basic_of attrs)) db).
  - rewrite tags_add_element. by apply tags_wf_fresh.
  - eapply keeps_run; [|by rewrite length_elements_add_element|exact Hrun].
    apply keeps_for_enumerate. intros i member _.
    apply keeps_RelationMemberParser_parse_with, keeps_RelationParser_parse.
Qed.

Lemma NodeParser_parse_tags tag attrs children db db' pk :
  tags_wf db ->
  NodeParser_parse (Element tag attrs children) db = (db', Ok pk) ->
  mapM tag_kv (Dom.elements_by_tagName "tag" (Element tag attrs children))
  = Some (ORM.element_tags db' pk).
Proof.
  intros Hwf (la & lo & kvs & _ & _ & _ & Hkvs & -> & ->)%NodeParser_parse_ok.
  rewrite Hkvs. f_equal. symmetry. eapply element_tags_own; [|apply grows_refl].
  rewrite tags_add_element. by apply tags_wf_fresh.
Qed.

(** C8 as stated fails: the tag of the nested position is stored for the
    Path too, which has two tag children and gets three tags. *)
Lemma C8_counterexample :
  (WayParser_parse way_with_tagged_nd empty_db).2 = Ok 0
  /\ ORM.element_tags (WayParser_parse way_with_tagged_nd empty_db).1 0
     = [("name", "stop"); ("highway", "primary"); ("highway", "primary")]
  /\ tag_kv <$> Dom.children_by_tagName "tag" way_with_tagged_nd
     = [Some ("highway", "primary"); Some ("highway", "primary")].
Proof. split_and!; by vm_compute. Qed.

(** C8, amended.  For every element a registered parser (Point, Path or
    Group) returns, the element's tag sequence holds exactly one tag per
    tag element found anywhere below the element's node, its nested
    elements included, in document order, each with the key and value of
    its tag element; nothing is filtered and equal keys are kept. *)
Theorem C8_tags_in_document_order name klass tag attrs children db db' e :
  AbstractXMLParser.PARSER_MAP !! name = Some klass ->
  tags_wf db ->
  klass (Element tag attrs children) db = (db', Ok e) ->
  mapM tag_kv (Dom.elements_by_tagName "tag" (Element tag attrs children))
  = Some (ORM.element_tags db' e).
Proof.
  intros [[_ ->]|[[_ ->]|[_ ->]]]%PARSER_MAP_lookup Hwf H.
  - by eapply NodeParser_parse_tags.
  - by eapply WayParser_parse_tags.
  - by eapply RelationParser_parse_tags.
Qed.

Lemma C8_tags_in_document_order_witness :
  mapM tag_kv (Dom.elements_by_tagName "tag" way_with_tagged_nd)
  = Some (ORM.element_tags (WayParser_parse way_with_tagged_nd empty_db).1 0).
Proof.
  apply (C8_tags_in_document_order "way" WayParser_parse "way" (list_to_map [("id", "7")])
           [el "nd" [("ref", "1"); ("lat", "10"); ("lon", "20")]
              [el "tag" [("k", "name"); ("v", "stop")] []];
            el "tag" [("k", "highway"); ("v", "primary")] [];
            el "tag" [("k", "highway"); ("v", "primary")] []] empty_db);
    [reflexivity|constructor|by vm_compute].
Defined.

(** ** The Path parser *)

Arguments add_waynode : simpl never.

Lemma NodeParser_parse_content nd db c :
  node_content nd = Some c ->
  NodeParser_parse nd db
  = (add_tags (tag_rows (length (elements db)) c.2) (add_element c.1 db),
     Ok (length (elements db))).
Proof.
  destruct nd as [tag attrs children| |]; [|done..]. unfold node_content. simpl.
  destruct (attrs !! "lat") as [la|] eqn:Hla; [|done]. simpl.
  destruct (attrs !! "lon") as [lo|] eqn:Hlo; [|done]. simpl.
  destruct (ORM.save_error NODE _) as [e|] eqn:Hsave; [done|].
  destruct (mapM tag_kv _) as [kvs|] eqn:Hkvs; [|done]. simpl. intros [= <-].
  apply NodeParser_parse_ok. by exists la, lo, kvs.
Qed.

Lemma tags_wf_node row kvs db :
  tags_wf db ->
  tags_wf (add_tags (tag_rows (length (elements db)) kvs) (add_element row db)).
Proof.
  unfold tags_wf, add_tags, add_element. simpl. intros Hwf.
  rewrite length_app. simpl. apply Forall_app. split.
  - eapply Forall_impl; [exact Hwf|]. simpl. intros t. lia.
  - unfold tag_rows. apply Forall_fmap, Forall_true. simpl. intros _. lia.
Qed.

Lemma grows_node n row kvs db :
  n <= length (elements db) ->
  grows n db (add_tags (tag_rows (length (elements db)) kvs) (add_element row db)).
Proof.
  intros Hn. split; simpl; try done.
  - by apply prefix_app_r.
  - eexists. split; [done|]. unfold tag_rows. by apply Forall_fmap, Forall_true.
Qed.

Lemma grows_add_waynode n row db : grows n db (add_waynode row db).
Proof. split; simpl; try done. exists []. by rewrite app_nil_r. Qed.

Lemma grows_lookup n db db' pk row :
  grows n db db' -> elements db !! pk = Some row -> elements db' !! pk = Some row.
Proof. intros [He _ _ _ _] Hrow. by eapply prefix_lookup_Some. Qed.

Lemma grows_element_tags n db db' pk :
  grows n db db' -> pk < n -> ORM.element_tags db' pk = ORM.element_tags db pk.
Proof.
  intros [_ (new & Htags & Hnew) _ _ _] Hpk. unfold ORM.element_tags.
  rewrite Htags, filter_app.
  replace (filter (fun t => element t = pk) new) with (@nil TagRow);
    [by rewrite app_nil_r|].
  clear Htags. induction Hnew as [|t new Ht _ IH]; [done|].
  rewrite filter_cons_False by lia. done.
Qed.

(** The loop of [WayParser.parse] over the positions: each is parsed as a
    Point and linked to the way under the running index. *)
Lemma way_loop w nds : forall index db1 contents,
  mapM node_content nds = Some contents ->
  tags_wf db1 ->
  exists db2 pks,
    for_enumerate nds index (fun index nd =>
      let* node_pk := NodeParser_parse nd in
      ORM.WayNode_create {| way := w; node := node_pk; wn_order := index |}) db1
    = (db2, Ok tt)
    /\ tags_wf db2
    /\ grows (length (elements db1)) db1 db2
    /\ waynodes db2
       = waynodes db1 ++ imap (fun j pk => {| way := w; node := pk; wn_order := index + j |}) pks
    /\ Forall (fun pk => length (elements db1) <= pk) pks
    /\ Forall2 (fun pk c => elements db2 !! pk = Some c.1 /\ ORM.element_tags db2 pk = c.2)
         pks contents.
Proof.
  induction nds as [|nd nds IH]; intros index db1 contents Hc Hwf; simpl in *.
  - injection Hc as <-. exists db1, []. split_and!; try done.
    + apply grows_refl.
    + by rewrite app_nil_r.
  - destruct (node_content nd) as [c|] eqn:Hnd; [|done]. simpl in Hc.
    destruct (mapM node_content nds) as [cs|] eqn:Hcs; [|done]. injection Hc as <-.
    set (pk := length (elements db1)).
    set (dbA := add_tags (tag_rows pk c.2) (add_element c.1 db1)).
    set (row := {| way := w; node := pk; wn_order := index |}).
    assert (tags_wf (add_waynode row dbA)) as HwfB by (by apply tags_wf_node).
    destruct (IH (S index) (add_waynode row dbA) cs eq_refl HwfB)
      as (db2 & pks & Hloop & Hwf2 & Hg & Hwn & Hge & Hall).
    assert (length (elements (add_waynode row dbA)) = S pk) as HlenB
      by apply length_elements_add_element.
    rewrite HlenB in Hg, Hge.
    exists db2, (pk :: pks). split_and!.
    + erewrite bind_ok; [exact Hloop|].
      erewrite bind_ok by (by apply NodeParser_parse_content). reflexivity.
    + done.
    + eapply grows_trans; [|eapply grows_weaken; [|exact Hg]; lia].
      eapply grows_trans; [by apply grows_node|apply grows_add_waynode].
    + rewrite Hwn. unfold add_waynode at 1. simpl. rewrite <- (assoc_L (++)). simpl.
      rewrite Nat.add_0_r. do 2 f_equal. apply imap_ext. intros j pk' _. simpl.
      f_equal. lia.
    + constructor; [done|]. eapply Forall_impl; [exact Hge|]. simpl. lia.
    + constructor; [|done]. split.
      * eapply grows_lookup; [exact Hg|]. unfold add_waynode, dbA, add_tags, add_element.
        simpl. by rewrite lookup_app_r, Nat.sub_diag.
      * rewrite (grows_element_tags _ _ _ _ Hg) by lia.
        change (ORM.element_tags (add_waynode row dbA) pk) with (ORM.element_tags dbA pk).
        eapply element_tags_own; [|apply grows_refl].
        rewrite tags_add_element. by apply tags_wf_fresh.
Qed.

Lemma way_nodes_imap w old pks : forall index,
  Forall (fun r => way r <> w) old ->
  (fun r => (node r, wn_order r)) <$>
    filter (fun r => way r = w)
      (old ++ imap (fun j pk => {| way := w; node := pk; wn_order := index + j |}) pks)
  = imap (fun j pk => (pk, index + j)) pks.
Proof.
  intros index Hold. rewrite filter_app.
  replace (filter (fun r => way r = w) old) with (@nil WayNode); cycle 1.
  { induction Hold as [|r old Hr _ IH]; [done|]. by rewrite filter_cons_False. }
  simpl. revert index. induction pks as [|pk pks IH]; intros index; [done|].
  simpl. rewrite filter_cons_True by done. simpl. f_equal.
  rewrite (imap_ext _ (fun j pk0 => {| way := w; node := pk0; wn_order := S index + j |}))
    by (intros; simpl; f_equal; lia).
  rewrite (imap_ext ((fun j pk0 => (pk0, index + j)) ∘ S) (fun j pk0 => (pk0, S index + j)))
    by (intros; simpl; f_equal; lia).
  apply IH.
Qed.

Lemma element_tags_other e kvs db pk :
  pk <> e -> ORM.element_tags (add_tags (tag_rows e kvs) db) pk = ORM.element_tags db pk.
Proof.
  intros Hpk. unfold ORM.element_tags, add_tags. simpl. rewrite filter_app.
  replace (filter (fun t => element t = pk) (tag_rows e kvs)) with (@nil TagRow);
    [by rewrite app_nil_r|].
  induction kvs as [|kv kvs IH]; [done|]. simpl.
  rewrite filter_cons_False by (simpl; congruence). done.
Qed.

(** C5 as stated fails: a position nested in a position is a position of
    the Path as well, so a Path with one position child gets two positions;
    a Path whose position is a bare reference is not parsed at all; nor is
    one whose position has a coordinate that is no number. *)
Lemma C5_counterexample :
  (WayParser_parse way_with_nested_nd empty_db).2 = Ok 0
  /\ ORM.way_nodes (WayParser_parse way_with_nested_nd empty_db).1 0 = [(1, 0); (2, 1)]
  /\ length (Dom.children_by_tagName "nd" way_with_nested_nd) = 1
  /\ (WayParser_parse way_with_bare_nd empty_db).2 = Raise (KeyError "lat")
  /\ (WayParser_parse way_with_named_nd empty_db).2
     = Raise (ValueError "could not convert string to float: 'north'").
Proof. split_and!; by vm_compute. Qed.

(** C5, amended.  Take a Path node whose identifier, if any, is an integer
    from 0 to 2^63 - 1, whose position elements, found anywhere below it in
    document order, are p1..pn, each of them a node that the Point parser
    parses (it has a latitude and a longitude that [float] reads and an
    identifier as above, and its tag elements carry key and value), and
    whose tag elements all carry a key and a value.
    [WayParser.parse] returns a Path whose position sequence is exactly
    [(e1,0), (e2,1), ..., (en,n-1)], where [ei] is the Point parsed from
    [pi]: its row and its tags are those of [pi].  The index counts the
    positions from 0 and is not read from the input. *)
Theorem C5_positions_in_document_order tag attrs children db contents kvs :
  tags_wf db -> waynodes_wf db ->
  ORM.osmid_error (osmid_of attrs) = None ->
  mapM node_content (Dom.elements_by_tagName "nd" (Element tag attrs children)) = Some contents ->
  mapM tag_kv (Dom.elements_by_tagName "tag" (Element tag attrs children)) = Some kvs ->
  exists db' w pks,
    WayParser_parse (Element tag attrs children) db = (db', Ok w)
    /\ ORM.way_nodes db' w = imap (fun i pk => (pk, i)) pks
    /\ Forall2 (fun pk c => elements db' !! pk = Some c.1 /\ ORM.element_tags db' pk = c.2)
         pks contents.
Proof.
  intros Hwf Hwn Hid Hnds Htags.
  set (w := length (elements db)).
  set (db1 := add_element (ORM.OSMElement_of_kwargs WAY (basic_of attrs)) db).
  assert (tags_wf db1) as Hwf1.
  { unfold tags_wf, db1. rewrite length_elements_add_element, tags_add_element.
    eapply Forall_impl; [exact Hwf|]. simpl. intros t. lia. }
  destruct (way_loop w _ 0 db1 contents Hnds Hwf1)
    as (db2 & pks & Hloop & Hwf2 & Hg & Hrows & Hge & Hall).
  exists (add_tags (tag_rows w kvs) db2), w, pks. split_and!.
  - unfold WayParser_parse.
    erewrite bind_ok by apply get_basic_attributes_Element.
    erewrite bind_ok by (apply OSMElement_create_run; by rewrite save_error_plain).
    erewrite bind_ok by apply getElementsByTagName_Element.
    erewrite bind_ok by exact Hloop.
    erewrite bind_ok; [reflexivity|].
    apply parse_tags_Element. by exists kvs.
  - unfold ORM.way_nodes. change (waynodes (add_tags (tag_rows w kvs) db2)) with (waynodes db2).
    rewrite Hrows. change (waynodes db1) with (waynodes db).
    apply (way_nodes_imap w (waynodes db) pks 0).
    eapply Forall_impl; [exact Hwn|]. simpl. intros r. unfold w. lia.
  - unfold db1 in Hge. rewrite length_elements_add_element in Hge.
    clear Hloop Hrows Hnds. induction Hall as [|pk c pks cs [Hrow Hkvs] _ IH]; [done|].
    apply Forall_cons in Hge as [Hpk Hge]. constructor; [|by apply IH].
    rewrite elements_add_tags. split; [done|].
    rewrite element_tags_other; [done|]. unfold w. lia.
Qed.

Lemma C5_positions_in_document_order_witness :
  exists db' w pks,
    WayParser_parse way_with_two_nd empty_db = (db', Ok w)
    /\ ORM.way_nodes db' w = imap (fun i pk => (pk, i)) pks
    /\ Forall2 (fun pk c => elements db' !! pk = Some c.1 /\ ORM.element_tags db' pk = c.2)
         pks
         [(node_row (list_to_map [("ref", "1"); ("lat", "10"); ("lon", "20")]) "10" "20", []);
          (node_row (list_to_map [("ref", "2"); ("lat", "11"); ("lon", "21")]) "11" "21", [])].
Proof.
  apply (C5_positions_in_document_order "way" (list_to_map [("id", "7")])
           [el "nd" [("ref", "1"); ("lat", "10"); ("lon", "20")] [];
            el "nd" [("ref", "2"); ("lat", "11"); ("lon", "21")] [];
            el "tag" [("k", "highway"); ("v", "primary")] []]
           empty_db _ [("highway", "primary")]);
    [constructor|constructor|reflexivity|reflexivity|reflexivity].
Defined.

(** ** Bounds *)

(** Every registered parser starts by storing the element's row, and what
    it does afterwards only grows the tables. *)
Lemma registered_parse_row name klass tag attrs children db db' e :
  AbstractXMLParser.PARSER_MAP !! name = Some klass ->
  klass (Element tag attrs children) db = (db', Ok e) ->
  exists st kwargs,
    elements db' !! e = Some (ORM.OSMElement_of_kwargs st kwargs)
    /\ grows 0 db db'.
Proof.
  intros Hklass H.
  assert (grows 0 db db') as Hg.
  { eapply keeps_run; [by eapply keeps_registered|lia|exact H]. }
  apply PARSER_MAP_lookup in Hklass as [[_ ->]|[[_ ->]|[_ ->]]].
  - apply NodeParser_parse_ok in H as (la & lo & kvs & _ & _ & _ & _ & -> & ->).
    exists NODE, (<["lat" := la]> (<["lon" := lo]> (basic_of attrs))).
    split; [|done]. rewrite OSMElement_of_kwargs_node, elements_add_tags.
    unfold add_element. simpl. by rewrite lookup_app_r, Nat.sub_diag.
  - unfold WayParser_parse in H.
    erewrite bind_ok in H by apply get_basic_attributes_Element.
    create_ok H.
    assert (grows 0 (add_element (ORM.OSMElement_of_kwargs WAY (basic_of attrs)) db) db') as Hg1.
    { destruct (bind _ _ _) as [db1 r] eqn:Hrest in H. injection H as -> ->.
      eapply (keeps_run 0 _ (fun _ => True)); [|lia|exact Hrest].
      eapply keeps_bind; [apply pure_keeps; auto with parsers|]; intros nds _.
      eapply keeps_bind.
      { apply keeps_for_enumerate. intros i nd _.
        eapply keeps_bind; [apply keeps_NodeParser_parse|]. intros pk _.
        apply keeps_WayNode_create. }
      intros _ _. eapply keeps_bind; [apply keeps_parse_tags; lia|]. intros _ _.
      by apply keeps_ret. }
    bind_inv H. bind_inv H. bind_inv H. injection H as <- <-.
    exists WAY, (basic_of attrs). split; [|done].
    eapply grows_lookup; [exact Hg1|]. unfold add_element. simpl.
    by rewrite lookup_app_r, Nat.sub_diag.
  - rewrite RelationParser_parse_unfold in H.
    erewrite bind_ok in H by apply get_basic_attributes_Element.
    create_ok H.
    assert (grows 0 (add_element (ORM.OSMElement_of_kwargs RELATION (basic_of attrs)) db) db') as Hg1.
    { destruct (bind _ _ _) as [db1 r] eqn:Hrest in H. injection H as -> ->.
      eapply (keeps_run 0 _ (fun _ => True)); [|lia|exact Hrest].
      eapply keeps_bind; [apply pure_keeps; auto with parsers|]; intros member_els _.
      eapply keeps_bind.
      { apply keeps_for_enumerate. intros i member _.
        apply keeps_RelationMemberParser_parse_with, keeps_RelationParser_parse. }
      intros _ _. eapply keeps_bind; [apply keeps_parse_tags; lia|]. intros _ _.
      by apply keeps_ret. }
    bind_inv H. bind_inv H. bind_inv H. injection H as <- <-.
    exists RELATION, (basic_of attrs). split; [|done].
    eapply grows_lookup; [exact Hg1|]. unfold add_element. simpl.
    by rewrite lookup_app_r, Nat.sub_diag.
Qed.

(** [parse_bounds] on a node with a complete bounds element below it. *)
Lemma parse_bounds_NameError tag attrs children btag battrs bchildren rest db a b c d :
  Dom.elements_by_tagName "bounds" (Element tag attrs children)
  = Element btag battrs bchildren :: rest ->
  battrs !! "minlat" = Some a -> battrs !! "minlon" = Some b ->
  battrs !! "maxlat" = Some c -> battrs !! "maxlon" = Some d ->
  parse_bounds (Element tag attrs children) db
  = (db, Raise (NameError "name 'Bounds' is not defined")).
Proof.
  intros Hb Ha Hbb Hc Hd. unfold parse_bounds.
  erewrite bind_ok by apply getElementsByTagName_Element. rewrite Hb.
  unfold BoundsParser.parse, BoundsParser.BOUNDS_ATTRS. simpl.
  unfold bind, attribute. simpl. by rewrite Ha, Hbb, Hc, Hd.
Qed.

(** C6. The claim: every parsed element gets the Bounds of its bounds
    child.  The code: no [parse] method calls [parse_bounds], so the element
    a registered parser returns has no Bounds whatever its node holds, and no
    Bounds row is stored; [parse_bounds] itself could not store one, the
    module not importing [Bounds]. *)
Theorem C6_bounds_never_attached name klass tag attrs children db db' e :
  AbstractXMLParser.PARSER_MAP !! name = Some klass ->
  klass (Element tag attrs children) db = (db', Ok e) ->
  (exists row, elements db' !! e = Some row /\ bounds row = None)
  /\ bounds_table db' = bounds_table db.
Proof.
  intros Hklass H.
  destruct (registered_parse_row _ _ _ _ _ _ _ _ Hklass H) as (st & kwargs & Hrow & Hg).
  split; [by eexists|]. by destruct Hg.
Qed.

Lemma C6_bounds_never_attached_witness :
  Dom.children_by_tagName "bounds" point_with_bounds
  = [el "bounds" [("minlat", "9"); ("minlon", "19"); ("maxlat", "11"); ("maxlon", "21")] []]
  /\ ((exists row, elements (NodeParser_parse point_with_bounds empty_db).1 !! 0 = Some row
                   /\ bounds row = None)
      /\ bounds_table (NodeParser_parse point_with_bounds empty_db).1 = bounds_table empty_db)
  /\ parse_bounds point_with_bounds empty_db
     = (empty_db, Raise (NameError "name 'Bounds' is not defined")).
Proof.
  split; [|split].
  - reflexivity.
  - apply (C6_bounds_never_attached "node" NodeParser_parse "node"
             (list_to_map [("id", "1"); ("lat", "10"); ("lon", "20")])
             [el "bounds" [("minlat", "9"); ("minlon", "19"); ("maxlat", "11"); ("maxlon", "21")] []]
             empty_db (NodeParser_parse point_with_bounds empty_db).1 0);
      [reflexivity|by vm_compute].
  - by vm_compute.
Defined.

(** ** The Document Parser *)

Lemma runs_each_grows {A B : Type} (body : A -> M B) xs db ys db' :
  (forall x, keeps 0 (body x) (fun _ => True)) ->
  runs_each body xs db ys db' -> grows 0 db db'.
Proof.
  intros Hbody. induction 1 as [|x xs db db1 db2 y ys Hx _ IH]; [apply grows_refl|].
  eapply grows_trans; [|exact IH]. eapply keeps_run; [apply Hbody|lia|exact Hx].
Qed.

(** Each result of a loop over the change entries is the key of the Action
    that the parse of its entry stored, and the row is still there at the
    end. *)
Lemma runs_each_actions xs db ys db' :
  runs_each ActionParser.parse xs db ys db' ->
  Forall2 (fun x y => exists dbi dbi',
             ActionParser.parse x dbi = (dbi', Ok y)
             /\ action_table dbi' `prefix_of` action_table db') xs ys.
Proof.
  induction 1 as [|x xs db db1 db2 y ys Hx Hrest IH]; constructor.
  - exists db, db1. split; [done|].
    apply (runs_each_grows _ _ _ _ _ (keeps_ActionParser_parse 0)) in Hrest.
    by destruct Hrest.
  - done.
Qed.

(** C1 as stated fails: a change entry nested in a change entry is parsed
    as a Change of the Diff too, so a root with one change-entry child gets
    two Changes; and a document with the expected root whose change entry
    does not parse yields no Diff. *)
Lemma C1_counterexample :
  (AdiffParser.parse adiff_nested_action empty_db).2 = Ok 0
  /\ ORM.diff_actions (AdiffParser.parse adiff_nested_action empty_db).1 0 = Some [0; 1]
  /\ length (Dom.children_by_tagName "action" adiff_nested_action) = 1
  /\ (AdiffParser.parse adiff_empty_modify empty_db).2 = Raise no_childNodes.
Proof. split_and!; by vm_compute. Qed.

(** C1, amended.  Take a document whose root is [osm] and whose change
    entries, the action elements found anywhere below the root in document
    order, are each parsed by the Change Parser, one after the other.  The
    Document Parser returns a Diff whose sequence of Changes is exactly the
    sequence of those parses: it has the length of the list of change
    entries, and its i-th Change is the Action stored by the parse of the
    i-th change entry. *)
Theorem C1_changes_in_document_order attrs children db pks db1 :
  runs_each ActionParser.parse
    (Dom.elements_by_tagName "action" (Element "osm" attrs children))
    (ORM.Diff_create db).1 pks db1 ->
  exists db' d,
    AdiffParser.parse (Element "osm" attrs children) db = (db', Ok d)
    /\ ORM.diff_actions db' d = Some pks
    /\ length pks = length (Dom.elements_by_tagName "action" (Element "osm" attrs children))
    /\ Forall2 (fun action pk => exists dbi dbi',
                  ActionParser.parse action dbi = (dbi', Ok pk)
                  /\ action_table dbi' `prefix_of` action_table db')
         (Dom.elements_by_tagName "action" (Element "osm" attrs children)) pks.
Proof.
  intros Hruns.
  exists (ORM.Diff_actions_set (length (diffs db)) pks db1).1, (length (diffs db)).
  split_and!.
  - unfold AdiffParser.parse. erewrite bind_ok by reflexivity.
    rewrite decide_False by (by intros []).
    erewrite bind_ok by reflexivity.
    erewrite bind_ok by apply getElementsByTagName_Element.
    erewrite bind_ok by (apply for_each_runs; exact Hruns).
    reflexivity.
  - apply (runs_each_grows _ _ _ _ _ (keeps_ActionParser_parse 0)) in Hruns as [_ _ _ Hd _].
    unfold ORM.diff_actions. simpl in *. rewrite Hd.
    rewrite list_lookup_insert_eq; [done|]. rewrite length_app. simpl. lia.
  - by eapply runs_each_length.
  - exact (runs_each_actions _ _ _ _ Hruns).
Qed.

Lemma C1_changes_in_document_order_witness :
  exists db' d,
    AdiffParser.parse adiff_two_actions empty_db = (db', Ok d)
    /\ ORM.diff_actions db' d = Some [0; 1]
    /\ length [0; 1] = length (Dom.elements_by_tagName "action" adiff_two_actions)
    /\ Forall2 (fun action pk => exists dbi dbi',
                  ActionParser.parse action dbi = (dbi', Ok pk)
                  /\ action_table dbi' `prefix_of` action_table db')
         (Dom.elements_by_tagName "action" adiff_two_actions) [0; 1].
Proof.
  apply (C1_changes_in_document_order ∅
           [el "action" [("type", "create")] [point "1" "10" "20"];
            el "action" [("type", "remove")] []]
           empty_db [0; 1]
           (for_each
              (Dom.elements_by_tagName "action" adiff_two_actions)
              ActionParser.parse (ORM.Diff_create empty_db).1).1).
  apply for_each_runs. by vm_compute.
Defined.

(** ** The tag pattern *)

Lemma match_RE_TAG_PATTERN s :
  Re.match_ Tag.RE_TAG_PATTERN s = Re.any_plus s (after_key s).
Proof. reflexivity. Qed.

Lemma occurs_app c s1 s2 : occurs c (s1 +:+ s2) = occurs c s1 || occurs c s2.
Proof.
  induction s1 as [|c' s1 IH]; simpl; [done|]. rewrite IH. by rewrite orb_assoc.
Qed.

Lemma append_cons_inv c v s1 s2 :
  String c v = s1 +:+ s2 -> s1 <> "" -> exists s1', s1 = String c s1' /\ v = s1' +:+ s2.
Proof. destruct s1 as [|c' s1']; [done|]. simpl. intros [= <- ->] _. eauto. Qed.

Lemma append_eq_inv k t : forall s1 s2,
  k +:+ t = s1 +:+ s2 ->
  (exists k2, k = s1 +:+ k2 /\ s2 = k2 +:+ t)
  \/ (exists t1, s1 = k +:+ t1 /\ t = t1 +:+ s2).
Proof.
  induction k as [|c k IH]; intros s1 s2 H; simpl in *.
  - right. by exists s1.
  - destruct s1 as [|c' s1]; simpl in *.
    + left. by exists (String c k).
    + injection H as <- H. destruct (IH _ _ H) as [(k2 & -> & ->)|(t1 & -> & ->)].
      * left. by exists k2.
      * right. by exists t1.
Qed.

Lemma length_append s1 s2 :
  String.length (s1 +:+ s2) = String.length s1 + String.length s2.
Proof. induction s1 as [|c s1 IH]; simpl; [done|]. by rewrite IH. Qed.

Lemma substring_before_prefix p q : Re.substring_before (p +:+ q) q = p.
Proof.
  unfold Re.substring_before. rewrite length_append.
  replace (String.length p + String.length q - String.length q) with (String.length p) by lia.
  induction p as [|c p IH]; simpl; [by destruct q|]. by rewrite IH.
Qed.

Lemma substring_before_all v : Re.substring_before v "" = v.
Proof.
  unfold Re.substring_before. simpl. rewrite Nat.sub_0_r.
  induction v as [|c v IH]; simpl; [done|]. by rewrite IH.
Qed.

#[local] Opaque Re.newline.

(** A greedy [.+] whose continuation fails on every shorter rest fails. *)
Lemma any_plus_None {R : Type} s (k : string -> option R) :
  (forall s1 s2, s = s1 +:+ s2 -> s1 <> "" -> k s2 = None) ->
  Re.any_plus s k = None.
Proof.
  induction s as [|c s IH]; intros Hk; simpl; [done|].
  destruct (Ascii.eqb c Re.newline); [done|].
  rewrite IH.
  - apply (Hk (String c "") s); done.
  - intros s1 s2 -> Hs1. by apply (Hk (String c s1) s2).
Qed.

(** It takes a whole line when the continuation accepts the end. *)
Lemma any_plus_all {R : Type} v (k : string -> option R) r :
  v <> "" -> occurs Re.newline v = false -> k "" = Some r ->
  Re.any_plus v k = Some r.
Proof.
  intros Hv Hnl Hk. induction v as [|c v IH]; [done|].
  simpl in *.
  apply orb_false_iff in Hnl as [Hc Hnl]. rewrite Ascii.eqb_sym, Hc.
  destruct v as [|c' v]; [by rewrite Hk|].
  by rewrite IH.
Qed.

(** It stops at the longest prefix after which the continuation succeeds. *)
Lemma any_plus_split {R : Type} p q (k : string -> option R) r :
  p <> "" -> occurs Re.newline p = false ->
  k q = Some r ->
  (forall q1 q2, q = q1 +:+ q2 -> q1 <> "" -> k q2 = None) ->
  Re.any_plus (p +:+ q) k = Some r.
Proof.
  intros Hp Hnl Hk Hlonger. induction p as [|c p IH]; [done|].
  simpl in *.
  apply orb_false_iff in Hnl as [Hc Hnl]. rewrite Ascii.eqb_sym, Hc.
  destruct p as [|c' p].
  - simpl. by rewrite any_plus_None by exact Hlonger.
  - by rewrite IH.
Qed.

Lemma after_key_suffix s v s1 s2 :
  occurs "=" v = false -> v = s1 +:+ s2 -> after_key s s2 = None.
Proof.
  intros Hv ->. rewrite occurs_app in Hv. apply orb_false_iff in Hv as [_ Hv].
  destruct s2 as [|c r]; [done|]. simpl in *.
  apply orb_false_iff in Hv as [Hc _]. by rewrite Hc.
Qed.

Lemma after_key_value s value :
  value <> "" -> occurs Re.newline value = false ->
  after_key s (String "=" value)
  = Some (<["value" := value]> (<["key" := Re.substring_before s (String "=" value)]> ∅)).
Proof.
  intros Hv Hnl. unfold after_key. rewrite Ascii.eqb_refl.
  apply any_plus_all; [done..|]. by rewrite substring_before_all.
Qed.

Lemma parse_tag_pattern_no_match s :
  Re.any_plus s (after_key s) = None ->
  Tag.parse_tag_pattern s = Raise (invalid_tag_pattern s).
Proof.
  intros H. unfold Tag.parse_tag_pattern. by rewrite match_RE_TAG_PATTERN, H.
Qed.

(** What a greedy [.+] does, read off its result: it stops after the
    longest prefix without a line break after which the continuation
    succeeds, and fails when there is none. *)
Lemma any_plus_inv {R : Type} s (k : string -> option R) :
  match Re.any_plus s k with
  | Some r =>
      exists p q,
        s = p +:+ q /\ p <> "" /\ occurs Re.newline p = false /\ k q = Some r
        /\ (forall q1 q2, q = q1 +:+ q2 -> q1 <> "" -> occurs Re.newline q1 = false ->
                          k q2 = None)
  | None =>
      forall p q, s = p +:+ q -> p <> "" -> occurs Re.newline p = false -> k q = None
  end.
Proof.
  induction s as [|c s IH]; simpl.
  { intros [|c p] q; [done|]. by simpl. }
  destruct (Ascii.eqb_spec c Re.newline) as [->|Hc].
  { intros [|c p] q; [done|]. simpl. intros [= <- _] _. by rewrite Ascii.eqb_refl. }
  assert (Ascii.eqb Re.newline c = false) as Hc'.
  { apply Ascii.eqb_neq. congruence. }
  destruct (Re.any_plus s k) as [r|].
  - destruct IH as (p & q & -> & Hp & Hnl & Hk & Hmax).
    exists (String c p), q. split_and!; try done. simpl. by rewrite Hc', Hnl.
  - destruct (k s) as [r|] eqn:Hks.
    + exists (String c ""), s. split_and!; try done. simpl. by rewrite Hc'.
    + intros [|c' p] q; [done|]. simpl. intros [= <- ->] _ [_ Hnl]%orb_false_iff.
      destruct p as [|c'' p]; [done|]. by apply (IH (String c'' p) q).
Qed.

(** The sufficient direction: a split after which the continuation succeeds
    and that no longer one rivals is the split of the greedy [.+]. *)
Lemma any_plus_greedy {R : Type} p q (k : string -> option R) r :
  p <> "" -> occurs Re.newline p = false ->
  k q = Some r ->
  (forall q1 q2, q = q1 +:+ q2 -> q1 <> "" -> occurs Re.newline q1 = false -> k q2 = None) ->
  Re.any_plus (p +:+ q) k = Some r.
Proof.
  intros Hp Hnl Hk Hmax. pose proof (any_plus_inv (p +:+ q) k) as Hinv.
  destruct (Re.any_plus (p +:+ q) k) as [r'|]; cycle 1.
  { rewrite (Hinv p q) in Hk by done. done. }
  destruct Hinv as (p' & q' & Hsplit & Hp' & Hnl' & Hk' & Hmax').
  apply append_eq_inv in Hsplit as [(k2 & -> & ->)|(t1 & -> & ->)].
  - rewrite occurs_app in Hnl. apply orb_false_iff in Hnl as [_ Hnl2].
    destruct k2 as [|c k2]; [change ("" +:+ q) with q in Hk'; congruence|].
    rewrite (Hmax' (String c k2) q) in Hk by done. done.
  - rewrite occurs_app in Hnl'. apply orb_false_iff in Hnl' as [_ Hnl2].
    destruct t1 as [|c t1]; [change ("" +:+ q') with q' in Hk; congruence|].
    rewrite (Hmax (String c t1) q') in Hk' by done. done.
Qed.

Lemma eq_is_no_newline : Ascii.eqb "=" Re.newline = false.
Proof. reflexivity. Qed.

(** At the end of a line a [.+] finds nothing. *)
Lemma any_plus_line_end {R : Type} rest (k : string -> option R) :
  rest = "" \/ (exists rest', rest = String Re.newline rest') ->
  Re.any_plus rest k = None.
Proof. intros [->|[rest' ->]]; [done|]. simpl. by rewrite Ascii.eqb_refl. Qed.

(** Before a character that is no line break, a [.+] whose continuation
    never fails finds something. *)
Lemma any_plus_total {R : Type} c rest (k : string -> option R) :
  c <> Re.newline -> (forall rest', is_Some (k rest')) ->
  is_Some (Re.any_plus (String c rest) k).
Proof.
  intros Hc Hk. simpl. destruct (Ascii.eqb_spec c Re.newline) as [->|_]; [done|].
  destruct (Re.any_plus rest k); [by eauto|apply Hk].
Qed.

(** After the key: the value goes to the end of its line. *)
Lemma after_key_parts s value rest :
  value <> "" -> occurs Re.newline value = false ->
  rest = "" \/ (exists rest', rest = String Re.newline rest') ->
  after_key s (String "=" (value +:+ rest))
  = Some (<["value" := value]>
            (<["key" := Re.substring_before s (String "=" (value +:+ rest))]> ∅)).
Proof.
  intros Hv Hnl Hrest. unfold after_key. rewrite Ascii.eqb_refl.
  apply any_plus_greedy; [done..| |].
  - by rewrite substring_before_prefix.
  - intros q1 q2 -> Hq1 Hnl1. exfalso. destruct Hrest as [Hrest|[rest' Hrest]].
    + by destruct q1.
    + destruct q1 as [|c q1]; [done|]. simpl in *. injection Hrest as -> _.
      by rewrite Ascii.eqb_refl in Hnl1.
Qed.

(** After the key: nothing, unless an [=] and a character that is no line
    break follow. *)
Lemma after_key_None s q :
  (forall c r, q = String "=" (String c r) -> c = Re.newline) -> after_key s q = None.
Proof.
  intros Hq. unfold after_key. destruct q as [|c0 q]; [done|].
  destruct (Ascii.eqb_spec "=" c0) as [<-|_]; [|done].
  destruct q as [|c r]; [done|]. rewrite (Hq c r eq_refl). simpl.
  by rewrite Ascii.eqb_refl.
Qed.

Lemma after_key_Some s q r :
  after_key s q = Some r ->
  exists c rest, q = String "=" (String c rest) /\ c <> Re.newline.
Proof.
  unfold after_key. destruct q as [|c0 q]; [done|].
  destruct (Ascii.eqb_spec "=" c0) as [<-|_]; [|done].
  destruct q as [|c rest]; [done|]. simpl.
  destruct (Ascii.eqb_spec c Re.newline) as [->|Hc]; [done|]. by eauto.
Qed.

Lemma parse_tag_pattern_parts s key value rest :
  pattern_parts s key value rest ->
  Tag.parse_tag_pattern s = Ok (pattern_filter key value).
Proof.
  intros (-> & Hkey & Hvalue & Hnlk & Hnlv & Hrest & Hlast).
  change (key +:+ "=" +:+ value +:+ rest) with (key +:+ String "=" (value +:+ rest)).
  unfold Tag.parse_tag_pattern. rewrite match_RE_TAG_PATTERN.
  rewrite (any_plus_greedy key (String "=" (value +:+ rest)) _
             (<["value" := value]> (<["key" := key]> ∅))); [|done|done| |].
  - unfold Re.group, pattern_filter. by simplify_map_eq.
  - rewrite after_key_parts by done. by rewrite substring_before_prefix.
  - intros q1 q2 Hq Hq1 Hnl1. apply after_key_None. intros c r ->.
    apply append_cons_inv in Hq as (q1' & -> & Hq); [|done].
    simpl in Hnl1. apply orb_false_iff in Hnl1 as [_ Hnl1].
    apply append_eq_inv in Hq as [(k2 & -> & Hq2)|(t1 & -> & ->)].
    + destruct k2 as [|c2 k2].
      * simpl in Hq2. destruct Hrest as [->|[rest' ->]]; [done|]. by injection Hq2.
      * simpl in Hq2. injection Hq2 as <- Hq2.
        specialize (Hlast q1' k2 eq_refl). subst k2. simpl in Hq2.
        destruct Hrest as [->|[rest' ->]]; [done|]. by injection Hq2 as <-.
    + rewrite occurs_app in Hnl1. apply orb_false_iff in Hnl1 as [_ Hnl1].
      destruct t1 as [|c1 t1].
      * change ("" +:+ ?x) with x in Hrest. destruct Hrest as [?|[rest' Hrest]]; [done|].
        injection Hrest as Hrest _. pose proof eq_is_no_newline as Hne.
        by apply Ascii.eqb_neq in Hne.
      * simpl in *. destruct Hrest as [?|[rest' Hrest]]; [done|].
        injection Hrest as -> _. by rewrite Ascii.eqb_refl in Hnl1.
Qed.

Lemma append_assoc s1 s2 s3 : (s1 +:+ s2) +:+ s3 = s1 +:+ (s2 +:+ s3).
Proof.
  induction s1 as [|c s1 IH]; [done|].
  change (String c ((s1 +:+ s2) +:+ s3) = String c (s1 +:+ (s2 +:+ s3))). by rewrite IH.
Qed.

Lemma parse_tag_pattern_no_pattern s :
  no_pattern s -> Tag.parse_tag_pattern s = Raise (invalid_tag_pattern s).
Proof.
  intros Hno. apply parse_tag_pattern_no_match.
  pose proof (any_plus_inv s (after_key s)) as Hinv.
  destruct (Re.any_plus s (after_key s)) as [r|]; [|done]. exfalso.
  destruct Hinv as (p & q & -> & Hp & Hnl & Hk & _).
  apply after_key_Some in Hk as (c & rest & -> & Hc).
  apply Hc. by apply (Hno p c rest).
Qed.

(** Every string is a pattern in one way, or in none. *)
Lemma pattern_parts_or_not s :
  (exists key value rest, pattern_parts s key value rest) \/ no_pattern s.
Proof.
  pose proof (any_plus_inv s (after_key s)) as Hinv.
  destruct (Re.any_plus s (after_key s)) as [r|].
  - left. destruct Hinv as (key & q & -> & Hkey & Hnlk & Hk & Hmax).
    unfold after_key in Hk. destruct q as [|c0 q]; [done|].
    destruct (Ascii.eqb_spec "=" c0) as [<-|]; [|done].
    match type of Hk with Re.any_plus _ ?k2 = _ =>
      pose proof (any_plus_inv q k2) as Hinv2 end.
    rewrite Hk in Hinv2.
    destruct Hinv2 as (value & rest & -> & Hvalue & Hnlv & _ & Hmax2).
    exists key, value, rest. split_and!; try done.
    + destruct rest as [|c rest']; [by left|]. right. exists rest'. f_equal.
      destruct (Ascii.eqb_spec c Re.newline) as [->|Hc]; [done|]. exfalso.
      specialize (Hmax2 (String c "") rest' eq_refl). simpl in Hmax2.
      rewrite (proj2 (Ascii.eqb_neq Re.newline c)) in Hmax2 by congruence.
      by specialize (Hmax2 ltac:(done) eq_refl).
    + intros v1 v2 ->. destruct v2 as [|c v2]; [done|]. exfalso.
      rewrite !occurs_app in Hnlv. simpl in Hnlv.
      apply orb_false_iff in Hnlv as [Hnl1 Hnlv].
      apply orb_false_iff in Hnlv as [_ Hnlv].
      apply orb_false_iff in Hnlv as [Hc _].
      pose proof (Hmax (String "=" v1) (String "=" (String c (v2 +:+ rest)))) as Hnone.
      unfold after_key in Hnone. rewrite Ascii.eqb_refl in Hnone.
      match type of Hnone with _ -> _ -> _ -> Re.any_plus _ ?k2 = None =>
        destruct (any_plus_total c (v2 +:+ rest) k2) as [x Hx] end.
      { apply Ascii.eqb_neq. by rewrite Ascii.eqb_sym. }
      { by eauto. }
      rewrite Hx in Hnone. discriminate Hnone; [|done|].
      * change (String "=" v1 +:+ ?x) with (String "=" (v1 +:+ x)). f_equal.
        by rewrite append_assoc.
      * simpl. rewrite Hnl1, orb_false_r. rewrite Ascii.eqb_sym. apply eq_is_no_newline.
  - right. intros key c rest -> Hkey Hnlk.
    destruct (Ascii.eqb_spec c Re.newline) as [->|Hc]; [done|]. exfalso.
    specialize (Hinv key (String "=" (String c rest)) eq_refl Hkey Hnlk).
    unfold after_key in Hinv. rewrite Ascii.eqb_refl in Hinv.
    match type of Hinv with Re.any_plus _ ?k2 = _ =>
      destruct (any_plus_total c rest k2 Hc) as [x Hx]; [by eauto|] end.
    by rewrite Hx in Hinv.
Qed.

(** A value without [=], and a value whose only [=] is its last
    character. *)
Lemma eq_absent value v1 v2 :
  occurs "=" value = false -> value = v1 +:+ "=" +:+ v2 -> v2 = "".
Proof.
  intros Hv ->. rewrite occurs_app in Hv. apply orb_false_iff in Hv as [_ Hv].
  by simpl in Hv.
Qed.

Lemma eq_last_only v v1 v2 :
  occurs "=" v = false -> v +:+ "=" = v1 +:+ "=" +:+ v2 -> v2 = "".
Proof.
  intros Hv H. apply append_eq_inv in H as [(k2 & -> & H)|(t1 & -> & H)].
  - destruct k2 as [|c k2]; [by injection H|]. simpl in H. injection H as <- _.
    rewrite occurs_app in Hv. apply orb_false_iff in Hv as [_ Hv]. by simpl in Hv.
  - destruct t1 as [|c t1]; [by injection H|]. simpl in H. injection H as _ H.
    by destruct t1.
Qed.

Lemma without_eq s key t : occurs "=" s = false -> s <> key +:+ "=" +:+ t.
Proof.
  intros Hs ->. rewrite occurs_app in Hs.
  apply orb_false_iff in Hs as [_ Hs]. by simpl in Hs.
Qed.

(** A string without [=] is no pattern. *)
Lemma no_pattern_without_eq s : occurs "=" s = false -> no_pattern s.
Proof.
  intros Hs key c rest -> _ _. rewrite occurs_app in Hs.
  apply orb_false_iff in Hs as [_ Hs]. by simpl in Hs.
Qed.

(** C4 as stated fails: [a=b=c], with more than one [=], is accepted, with
    the key [a=b] and the value [c]; a rejected string raises ValueError,
    not FileFormatError; and a string whose first line holds no [=] is
    rejected, whatever follows the line break. *)
Lemma C4_counterexample :
  Tag.parse_tag_pattern "a=b=c" = Ok (<["v" := "c"]> {["k" := "a=b"]})
  /\ Tag.parse_tag_pattern "invalid" = Raise (invalid_tag_pattern "invalid")
  /\ Tag.parse_tag_pattern ("a" +:+ String Re.newline "b=c")
     = Raise (invalid_tag_pattern ("a" +:+ String Re.newline "b=c")).
Proof. split_and!; by vm_compute. Qed.

(** C4, amended.  [parse_tag_pattern] reads a string up to its first line
    break.  It returns the filter of key and value, the value left out when
    it is [*], when that line holds an [=] with a character before it and a
    character after it: the key is what stands before the last such [=], the
    value what stands after it to the end of the line.  So a string with
    more than one [=] is accepted.  It raises ValueError, with the pattern in
    the message, in every other case: when no [=] of the first line has a
    character before it and one after it.  Every string is of one of the two
    kinds. *)
Theorem C4_parse_tag_pattern s :
  (forall key value rest,
      pattern_parts s key value rest ->
      Tag.parse_tag_pattern s = Ok (pattern_filter key value))
  /\ (no_pattern s -> Tag.parse_tag_pattern s = Raise (invalid_tag_pattern s))
  /\ ((exists key value rest, pattern_parts s key value rest) \/ no_pattern s).
Proof.
  split_and!.
  - apply parse_tag_pattern_parts.
  - apply parse_tag_pattern_no_pattern.
  - apply pattern_parts_or_not.
Qed.

Lemma C4_parse_tag_pattern_witness :
  Tag.parse_tag_pattern "highway=primary" = Ok (<["v" := "primary"]> {["k" := "highway"]})
  /\ Tag.parse_tag_pattern "highway=*" = Ok {["k" := "highway"]}
  /\ Tag.parse_tag_pattern "a=b=c" = Ok (<["v" := "c"]> {["k" := "a=b"]})
  /\ Tag.parse_tag_pattern "a=b=" = Ok (<["v" := "b="]> {["k" := "a"]})
  /\ Tag.parse_tag_pattern "invalid" = Raise (invalid_tag_pattern "invalid")
  /\ Tag.parse_tag_pattern "=primary" = Raise (invalid_tag_pattern "=primary")
  /\ Tag.parse_tag_pattern "highway=" = Raise (invalid_tag_pattern "highway=")
  /\ Tag.parse_tag_pattern "==" = Raise (invalid_tag_pattern "==").
Proof.
  split_and!.
  - apply (proj1 (C4_parse_tag_pattern "highway=primary") "highway" "primary" "").
    split_and!; try done; [by left|]. intros v1 v2. by apply eq_absent.
  - apply (proj1 (C4_parse_tag_pattern "highway=*") "highway" "*" "").
    split_and!; try done; [by left|]. intros v1 v2. by apply eq_absent.
  - apply (proj1 (C4_parse_tag_pattern "a=b=c") "a=b" "c" "").
    split_and!; try done; [by left|]. intros v1 v2. by apply eq_absent.
  - apply (proj1 (C4_parse_tag_pattern "a=b=") "a" "b=" "").
    split_and!; try done; [by left|]. intros v1 v2. by apply (eq_last_only "b").
  - apply (proj1 (proj2 (C4_parse_tag_pattern "invalid"))).
    by apply no_pattern_without_eq.
  - apply (proj1 (proj2 (C4_parse_tag_pattern "=primary"))).
    intros [|a key] c rest H Hkey _; [done|]. injection H as _ H.
    exfalso. by apply (without_eq "primary" key (String c rest) eq_refl).
  - apply (proj1 (proj2 (C4_parse_tag_pattern "highway="))).
    intros key c rest H _ _. exfalso.
    by apply (eq_last_only "highway" key (String c rest) eq_refl) in H.
  - apply (proj1 (proj2 (C4_parse_tag_pattern "=="))).
    intros key c rest H Hkey _. exfalso.
    destruct key as [|a [|b key]]; [done| |]; injection H as _ H; [done|].
    by destruct key.
Defined.

(** * Further properties of the code *)

(** ** Lists of tag patterns *)

Lemma split_cons sep s : exists piece pieces, TagMethods.split sep s = piece :: pieces.
Proof.
  induction s as [|c s (piece & pieces & IH)]; simpl; [by eauto|].
  destruct (Ascii.eqb c sep); [by eauto|]. rewrite IH. by eauto.
Qed.

Lemma concat_cons sep piece piece' pieces :
  String.concat sep (piece :: piece' :: pieces)
  = piece +:+ sep +:+ String.concat sep (piece' :: pieces).
Proof. reflexivity. Qed.

Lemma split_concat sep s :
  String.concat (String sep "") (TagMethods.split sep s) = s.
Proof.
  induction s as [|c s IH]; [done|]. simpl.
  destruct (Ascii.eqb_spec c sep) as [->|Hc].
  - destruct (split_cons sep s) as (piece & pieces & Hs). rewrite Hs in *.
    by rewrite concat_cons, IH.
  - destruct (split_cons sep s) as (piece & pieces & Hs). rewrite Hs in *.
    destruct pieces as [|piece' pieces].
    + simpl in *. by rewrite IH.
    + rewrite concat_cons in *. by rewrite <- IH.
Qed.

Lemma split_pieces sep s :
  Forall (fun piece => occurs sep piece = false) (TagMethods.split sep s).
Proof.
  induction s as [|c s IH]; simpl; [by repeat constructor|].
  destruct (Ascii.eqb_spec c sep) as [->|Hc]; [by constructor|].
  destruct (split_cons sep s) as (piece & pieces & Hs). rewrite Hs in *.
  apply Forall_cons in IH as [Hpiece Hpieces]. constructor; [|done]. simpl.
  rewrite Hpiece, orb_false_r. by apply Ascii.eqb_neq.
Qed.

Lemma split_piece sep piece :
  occurs sep piece = false -> TagMethods.split sep piece = [piece].
Proof.
  induction piece as [|c piece IH]; simpl; [done|].
  intros [Hc Hpiece]%orb_false_iff. rewrite Ascii.eqb_sym, Hc. by rewrite IH.
Qed.

Lemma split_append sep piece s :
  occurs sep piece = false ->
  TagMethods.split sep (piece +:+ String sep s) = piece :: TagMethods.split sep s.
Proof.
  induction piece as [|c piece IH]; simpl.
  - intros _. by rewrite Ascii.eqb_refl.
  - intros [Hc Hpiece]%orb_false_iff. rewrite Ascii.eqb_sym, Hc. by rewrite IH.
Qed.

(** X1. Splitting a list of patterns loses nothing: the pieces joined with
    commas are the string again, no piece holds a comma, and there is
    always a piece. *)
Theorem X1_split_tag_pattern_join multi_tag_pattern :
  String.concat "," (TagMethods.split_tag_pattern multi_tag_pattern) = multi_tag_pattern
  /\ Forall (fun piece => occurs "," piece = false)
       (TagMethods.split_tag_pattern multi_tag_pattern)
  /\ TagMethods.split_tag_pattern multi_tag_pattern <> [].
Proof.
  split_and!.
  - apply split_concat.
  - apply split_pieces.
  - unfold TagMethods.split_tag_pattern.
    by destruct (split_cons "," multi_tag_pattern) as (piece & pieces & ->).
Qed.

(** X2. Patterns without a comma, joined with commas, are split into
    themselves, the empty ones too. *)
Theorem X2_split_tag_pattern_of_join patterns :
  patterns <> [] ->
  Forall (fun piece => occurs "," piece = false) patterns ->
  TagMethods.split_tag_pattern (String.concat "," patterns) = patterns.
Proof.
  intros Hne Hall. unfold TagMethods.split_tag_pattern.
  induction Hall as [|piece pieces Hpiece Hpieces IH]; [done|].
  destruct pieces as [|piece' pieces]; [by apply split_piece|].
  rewrite concat_cons. change ("," +:+ ?s) with (String "," s).
  rewrite split_append by done. by rewrite IH.
Qed.

Lemma X2_split_tag_pattern_of_join_witness :
  TagMethods.split_tag_pattern (String.concat "," ["foo=bar"; ""; "spam=*"])
  = ["foo=bar"; ""; "spam=*"].
Proof.
  apply (X2_split_tag_pattern_of_join ["foo=bar"; ""; "spam=*"]); [done|].
  repeat constructor.
Defined.

(** ** Matching a tag *)

Lemma parse_tag_pattern_key_value key value :
  key <> "" -> value <> "" ->
  occurs Re.newline key = false -> occurs Re.newline value = false ->
  occurs "=" value = false ->
  Tag.parse_tag_pattern (key +:+ "=" +:+ value)
  = Ok (if decide (value <> "*") then <["v" := value]> {["k" := key]} else {["k" := key]}).
Proof.
  intros Hkey Hvalue Hnlk Hnlv Heq.
  change (key +:+ "=" +:+ value) with (key +:+ String "=" value).
  unfold Tag.parse_tag_pattern. rewrite match_RE_TAG_PATTERN.
  rewrite (any_plus_split key (String "=" value) _
             (<["value" := value]> (<["key" := key]> ∅))); [|done|done| |].
  - unfold Re.group. by simplify_map_eq.
  - rewrite after_key_value by done. by rewrite substring_before_prefix.
  - intros q1 q2 Hq Hq1.
    apply append_cons_inv in Hq as (q1' & -> & Hq); [|done].
    by eapply after_key_suffix.
Qed.

Lemma parse_tag_pattern_without_eq s :
  occurs "=" s = false -> Tag.parse_tag_pattern s = Raise (invalid_tag_pattern s).
Proof.
  intros Hs. apply parse_tag_pattern_no_match, any_plus_None.
  intros s1 s2 Hsplit _. by eapply after_key_suffix.
Qed.

Lemma items_key key : TagMethods.items {["k" := key]} = [("k", key)].
Proof. unfold TagMethods.items. simpl. by simplify_map_eq. Qed.

Lemma items_key_value key value :
  TagMethods.items (<["v" := value]> {["k" := key]}) = [("k", key); ("v", value)].
Proof. unfold TagMethods.items. simpl. by simplify_map_eq. Qed.

Lemma match_key_value self key value :
  key <> "" -> value <> "" ->
  occurs Re.newline key = false -> occurs Re.newline value = false ->
  occurs "=" value = false ->
  TagMethods.match_ self (key +:+ "=" +:+ value)
  = Ok (bool_decide (k self = key /\ (value = "*" \/ v self = value))).
Proof.
  intros Hkey Hvalue Hnlk Hnlv Heq. unfold TagMethods.match_.
  rewrite parse_tag_pattern_key_value by done.
  destruct (decide (value <> "*")) as [Hstar|Hstar].
  - rewrite items_key_value. simpl.
    destruct (decide (k self <> key)) as [Hk|Hk].
    { f_equal. symmetry. apply bool_decide_eq_false. intuition congruence. }
    destruct (decide (v self <> value)) as [Hv|Hv]; f_equal; symmetry.
    + apply bool_decide_eq_false. intuition congruence.
    + apply bool_decide_eq_true. apply dec_stable in Hk, Hv. auto.
  - rewrite items_key. simpl. apply dec_stable in Hstar.
    destruct (decide (k self <> key)) as [Hk|Hk]; f_equal; symmetry.
    + apply bool_decide_eq_false. intuition congruence.
    + apply bool_decide_eq_true. apply dec_stable in Hk. auto.
Qed.

(** X3. [Tag.match] with a pattern [key=value] (key and value not empty
    and without a line break, the value without [=]) is true exactly when
    the tag's key is the pattern's key and the pattern's value is [*] or the
    tag's value; with a pattern that holds no [=] it does not answer false
    but raises ValueError. *)
Theorem X3_match_key_and_value self :
  (forall key value,
      key <> "" -> value <> "" ->
      occurs Re.newline key = false -> occurs Re.newline value = false ->
      occurs "=" value = false ->
      TagMethods.match_ self (key +:+ "=" +:+ value)
      = Ok (bool_decide (k self = key /\ (value = "*" \/ v self = value))))
  /\ (forall tag_pattern,
        occurs "=" tag_pattern = false ->
        TagMethods.match_ self tag_pattern = Raise (invalid_tag_pattern tag_pattern)).
Proof.
  split.
  - intros. by apply match_key_value.
  - intros tag_pattern Hs. unfold TagMethods.match_.
    by rewrite parse_tag_pattern_without_eq.
Qed.

Lemma X3_match_key_and_value_witness :
  TagMethods.match_ {| element := 0; k := "highway"; v := "primary" |} "highway=primary" = Ok true
  /\ TagMethods.match_ {| element := 0; k := "highway"; v := "secondary" |} "highway=*" = Ok true
  /\ TagMethods.match_ {| element := 0; k := "highway"; v := "secondary" |} "highway=primary" = Ok false
  /\ TagMethods.match_ {| element := 0; k := "highway"; v := "secondary" |} "invalid"
     = Raise (invalid_tag_pattern "invalid").
Proof.
  split_and!.
  - etrans; [apply (proj1 (X3_match_key_and_value _) "highway" "primary"); done|].
    by vm_compute.
  - etrans; [apply (proj1 (X3_match_key_and_value _) "highway" "*"); done|].
    by vm_compute.
  - etrans; [apply (proj1 (X3_match_key_and_value _) "highway" "primary"); done|].
    by vm_compute.
  - apply (proj2 (X3_match_key_and_value _) "invalid"); done.
Defined.

(** X4. A tag written with [__str__] is a pattern that the tag itself
    matches, and that parses back to the tag's key and value (to its key
    alone when the value is [*]), provided key and value are not empty, hold
    no line break, and the value holds no [=]. *)
Theorem X4_str_is_a_matching_pattern self :
  k self <> "" -> v self <> "" ->
  occurs Re.newline (k self) = false -> occurs Re.newline (v self) = false ->
  occurs "=" (v self) = false ->
  TagMethods.match_ self (TagMethods.__str__ self) = Ok true
  /\ Tag.parse_tag_pattern (TagMethods.__str__ self)
     = Ok (if decide (v self <> "*") then <["v" := v self]> {["k" := k self]}
           else {["k" := k self]}).
Proof.
  intros Hk Hv Hnlk Hnlv Heq. unfold TagMethods.__str__. split.
  - rewrite match_key_value by done. f_equal. apply bool_decide_eq_true. auto.
  - by apply parse_tag_pattern_key_value.
Qed.

Lemma X4_str_is_a_matching_pattern_witness :
  TagMethods.match_ {| element := 3; k := "name"; v := "Rue de la Paix" |}
    (TagMethods.__str__ {| element := 3; k := "name"; v := "Rue de la Paix" |}) = Ok true
  /\ Tag.parse_tag_pattern (TagMethods.__str__ {| element := 3; k := "name"; v := "Rue de la Paix" |})
     = Ok (<["v" := "Rue de la Paix"]> {["k" := "name"]}).
Proof.
  apply (X4_str_is_a_matching_pattern {| element := 3; k := "name"; v := "Rue de la Paix" |});
    done.
Defined.

(** ** The dict of an element's tags *)

Lemma foldl_insert_lookup (l : list (string * string)) : forall (d : pydict) key,
  foldl (fun d kv => <[kv.1 := kv.2]> d) d l !! key
  = match last (snd <$> filter (fun kv => kv.1 = key) l) with
    | Some value => Some value
    | None => d !! key
    end.
Proof.
  induction l as [|[key' value'] l IH]; intros d key; [done|]. simpl.
  rewrite IH. destruct (decide (key' = key)) as [->|Hne].
  - rewrite filter_cons_True by done.
    rewrite fmap_cons, last_cons, lookup_insert_eq. by destruct (last _).
  - rewrite filter_cons_False by done. by rewrite lookup_insert_ne.
Qed.

(** X5. [tags_dict] keeps one value per key: the value of the element's
    last tag with that key, and nothing for a key no tag has.  Tags of equal
    keys, which the parser stores side by side, collapse here. *)
Theorem X5_tags_dict_last_value db e key :
  tags_dict db e !! key
  = last (snd <$> filter (fun kv => kv.1 = key) (ORM.element_tags db e)).
Proof.
  unfold tags_dict. rewrite foldl_insert_lookup. rewrite lookup_empty.
  by destruct (last _).
Qed.

(** ** The first child that is not text *)

Lemma find_nontext children :
  match List.find (fun c => negb (Dom.isText c)) children with
  | Some child =>
      exists before after,
        children = before ++ child :: after
        /\ Forall (fun c => Dom.isText c = true) before
        /\ Dom.isText child = false
  | None => Forall (fun c => Dom.isText c = true) children
  end.
Proof.
  induction children as [|c children IH]; simpl; [done|].
  destruct (Dom.isText c) eqn:Hc; simpl.
  - destruct (List.find _ children) as [child|].
    + destruct IH as (before & after & -> & Hbefore & Hchild).
      exists (c :: before), after. split_and!; [done| |done]. by constructor.
    + by constructor.
  - exists [], children. by split_and!.
Qed.

(** X6. Of an element, [getFirstNontextChild] returns the child before
    which all children are text nodes and which is none itself (a comment
    is such a child), and [None] when every child is a text node; it never
    fails and stores nothing.  Of [None] it raises AttributeError. *)
Theorem X6_first_nontext_child element db :
  match element with
  | Some el =>
      exists result,
        getFirstNontextChild (Some el) db = (db, Ok result)
        /\ match result with
           | Some child =>
               exists before after,
                 Dom.childNodes el = before ++ child :: after
                 /\ Forall (fun c => Dom.isText c = true) before
                 /\ Dom.isText child = false
           | None => Forall (fun c => Dom.isText c = true) (Dom.childNodes el)
           end
  | None => getFirstNontextChild None db = (db, Raise no_childNodes)
  end.
Proof.
  destruct element as [el|]; [|done]. eexists. split; [reflexivity|].
  apply find_nontext.
Qed.

(** ** The registries of kinds *)

Lemma PARSER_MAP_None name :
  AbstractXMLParser.PARSER_MAP !! name = None <->
  name <> "node" /\ name <> "way" /\ name <> "relation".
Proof.
  unfold AbstractXMLParser.PARSER_MAP.
  rewrite !lookup_insert_None, lookup_singleton_None. intuition congruence.
Qed.

Lemma ELEMENT_TYPES_None name :
  AbstractXMLParser.ELEMENT_TYPES !! name = None <->
  name <> "node" /\ name <> "way" /\ name <> "relation".
Proof.
  unfold AbstractXMLParser.ELEMENT_TYPES.
  rewrite !lookup_insert_None, lookup_singleton_None. intuition congruence.
Qed.

Lemma transform_registered node name (klass : DomNode -> M nat) db :
  Dom.localName node = Some name ->
  AbstractXMLParser.PARSER_MAP !! name = Some klass ->
  AbstractXMLParser.transform (Some node) db = klass node db.
Proof.
  intros Hname Hklass. unfold AbstractXMLParser.transform,
    AbstractXMLParser.get_parser, AbstractXMLParser._dict_fetch.
  rewrite Hname. change (Some name ≫= _) with (AbstractXMLParser.PARSER_MAP !! name).
  by rewrite Hklass.
Qed.

(** X7. [transform] picks the parser by the node's local name, the tag
    name without its namespace prefix: a [node] is parsed as a Point, a
    [way] as a Path, a [relation] as a Group.  A node of any other name, and
    a node without a name such as a comment, is refused with the
    FileFormatError that quotes the name, and nothing is stored. *)
Theorem X7_transform_by_local_name node db :
  (Dom.localName node = Some "node" ->
   AbstractXMLParser.transform (Some node) db = NodeParser_parse node db)
  /\ (Dom.localName node = Some "way" ->
      AbstractXMLParser.transform (Some node) db = WayParser_parse node db)
  /\ (Dom.localName node = Some "relation" ->
      AbstractXMLParser.transform (Some node) db = RelationParser_parse node db)
  /\ (Dom.localName node <> Some "node" -> Dom.localName node <> Some "way" ->
      Dom.localName node <> Some "relation" ->
      AbstractXMLParser.transform (Some node) db
      = (db, Raise (unknown_member_type (Dom.localName node)))).
Proof.
  split_and!; try (intros H; by eapply transform_registered).
  intros Hn Hw Hr. unfold AbstractXMLParser.transform,
    AbstractXMLParser.get_parser, AbstractXMLParser._dict_fetch.
  destruct (Dom.localName node) as [name|]; [|done].
  change (Some name ≫= _) with (AbstractXMLParser.PARSER_MAP !! name).
  rewrite (proj2 (PARSER_MAP_None name)); [done|]. split_and!; congruence.
Qed.

Lemma X7_transform_by_local_name_witness :
  AbstractXMLParser.transform (Some (el "osm:node" [("id", "1"); ("lat", "10"); ("lon", "20")] []))
    empty_db
  = NodeParser_parse (el "osm:node" [("id", "1"); ("lat", "10"); ("lon", "20")] []) empty_db
  /\ AbstractXMLParser.transform (Some (el "bounds" [] [])) empty_db
     = (empty_db, Raise (unknown_member_type (Some "bounds")))
  /\ AbstractXMLParser.transform (Some (Comment "note")) empty_db
     = (empty_db, Raise (unknown_member_type None)).
Proof.
  split_and!.
  - by apply (proj1 (X7_transform_by_local_name _ _)).
  - by apply (proj2 (proj2 (proj2 (X7_transform_by_local_name (el "bounds" [] []) empty_db)))).
  - by apply (proj2 (proj2 (proj2 (X7_transform_by_local_name (Comment "note") empty_db)))).
Defined.

(** A registered parser first stores the row of its node, under the next
    free key, from the keyword arguments it read. *)
Lemma registered_parse_first_row name (klass : DomNode -> M nat) st tag attrs children db db' e :
  AbstractXMLParser.PARSER_MAP !! name = Some klass ->
  AbstractXMLParser.ELEMENT_TYPES !! name = Some st ->
  klass (Element tag attrs children) db = (db', Ok e) ->
  exists kwargs,
    e = length (elements db)
    /\ elements db' !! e = Some (ORM.OSMElement_of_kwargs st kwargs)
    /\ kwargs !! "osmid" = osmid_of attrs
    /\ (forall key, key <> "osmid" -> key <> "lat" -> key <> "lon" -> kwargs !! key = None).
Proof.
  intros Hklass Hst H.
  apply PARSER_MAP_lookup in Hklass as [[-> ->]|[[-> ->]|[-> ->]]];
    [change (Some NODE = Some st) in Hst|change (Some WAY = Some st) in Hst
    |change (Some RELATION = Some st) in Hst]; injection Hst as <-.
  - apply NodeParser_parse_ok in H as (la & lo & kvs & _ & _ & _ & _ & -> & ->).
    exists (<["lat" := la]> (<["lon" := lo]> (basic_of attrs))). split_and!; [done| | |].
    + rewrite elements_add_tags, OSMElement_of_kwargs_node. unfold add_element. simpl.
      by rewrite lookup_app_r, Nat.sub_diag.
    + rewrite !lookup_insert_ne by done. apply basic_of_osmid.
    + intros key ? ? ?. rewrite !lookup_insert_ne by done. by apply basic_of_other.
  - unfold WayParser_parse in H.
    erewrite bind_ok in H by apply get_basic_attributes_Element.
    create_ok H.
    assert (grows 0 (add_element (ORM.OSMElement_of_kwargs WAY (basic_of attrs)) db) db') as Hg1.
    { destruct (bind _ _ _) as [db1 r] eqn:Hrest in H. injection H as -> ->.
      eapply (keeps_run 0 _ (fun _ => True)); [|lia|exact Hrest].
      eapply keeps_bind; [apply pure_keeps; auto with parsers|]; intros nds _.
      eapply keeps_bind.
      { apply keeps_for_enumerate. intros i nd _.
        eapply keeps_bind; [apply keeps_NodeParser_parse|]. intros pk _.
        apply keeps_WayNode_create. }
      intros _ _. eapply keeps_bind; [apply keeps_parse_tags; lia|]. intros _ _.
      by apply keeps_ret. }
    bind_inv H. bind_inv H. bind_inv H. injection H as <- <-.
    exists (basic_of attrs). split_and!; [done| |apply basic_of_osmid|].
    + eapply grows_lookup; [exact Hg1|]. unfold add_element. simpl.
      by rewrite lookup_app_r, Nat.sub_diag.
    + intros key ? _ _. by apply basic_of_other.
  - rewrite RelationParser_parse_unfold in H.
    erewrite bind_ok in H by apply get_basic_attributes_Element.
    create_ok H.
    assert (grows 0 (add_element (ORM.OSMElement_of_kwargs RELATION (basic_of attrs)) db) db') as Hg1.
    { destruct (bind _ _ _) as [db1 r] eqn:Hrest in H. injection H as -> ->.
      eapply (keeps_run 0 _ (fun _ => True)); [|lia|exact Hrest].
      eapply keeps_bind; [apply pure_keeps; auto with parsers|]; intros member_els _.
      eapply keeps_bind.
      { apply keeps_for_enumerate. intros i member _.
        apply keeps_RelationMemberParser_parse_with, keeps_RelationParser_parse. }
      intros _ _. eapply keeps_bind; [apply keeps_parse_tags; lia|]. intros _ _.
      by apply keeps_ret. }
    bind_inv H. bind_inv H. bind_inv H. injection H as <- <-.
    exists (basic_of attrs). split_and!; [done| |apply basic_of_osmid|].
    + eapply grows_lookup; [exact Hg1|]. unfold add_element. simpl.
      by rewrite lookup_app_r, Nat.sub_diag.
    + intros key ? _ _. by apply basic_of_other.
Qed.

Lemma dict_fetch_Ok {V : Type} (_dict : gmap string V) name db db' klass :
  AbstractXMLParser._dict_fetch _dict (Some name) db = (db', Ok klass)
  <-> _dict !! name = Some klass /\ db' = db.
Proof.
  unfold AbstractXMLParser._dict_fetch. simpl. destruct (_dict !! name) as [klass'|]; simpl.
  - split.
    + by intros [= <- <-].
    + intros (H & ->). by injection H as <-.
  - split; [done|by intros [? _]].
Qed.

(** X8. The two registries agree: [get_parser] and [get_model] answer for
    the same names, and the element that the parser of a name returns is a
    row of the model of that name. *)
Theorem X8_registries_agree name db :
  ((exists klass, AbstractXMLParser.get_parser (Some name) db = (db, Ok klass))
   <-> (exists st, AbstractXMLParser.get_model (Some name) db = (db, Ok st)))
  /\ (forall (klass : DomNode -> M nat) st tag attrs children db1 db' e,
        AbstractXMLParser.get_parser (Some name) db = (db, Ok klass) ->
        AbstractXMLParser.get_model (Some name) db = (db, Ok st) ->
        klass (Element tag attrs children) db1 = (db', Ok e) ->
        subtype <$> elements db' !! e = Some st).
Proof.
  unfold AbstractXMLParser.get_parser, AbstractXMLParser.get_model. split.
  - transitivity (is_Some (AbstractXMLParser.PARSER_MAP !! name)).
    { split.
      - intros [klass [H _]%dict_fetch_Ok]. by eexists.
      - intros [klass H]. exists klass. by apply dict_fetch_Ok. }
    transitivity (is_Some (AbstractXMLParser.ELEMENT_TYPES !! name)).
    { rewrite <- !not_eq_None_Some. by rewrite PARSER_MAP_None, ELEMENT_TYPES_None. }
    split.
    + intros [st H]. exists st. by apply dict_fetch_Ok.
    + intros [st [H _]%dict_fetch_Ok]. by eexists.
  - intros klass st tag attrs children db1 db' e [Hklass _]%dict_fetch_Ok
      [Hst _]%dict_fetch_Ok H.
    destruct (registered_parse_first_row _ _ _ _ _ _ _ _ _ Hklass Hst H)
      as (kwargs & _ & -> & _).
    done.
Qed.

Lemma X8_registries_agree_witness :
  subtype <$> elements (WayParser_parse way_with_two_nd empty_db).1 !! 0 = Some WAY.
Proof.
  apply (proj2 (X8_registries_agree "way" empty_db) WayParser_parse WAY "way"
           (list_to_map [("id", "7")])
           [el "nd" [("ref", "1"); ("lat", "10"); ("lon", "20")] [];
            el "nd" [("ref", "2"); ("lat", "11"); ("lon", "21")] [];
            el "tag" [("k", "highway"); ("v", "primary")] []]
           empty_db _ 0); [reflexivity|reflexivity|by vm_compute].
Defined.

(** X16. The element a registered parser returns is the first row it
    stores, under the next free key, before the rows of the nodes or members
    below it.  Of the node's attributes the row keeps the identifier, [id]
    and else [ref]: version, timestamp, uid, user, changeset and visible are
    not read, and the row has their defaults whatever the node says. *)
Theorem X16_first_row_keeps_identifier_only name (klass : DomNode -> M nat)
    tag attrs children db db' e :
  AbstractXMLParser.PARSER_MAP !! name = Some klass ->
  klass (Element tag attrs children) db = (db', Ok e) ->
  e = length (elements db)
  /\ exists row,
       elements db' !! e = Some row
       /\ osmid row = match attrs !! "id" with
                      | Some value => Some value
                      | None => attrs !! "ref"
                      end
       /\ version row = None /\ timestamp row = None /\ uid row = None
       /\ user row = "" /\ changeset row = None /\ visible row = true.
Proof.
  intros Hklass H.
  assert (exists st, AbstractXMLParser.ELEMENT_TYPES !! name = Some st) as [st Hst].
  { apply PARSER_MAP_lookup in Hklass as [[-> _]|[[-> _]|[-> _]]]; by eexists. }
  destruct (registered_parse_first_row _ _ _ _ _ _ _ _ _ Hklass Hst H)
    as (kwargs & He & Hrow & Hid & Hother).
  split; [done|]. eexists. split; [exact Hrow|]. simpl.
  rewrite (Hother "version"), (Hother "timestamp"), (Hother "uid"), (Hother "user"),
    (Hother "changeset") by done.
  by rewrite Hid.
Qed.

Lemma X16_first_row_keeps_identifier_only_witness :
  0 = length (elements empty_db)
  /\ exists row,
       elements (NodeParser_parse
                   (el "node" [("id", "2"); ("version", "3"); ("user", "bob");
                               ("visible", "false"); ("lat", "10"); ("lon", "20")] [])
                   empty_db).1 !! 0 = Some row
       /\ osmid row = Some "2"
       /\ version row = None /\ timestamp row = None /\ uid row = None
       /\ user row = "" /\ changeset row = None /\ visible row = true.
Proof.
  assert (NodeParser_parse
            (el "node" [("id", "2"); ("version", "3"); ("user", "bob");
                        ("visible", "false"); ("lat", "10"); ("lon", "20")] []) empty_db
          = ((NodeParser_parse
                (el "node" [("id", "2"); ("version", "3"); ("user", "bob");
                            ("visible", "false"); ("lat", "10"); ("lon", "20")] [])
                empty_db).1, Ok 0)) as H by (by vm_compute).
  destruct (X16_first_row_keeps_identifier_only "node" NodeParser_parse "node"
              (list_to_map [("id", "2"); ("version", "3"); ("user", "bob");
                            ("visible", "false"); ("lat", "10"); ("lon", "20")]) []
              empty_db _ 0 eq_refl H) as [He (row & Hrow & Hid & Hrest)].
  split; [exact He|]. exists row. split; [exact Hrow|]. split; [exact Hid|exact Hrest].
Defined.

(** ** The type of a member *)

(** X9. A member is refused on its type before anything is stored: without
    a type attribute the parse stops on [KeyError type]; with a type that is
    none of node, way and relation it stops on the FileFormatError that
    quotes the type.  The role is not looked at by then. *)
Theorem X9_member_type_checked_first tag attrs children relation order db :
  (attrs !! "type" = None ->
   RelationMemberParser_parse (Element tag attrs children) relation order db
   = (db, Raise (KeyError "type")))
  /\ (forall _type,
        attrs !! "type" = Some _type ->
        _type <> "node" -> _type <> "way" -> _type <> "relation" ->
        RelationMemberParser_parse (Element tag attrs children) relation order db
        = (db, Raise (unknown_member_type (Some _type)))).
Proof.
  unfold RelationMemberParser_parse, RelationMemberParser_parse_with. split.
  - intros Htype. by erewrite bind_raise by (by apply attribute_None).
  - intros _type Htype Hn Hw Hr.
    erewrite bind_ok by (by apply attribute_Some).
    by rewrite !decide_False by done.
Qed.

Lemma X9_member_type_checked_first_witness :
  RelationMemberParser_parse (el "member" [("ref", "5"); ("role", "stop")] []) 3 7 empty_db
  = (empty_db, Raise (KeyError "type"))
  /\ RelationMemberParser_parse (el "member" [("type", "area"); ("ref", "5")] []) 3 7 empty_db
     = (empty_db, Raise (unknown_member_type (Some "area"))).
Proof.
  split.
  - by apply (proj1 (X9_member_type_checked_first "member"
                       (list_to_map [("ref", "5"); ("role", "stop")]) [] 3 7 empty_db)).
  - by apply (proj2 (X9_member_type_checked_first "member"
                       (list_to_map [("type", "area"); ("ref", "5")]) [] 3 7 empty_db) "area").
Defined.

(** ** [parse_bounds] *)

(** The first of the four attributes that a bounds element lacks. *)
Lemma BoundsParser_parse_Element tag attrs children db :
  BoundsParser.parse (Element tag attrs children) db
  = (db, Raise (match List.find (fun k => bool_decide (attrs !! k = None))
                        BoundsParser.BOUNDS_ATTRS with
                | Some k => KeyError k
                | None => NameError "name 'Bounds' is not defined"
                end)).
Proof.
  unfold BoundsParser.parse, BoundsParser.BOUNDS_ATTRS, attribute.
  cbn [Dom.attributes for_each List.find].
  destruct (attrs !! "minlat"); [|reflexivity].
  destruct (attrs !! "minlon"); [|reflexivity].
  destruct (attrs !! "maxlat"); [|reflexivity].
  destruct (attrs !! "maxlon"); reflexivity.
Qed.

(** X10. [parse_bounds] never gives a Bounds and stores nothing.  On an
    element it returns [None] exactly when no bounds element stands below
    it; otherwise it fails on the first bounds element: with the KeyError of
    the first of minlat, minlon, maxlat, maxlon that is missing, and with
    NameError, [Bounds] not being imported, when all four are there. *)
Theorem X10_parse_bounds_never_a_bounds node db :
  (parse_bounds node db).1 = db
  /\ (forall b, (parse_bounds node db).2 <> Ok (Some b))
  /\ (is_Some (Dom.tagName node) ->
      ((parse_bounds node db).2 = Ok None <-> Dom.elements_by_tagName "bounds" node = []))
  /\ (forall bounds_tag battrs,
        head (Dom.elements_by_tagName "bounds" node) = Some bounds_tag ->
        Dom.attributes bounds_tag = Some battrs ->
        (parse_bounds node db).2
        = Raise (match List.find (fun k => bool_decide (battrs !! k = None))
                         BoundsParser.BOUNDS_ATTRS with
                 | Some k => KeyError k
                 | None => NameError "name 'Bounds' is not defined"
                 end)).
Proof.
  destruct node as [tag attrs children|data|data];
    try by (split_and!; try done; by intros []).
  unfold parse_bounds. erewrite bind_ok by apply getElementsByTagName_Element.
  destruct (Dom.elements_by_tagName "bounds" _) as [|bounds_tag rest] eqn:Hb.
  { by split_and!. }
  assert (exists btag battrs bchildren, bounds_tag = Element btag battrs bchildren)
    as (btag & battrs & bchildren & ->).
  { assert (Dom.tag_matches "bounds" bounds_tag = true) as Hm.
    { eapply elements_by_tagName_are_elements. rewrite Hb. by left. }
    destruct bounds_tag; [by eauto|done..]. }
  erewrite bind_raise by apply BoundsParser_parse_Element.
  split_and!; try done.
  by intros ? ? [= <-] [= <-].
Qed.

Lemma X10_parse_bounds_never_a_bounds_witness :
  (parse_bounds point_with_bounds empty_db).2 = Raise (NameError "name 'Bounds' is not defined")
  /\ (parse_bounds (el "node" [] [el "bounds" [("minlat", "9"); ("maxlat", "11")] []]) empty_db).2
     = Raise (KeyError "minlon")
  /\ (parse_bounds (point "1" "10" "20") empty_db).2 = Ok None.
Proof.
  split_and!.
  - etrans.
    { by apply (proj2 (proj2 (proj2 (X10_parse_bounds_never_a_bounds point_with_bounds empty_db)))
                 (el "bounds" [("minlat", "9"); ("minlon", "19"); ("maxlat", "11"); ("maxlon", "21")] [])
                 (list_to_map [("minlat", "9"); ("minlon", "19"); ("maxlat", "11"); ("maxlon", "21")])). }
    by vm_compute.
  - etrans.
    { by apply (proj2 (proj2 (proj2 (X10_parse_bounds_never_a_bounds
                   (el "node" [] [el "bounds" [("minlat", "9"); ("maxlat", "11")] []]) empty_db)))
                 (el "bounds" [("minlat", "9"); ("maxlat", "11")] [])
                 (list_to_map [("minlat", "9"); ("maxlat", "11")])). }
    by vm_compute.
  - by apply (proj1 (proj2 (proj2 (X10_parse_bounds_never_a_bounds (point "1" "10" "20") empty_db)))).
Defined.

(** ** Changes of kind create and modify *)

Lemma find_nontext_first before child after :
  Forall (fun c => Dom.isText c = true) before -> Dom.isText child = false ->
  List.find (fun c => negb (Dom.isText c)) (before ++ child :: after) = Some child.
Proof.
  intros Hbefore Hchild. induction Hbefore as [|c before Hc _ IH]; simpl.
  - by rewrite Hchild.
  - by rewrite Hc.
Qed.

Lemma find_nontext_none children :
  Forall (fun c => Dom.isText c = true) children ->
  List.find (fun c => negb (Dom.isText c)) children = None.
Proof. induction 1 as [|c children Hc _ IH]; simpl; [done|by rewrite Hc]. Qed.

(** X11. A change without a type attribute is refused with [KeyError type].
    A change of kind create parses its first child that is not text, and
    nothing after it: the Change gets the element as new, and an error of
    that parse is the error of the change.  Without such a child the parse
    stops on an AttributeError and stores nothing. *)
Theorem X11_create_parses_first_child tag attrs children db :
  (attrs !! "type" = None ->
   ActionParser.parse (Element tag attrs children) db = (db, Raise (KeyError "type")))
  /\ (attrs !! "type" = Some "create" ->
      Forall (fun c => Dom.isText c = true) children ->
      ActionParser.parse (Element tag attrs children) db = (db, Raise no_localName))
  /\ (forall before child after db1 r,
        attrs !! "type" = Some "create" ->
        children = before ++ child :: after ->
        Forall (fun c => Dom.isText c = true) before -> Dom.isText child = false ->
        AbstractXMLParser.transform (Some child) db = (db1, r) ->
        ActionParser.parse (Element tag attrs children) db
        = match r with
          | Ok e => ORM.Action_create {| type := "create"; new := Some e; old := None |} db1
          | Raise err => (db1, Raise err)
          end).
Proof.
  unfold ActionParser.parse. split_and!.
  - intros Htype. by erewrite bind_raise by (by apply attribute_None).
  - intros Htype Htext. erewrite bind_ok by (by apply attribute_Some).
    rewrite decide_True by done.
    erewrite bind_raise; [done|]. erewrite bind_ok; cycle 1.
    { unfold getFirstNontextChild. simpl. by rewrite find_nontext_none. }
    done.
  - intros before child after db1 r Htype -> Hbefore Hchild Hr.
    erewrite bind_ok by (by apply attribute_Some).
    rewrite decide_True by done.
    assert (getFirstNontextChild (Some (Element tag attrs (before ++ child :: after))) db
            = (db, Ok (Some child))) as Hfirst.
    { unfold getFirstNontextChild. simpl. by rewrite find_nontext_first. }
    destruct r as [e|err].
    + erewrite bind_ok; cycle 1.
      { erewrite bind_ok by exact Hfirst. by erewrite bind_ok by exact Hr. }
      done.
    + erewrite bind_raise; [done|]. erewrite bind_ok by exact Hfirst.
      by erewrite bind_raise by exact Hr.
Qed.

Lemma X11_create_parses_first_child_witness :
  ActionParser.parse (el "action" [] [point "1" "10" "20"]) empty_db
  = (empty_db, Raise (KeyError "type"))
  /\ ActionParser.parse (el "action" [("type", "create")] [Text " "]) empty_db
     = (empty_db, Raise no_localName)
  /\ ActionParser.parse
       (el "action" [("type", "create")] [Text " "; point "1" "10" "20"; point "2" "11" "21"])
       empty_db
     = ORM.Action_create {| type := "create"; new := Some 0; old := None |}
         (NodeParser_parse (point "1" "10" "20") empty_db).1
  /\ ActionParser.parse (el "action" [("type", "create")] [Comment "first"; point "1" "10" "20"])
       empty_db
     = (empty_db, Raise (unknown_member_type None)).
Proof.
  split_and!.
  - by apply (proj1 (X11_create_parses_first_child "action" ∅ [point "1" "10" "20"] empty_db)).
  - apply (proj1 (proj2 (X11_create_parses_first_child "action"
                           (list_to_map [("type", "create")]) [Text " "] empty_db))).
    + reflexivity.
    + by repeat constructor.
  - apply (proj2 (proj2 (X11_create_parses_first_child "action"
                           (list_to_map [("type", "create")])
                           [Text " "; point "1" "10" "20"; point "2" "11" "21"] empty_db))
             [Text " "] (point "1" "10" "20") [point "2" "11" "21"]
             (NodeParser_parse (point "1" "10" "20") empty_db).1 (Ok 0)).
    + reflexivity.
    + reflexivity.
    + by repeat constructor.
    + reflexivity.
    + by vm_compute.
  - apply (proj2 (proj2 (X11_create_parses_first_child "action"
                           (list_to_map [("type", "create")])
                           [Comment "first"; point "1" "10" "20"] empty_db))
             [] (Comment "first") [point "1" "10" "20"] empty_db
             (Raise (unknown_member_type None))).
    + reflexivity.
    + reflexivity.
    + constructor.
    + reflexivity.
    + reflexivity.
Defined.

Lemma _get_old_new_both tag attrs children old_wrapper new_wrapper db :
  head (Dom.elements_by_tagName "old" (Element tag attrs children)) = Some old_wrapper ->
  head (Dom.elements_by_tagName "new" (Element tag attrs children)) = Some new_wrapper ->
  ActionParser._get_old_new (Element tag attrs children) db
  = (db, Ok (first_nontext old_wrapper, first_nontext new_wrapper)).
Proof.
  intros Hold Hnew. unfold ActionParser._get_old_new.
  erewrite bind_ok by (by apply _get_old_new_item_Some).
  by erewrite bind_ok by (by apply _get_old_new_item_Some).
Qed.

(** X12. A change of kind modify with an old wrapper.  Without a new
    wrapper the parse stops on the AttributeError of reading [childNodes] of
    [None] before anything is parsed.  With both wrappers, the first child
    that is not text of each is parsed, the old one first and the new one
    from the database the old one leaves; a wrapper without such a child
    gives an absent element, so two empty wrappers give a Change with neither
    old nor new.  When the old element fails to parse, the new one is not
    parsed. *)
Theorem X12_modify_old_then_new tag attrs children db old_wrapper :
  attrs !! "type" = Some "modify" ->
  head (Dom.elements_by_tagName "old" (Element tag attrs children)) = Some old_wrapper ->
  (head (Dom.elements_by_tagName "new" (Element tag attrs children)) = None ->
   ActionParser.parse (Element tag attrs children) db = (db, Raise no_childNodes))
  /\ (forall new_wrapper,
        head (Dom.elements_by_tagName "new" (Element tag attrs children)) = Some new_wrapper ->
        (first_nontext old_wrapper = None -> first_nontext new_wrapper = None ->
         ActionParser.parse (Element tag attrs children) db
         = ORM.Action_create {| type := "modify"; new := None; old := None |} db)
        /\ (forall n db2 en,
              first_nontext old_wrapper = None -> first_nontext new_wrapper = Some n ->
              AbstractXMLParser.transform (Some n) db = (db2, Ok en) ->
              ActionParser.parse (Element tag attrs children) db
              = ORM.Action_create {| type := "modify"; new := Some en; old := None |} db2)
        /\ (forall o db1 eo,
              first_nontext old_wrapper = Some o -> first_nontext new_wrapper = None ->
              AbstractXMLParser.transform (Some o) db = (db1, Ok eo) ->
              ActionParser.parse (Element tag attrs children) db
              = ORM.Action_create {| type := "modify"; new := None; old := Some eo |} db1)
        /\ (forall o n db1 eo db2 en,
              first_nontext old_wrapper = Some o -> first_nontext new_wrapper = Some n ->
              AbstractXMLParser.transform (Some o) db = (db1, Ok eo) ->
              AbstractXMLParser.transform (Some n) db1 = (db2, Ok en) ->
              ActionParser.parse (Element tag attrs children) db
              = ORM.Action_create {| type := "modify"; new := Some en; old := Some eo |} db2)
        /\ (forall o db1 err,
              first_nontext old_wrapper = Some o ->
              AbstractXMLParser.transform (Some o) db = (db1, Raise err) ->
              ActionParser.parse (Element tag attrs children) db = (db1, Raise err))).
Proof.
  intros Htype Hold. unfold ActionParser.parse.
  erewrite bind_ok by (by apply attribute_Some).
  rewrite decide_False, decide_True by done. split.
  - intros Hnew. erewrite bind_raise; [done|]. erewrite bind_raise; [done|].
    unfold ActionParser._get_old_new.
    erewrite bind_ok by (by apply _get_old_new_item_Some).
    erewrite bind_raise; [done|]. by apply _get_old_new_item_None.
  - intros new_wrapper Hnew.
    assert (forall rest : option DomNode * option DomNode -> M (option nat * option nat),
              bind (ActionParser._get_old_new (Element tag attrs children)) rest db
              = rest (first_nontext old_wrapper, first_nontext new_wrapper) db) as Htags.
    { intros rest. by erewrite bind_ok by (by apply _get_old_new_both). }
    split_and!.
    + intros Ho Hn. erewrite bind_ok; cycle 1.
      { rewrite Htags. cbn [fst snd]. rewrite Ho, Hn. reflexivity. }
      done.
    + intros n db2 en Ho Hn Htn. erewrite bind_ok; cycle 1.
      { rewrite Htags. cbn [fst snd]. rewrite Ho, Hn. rewrite bind_ret_l.
        erewrite bind_ok; cycle 1.
        { by erewrite bind_ok by exact Htn. }
        reflexivity. }
      done.
    + intros o db1 eo Ho Hn Hto. erewrite bind_ok; cycle 1.
      { rewrite Htags. cbn [fst snd]. rewrite Ho, Hn.
        erewrite bind_ok; cycle 1.
        { by erewrite bind_ok by exact Hto. }
        reflexivity. }
      done.
    + intros o n db1 eo db2 en Ho Hn Hto Htn. erewrite bind_ok; cycle 1.
      { rewrite Htags. cbn [fst snd]. rewrite Ho, Hn.
        erewrite bind_ok; cycle 1.
        { by erewrite bind_ok by exact Hto. }
        erewrite bind_ok; cycle 1.
        { by erewrite bind_ok by exact Htn. }
        reflexivity. }
      done.
    + intros o db1 err Ho Hto. erewrite bind_raise; [done|].
      rewrite Htags. cbn [fst snd]. rewrite Ho.
      erewrite bind_raise; [done|]. by erewrite bind_raise by exact Hto.
Qed.

Lemma X12_modify_old_then_new_witness :
  ActionParser.parse modify_old_only empty_db = (empty_db, Raise no_childNodes)
  /\ ActionParser.parse modify_empty_wrappers empty_db
     = ORM.Action_create {| type := "modify"; new := None; old := None |} empty_db
  /\ ActionParser.parse modify_old_new empty_db
     = ORM.Action_create {| type := "modify"; new := Some 1; old := Some 0 |}
         (NodeParser_parse (point "2" "11" "21")
            (NodeParser_parse (point "2" "10" "20") empty_db).1).1.
Proof.
  split_and!.
  - pose proof (X12_modify_old_then_new "action" (list_to_map [("type", "modify")])
                  [el "old" [] [point "2" "10" "20"]] empty_db
                  (el "old" [] [point "2" "10" "20"]) eq_refl eq_refl) as [H _].
    by apply H.
  - pose proof (X12_modify_old_then_new "action" (list_to_map [("type", "modify")])
                  [el "old" [] []; el "new" [] [Text " "]] empty_db
                  (el "old" [] []) eq_refl eq_refl) as [_ H].
    by apply (H (el "new" [] [Text " "]) eq_refl).
  - pose proof (X12_modify_old_then_new "action" (list_to_map [("type", "modify")])
                  [el "old" [] [Text " "; point "2" "10" "20"];
                   el "new" [] [Text " "; point "2" "11" "21"]] empty_db
                  (el "old" [] [Text " "; point "2" "10" "20"]) eq_refl eq_refl) as [_ H].
    destruct (H (el "new" [] [Text " "; point "2" "11" "21"]) eq_refl) as (_ & _ & _ & H' & _).
    apply (H' (point "2" "10" "20") (point "2" "11" "21")
              (NodeParser_parse (point "2" "10" "20") empty_db).1 0).
    + reflexivity.
    + reflexivity.
    + by vm_compute.
    + by vm_compute.
Defined.

(** ** A document that fails to parse *)

Lemma for_each_raise {A B : Type} (body : A -> M B) xs : forall db db' e,
  for_each xs body db = (db', Raise e) ->
  exists x dbi, x ∈ xs /\ body x dbi = (db', Raise e).
Proof.
  induction xs as [|x xs IH]; intros db db' e H; simpl in H; [done|].
  unfold bind at 1 in H. destruct (body x db) as [db1 [y|e1]] eqn:Hx.
  - unfold bind at 1 in H. destruct (for_each xs body db1) as [db2 [ys|e2]] eqn:Hxs; [done|].
    injection H as -> ->. destruct (IH _ _ _ Hxs) as (x' & dbi & Hin & Hx').
    exists x', dbi. split; [by right|done].
  - injection H as -> ->. exists x, db. split; [by left|done].
Qed.

(** X13. A root whose tag name, prefix included, is not [osm] is refused
    before anything is stored.  Under an [osm] root the Diff is stored
    first: when the parse then fails, the error is that of a change entry,
    and the Diff stays in the database without any Change, beside the
    elements and Changes stored before the failure. *)
Theorem X13_failed_document tag attrs children db :
  (tag <> "osm" ->
   AdiffParser.parse (Element tag attrs children) db
   = (db, Raise (FileFormatError "That does not look like an adiff file…")))
  /\ (forall db' err,
        tag = "osm" ->
        AdiffParser.parse (Element tag attrs children) db = (db', Raise err) ->
        diffs db' = diffs db ++ [{| actions := [] |}]
        /\ elements db `prefix_of` elements db'
        /\ action_table db `prefix_of` action_table db'
        /\ exists action dbi,
             action ∈ Dom.elements_by_tagName "action" (Element tag attrs children)
             /\ ActionParser.parse action dbi = (db', Raise err)).
Proof.
  unfold AdiffParser.parse. split.
  - intros Htag. erewrite bind_ok by reflexivity. by rewrite decide_True.
  - intros db' err -> H. erewrite bind_ok in H by reflexivity.
    rewrite decide_False in H by (by intros []).
    erewrite bind_ok in H by reflexivity.
    erewrite bind_ok in H by apply getElementsByTagName_Element.
    unfold bind at 1 in H.
    destruct (for_each _ ActionParser.parse _) as [db1 [pks|e1]] eqn:Hloop; [done|].
    injection H as -> ->.
    assert (grows 0 (ORM.Diff_create db).1 db') as [He _ Ha Hd _].
    { eapply (keeps_run 0 _ (fun _ => True)); [|lia|exact Hloop].
      apply keeps_for_each. intros; apply keeps_ActionParser_parse. }
    split_and!; [done..|]. by eapply for_each_raise.
Qed.

Lemma X13_failed_document_witness :
  AdiffParser.parse (el "osm:osm" [] [el "action" [("type", "remove")] []]) empty_db
  = (empty_db, Raise (FileFormatError "That does not look like an adiff file…"))
  /\ (AdiffParser.parse adiff_create_then_empty_modify empty_db).2 = Raise no_childNodes
  /\ diffs (AdiffParser.parse adiff_create_then_empty_modify empty_db).1
     = diffs empty_db ++ [{| actions := [] |}]
  /\ length (action_table (AdiffParser.parse adiff_create_then_empty_modify empty_db).1) = 1.
Proof.
  split_and!.
  - by apply (proj1 (X13_failed_document "osm:osm" ∅ [el "action" [("type", "remove")] []] empty_db)).
  - by vm_compute.
  - apply (proj2 (X13_failed_document "osm" ∅
                    [el "action" [("type", "create")] [point "1" "10" "20"];
                     el "action" [("type", "modify")] []] empty_db)
             (AdiffParser.parse adiff_create_then_empty_modify empty_db).1 no_childNodes);
      [reflexivity|by vm_compute].
  - by vm_compute.
Defined.

(** ** The tables only grow *)

Lemma appends_refl db : appends db db.
Proof. by split. Qed.

Lemma appends_trans db db1 db2 : appends db db1 -> appends db1 db2 -> appends db db2.
Proof. intros [] []. split; by etrans. Qed.

Lemma appending_ret {A : Type} (a : A) : appending (ret a).
Proof. intros db. apply appends_refl. Qed.

Lemma appending_raise {A : Type} e : appending (raise (A:=A) e).
Proof. intros db. apply appends_refl. Qed.

Lemma appending_pure {A : Type} (m : M A) : pure m -> appending m.
Proof. intros Hm db. rewrite Hm. apply appends_refl. Qed.

Lemma appending_bind {A B : Type} (m : M A) (f : A -> M B) :
  appending m -> (forall a, appending (f a)) -> appending (bind m f).
Proof.
  intros Hm Hf db. unfold bind. specialize (Hm db).
  destruct (m db) as [db1 [a|e]]; simpl in *; [|done].
  eapply appends_trans; [done|apply Hf].
Qed.

Lemma appending_for_each {A B : Type} (xs : list A) (body : A -> M B) :
  (forall x, appending (body x)) -> appending (for_each xs body).
Proof.
  intros Hbody. induction xs as [|x xs IH]; simpl; [apply appending_ret|].
  apply appending_bind; [done|]. intros y.
  apply appending_bind; [done|]. intros ys. apply appending_ret.
Qed.

Lemma appending_for_enumerate {A B : Type} (xs : list A) index (body : nat -> A -> M B) :
  (forall i x, appending (body i x)) -> appending (for_enumerate xs index body).
Proof.
  intros Hbody. revert index. induction xs as [|x xs IH]; intros index; simpl.
  - apply appending_ret.
  - apply appending_bind; [done|]. intros _. apply IH.
Qed.

Lemma appending_OSMElement_create st kwargs : appending (ORM.OSMElement_create st kwargs).
Proof.
  intros db. destruct (OSMElement_create_cases st kwargs db) as [(e & _ & ->)|[_ ->]].
  - apply appends_refl.
  - split; simpl; try done. by apply prefix_app_r.
Qed.

Lemma appending_Tag_create row : appending (ORM.Tag_create row).
Proof. intros db. split; simpl; try done. by apply prefix_app_r. Qed.

Lemma appending_WayNode_create row : appending (ORM.WayNode_create row).
Proof. intros db. split; simpl; try done. by apply prefix_app_r. Qed.

Lemma appending_RelationMember_create row : appending (ORM.RelationMember_create row).
Proof. intros db. split; simpl; try done. by apply prefix_app_r. Qed.

Lemma appending_Action_create row : appending (ORM.Action_create row).
Proof. intros db. split; simpl; try done. by apply prefix_app_r. Qed.

Lemma appending_parse_tags node e : appending (AbstractOSMElementParser.parse_tags node e).
Proof.
  apply appending_bind; [apply appending_pure; auto with parsers|]. intros tag_els.
  apply appending_for_each. intros tag_el.
  do 2 (apply appending_bind; [apply appending_pure; auto with parsers|]; intros ?).
  apply appending_Tag_create.
Qed.

Lemma appending_NodeParser_parse node : appending (NodeParser_parse node).
Proof.
  unfold NodeParser_parse.
  do 3 (apply appending_bind; [apply appending_pure; auto with parsers|]; intros ?).
  apply appending_bind; [apply appending_OSMElement_create|]. intros pk.
  apply appending_bind; [apply appending_parse_tags|]. intros _. apply appending_ret.
Qed.

Lemma appending_WayParser_parse node : appending (WayParser_parse node).
Proof.
  unfold WayParser_parse.
  apply appending_bind; [apply appending_pure; auto with parsers|]; intros basic.
  apply appending_bind; [apply appending_OSMElement_create|]. intros w.
  apply appending_bind; [apply appending_pure; auto with parsers|]; intros nds.
  apply appending_bind.
  { apply appending_for_enumerate. intros i nd.
    apply appending_bind; [apply appending_NodeParser_parse|]. intros pk.
    apply appending_WayNode_create. }
  intros _. apply appending_bind; [apply appending_parse_tags|]. intros _.
  apply appending_ret.
Qed.

Lemma appending_RelationMemberParser_parse_with rec node relation order :
  appending (rec node) ->
  appending (RelationMemberParser_parse_with rec node relation order).
Proof.
  intros Hrec. unfold RelationMemberParser_parse_with.
  apply appending_bind; [apply appending_pure; auto with parsers|]; intros _type.
  apply appending_bind.
  { repeat case_decide;
      auto using appending_NodeParser_parse, appending_WayParser_parse, appending_raise. }
  intros element.
  apply appending_bind; [apply appending_pure; auto with parsers|]; intros role.
  apply appending_RelationMember_create.
Qed.

Lemma appending_RelationParser_parse_rec depth : forall node,
  appending (RelationParser_parse_rec depth node).
Proof.
  induction depth as [|depth IH]; intros node; simpl; [apply appending_raise|].
  apply appending_bind; [apply appending_pure; auto with parsers|]; intros basic.
  apply appending_bind; [apply appending_OSMElement_create|]. intros r.
  apply appending_bind; [apply appending_pure; auto with parsers|]; intros member_els.
  apply appending_bind.
  { apply appending_for_enumerate. intros i member.
    apply appending_RelationMemberParser_parse_with, IH. }
  intros _. apply appending_bind; [apply appending_parse_tags|]. intros _.
  apply appending_ret.
Qed.

Lemma appending_RelationParser_parse node : appending (RelationParser_parse node).
Proof. apply appending_RelationParser_parse_rec. Qed.

Lemma appending_transform node : appending (AbstractXMLParser.transform node).
Proof.
  destruct node as [node|]; simpl; [|apply appending_raise].
  unfold AbstractXMLParser.get_parser, AbstractXMLParser._dict_fetch, bind.
  destruct (Dom.localName node ≫= _) as [klass|] eqn:Hk; simpl; [|apply appending_raise].
  destruct (Dom.localName node) as [name|]; [|done]. simpl in Hk.
  apply PARSER_MAP_lookup in Hk as [[_ ->]|[[_ ->]|[_ ->]]];
    auto using appending_NodeParser_parse, appending_WayParser_parse,
      appending_RelationParser_parse.
Qed.

Lemma appending_ActionParser_parse node : appending (ActionParser.parse node).
Proof.
  unfold ActionParser.parse.
  apply appending_bind; [apply appending_pure; auto with parsers|]; intros action_type.
  apply appending_bind; [|intros; apply appending_Action_create].
  pose proof pure__get_old_new. pose proof appending_transform.
  repeat case_decide.
  - apply appending_bind; [apply appending_pure; auto with parsers|]; intros child.
    apply appending_bind; [done|]. intros; apply appending_ret.
  - apply appending_bind; [by apply appending_pure|]; intros [old_tag new_tag].
    cbn [fst snd]. apply appending_bind.
    { destruct old_tag; [|apply appending_ret].
      apply appending_bind; [done|]. intros; apply appending_ret. }
    intros old. apply appending_bind.
    { destruct new_tag; [|apply appending_ret].
      apply appending_bind; [done|]. intros; apply appending_ret. }
    intros; apply appending_ret.
  - apply appending_bind; [by apply appending_pure|]; intros tags.
    apply appending_bind; [done|]. intros; apply appending_ret.
  - apply appending_ret.
Qed.

Lemma insert_last {A : Type} (l : list A) (x y : A) :
  <[length l := y]> (l ++ [x]) = l ++ [y].
Proof. rewrite insert_app_r_alt by done. by rewrite Nat.sub_diag. Qed.

(** What the Document Parser leaves under an [osm] root: the state of the
    loop over the change entries, and the Diff filled when the loop ends. *)
Lemma AdiffParser_parse_osm attrs children db :
  exists db1 r,
    for_each (Dom.elements_by_tagName "action" (Element "osm" attrs children))
      ActionParser.parse (ORM.Diff_create db).1 = (db1, r)
    /\ diffs db1 = diffs db ++ [{| actions := [] |}]
    /\ appends (ORM.Diff_create db).1 db1
    /\ AdiffParser.parse (Element "osm" attrs children) db
       = match r with
         | Ok pks => ((ORM.Diff_actions_set (length (diffs db)) pks db1).1, Ok (length (diffs db)))
         | Raise err => (db1, Raise err)
         end.
Proof.
  destruct (for_each _ ActionParser.parse (ORM.Diff_create db).1) as [db1 r] eqn:Hloop.
  exists db1, r. split_and!; [done| | |].
  - assert (grows 0 (ORM.Diff_create db).1 db1) as [_ _ _ Hd _]; [|done].
    eapply (keeps_run 0 _ (fun _ => True)); [|lia|exact Hloop].
    apply keeps_for_each. intros; apply keeps_ActionParser_parse.
  - pose proof (appending_for_each
                  (Dom.elements_by_tagName "action" (Element "osm" attrs children))
                  _ appending_ActionParser_parse (ORM.Diff_create db).1) as Happ.
    by rewrite Hloop in Happ.
  - unfold AdiffParser.parse. erewrite bind_ok by reflexivity.
    rewrite decide_False by (by intros []).
    rewrite (bind_ok ORM.Diff_create _ db (ORM.Diff_create db).1 (length (diffs db)) eq_refl).
    erewrite bind_ok by apply getElementsByTagName_Element.
    unfold bind at 1. rewrite Hloop. by destruct r.
Qed.

(** X14. Parsing only adds rows: whatever the node and whether the parse
    returns or fails, every table of the database it leaves starts with the
    rows the table had, unchanged and in their order.  This holds for the
    Document Parser, the Change Parser, [transform] and the member parser. *)
Theorem X14_tables_only_grow node db :
  appends db (AdiffParser.parse node db).1
  /\ appends db (ActionParser.parse node db).1
  /\ appends db (AbstractXMLParser.transform (Some node) db).1
  /\ (forall relation order, appends db (RelationMemberParser_parse node relation order db).1).
Proof.
  split_and!.
  - destruct node as [tag attrs children|data|data]; [|apply appends_refl..].
    destruct (decide (tag = "osm")) as [->|Htag]; cycle 1.
    { unfold AdiffParser.parse. erewrite bind_ok by reflexivity.
      rewrite decide_True by done. apply appends_refl. }
    destruct (AdiffParser_parse_osm attrs children db) as (db1 & r & _ & Hd & Happ & ->).
    assert (appends db db1) as Hdb1.
    { eapply appends_trans; [|exact Happ]. split; simpl; try done. by apply prefix_app_r. }
    destruct r as [pks|err]; [|done]. destruct Hdb1. split; simpl; try done.
    rewrite Hd, insert_last. by apply prefix_app_r.
  - apply appending_ActionParser_parse.
  - apply appending_transform.
  - intros relation order.
    apply appending_RelationMemberParser_parse_with, appending_RelationParser_parse.
Qed.

(** ** References stay valid *)

Lemma stable_True : stable (fun _ => True).
Proof. done. Qed.

Lemma stable_and F G : stable F -> stable G -> stable (fun db => F db /\ G db).
Proof. intros HF HG db db' Happ [? ?]. split; [by eapply HF|by eapply HG]. Qed.

Lemma stable_has_row e : stable (has_row e).
Proof.
  intros db db' [_ He _ _ _ _ _]. unfold has_row. apply prefix_length in He. lia.
Qed.

Lemma stable_has_subtype st e : stable (has_subtype st e).
Proof.
  intros db db' [_ He _ _ _ _ _]. unfold has_subtype.
  destruct (elements db !! e) as [row|] eqn:Hrow; [|done].
  by rewrite (prefix_lookup_Some _ _ _ _ Hrow He).
Qed.

Lemma stable_has_action a : stable (has_action a).
Proof.
  intros db db' [_ _ _ _ _ Ha _]. unfold has_action. apply prefix_length in Ha. lia.
Qed.

Lemma stable_opt_row o : stable (opt_row o).
Proof. intros db db' Happ H e He. eapply stable_has_row; [done|by apply H]. Qed.

Lemma has_subtype_row st e db : has_subtype st e db -> has_row e db.
Proof.
  unfold has_subtype, has_row. intros H. apply lookup_lt_is_Some.
  destruct (elements db !! e); [by eauto|done].
Qed.

#[local] Hint Resolve stable_True stable_and stable_has_row stable_has_subtype
  stable_has_action stable_opt_row : parsers.

(** Valid references stay valid when rows with valid references are added. *)
Lemma db_wf_appends db db' new_e new_t new_w new_m new_a new_d :
  db_wf db ->
  bounds_table db' = bounds_table db ->
  elements db' = elements db ++ new_e ->
  tags db' = tags db ++ new_t ->
  waynodes db' = waynodes db ++ new_w ->
  members db' = members db ++ new_m ->
  action_table db' = action_table db ++ new_a ->
  diffs db' = diffs db ++ new_d ->
  Forall (fun row => bounds row = None) new_e ->
  Forall (fun t => has_row (element t) db') new_t ->
  Forall (fun r => has_subtype WAY (way r) db' /\ has_subtype NODE (node r) db') new_w ->
  Forall (fun m => has_subtype RELATION (relation m) db' /\ has_row (rm_element m) db') new_m ->
  Forall (fun a => opt_row (new a) db' /\ opt_row (old a) db') new_a ->
  Forall (fun d => Forall (fun a => has_action a db') (actions d)) new_d ->
  db_wf db'.
Proof.
  intros [We Wt Ww Wm Wa Wd] Hb He Ht Hw Hm Ha Hd Ne Nt Nw Nm Na Nd.
  assert (appends db db') as Happ.
  { split; rewrite ?Hb, ?He, ?Ht, ?Hw, ?Hm, ?Ha, ?Hd; try done; by apply prefix_app_r. }
  split.
  - rewrite He, Hb. apply Forall_app. split; [done|].
    eapply Forall_impl; [exact Ne|]. simpl. by intros row -> b.
  - rewrite Ht. apply Forall_app. split; [|done].
    eapply Forall_impl; [exact Wt|]. simpl. intros t. by apply stable_has_row.
  - rewrite Hw. apply Forall_app. split; [|done].
    eapply Forall_impl; [exact Ww|]. simpl. intros r [? ?].
    split; by eapply stable_has_subtype.
  - rewrite Hm. apply Forall_app. split; [|done].
    eapply Forall_impl; [exact Wm|]. simpl. intros m [? ?].
    split; [by eapply stable_has_subtype|by eapply stable_has_row].
  - rewrite Ha. apply Forall_app. split; [|done].
    eapply Forall_impl; [exact Wa|]. simpl. intros a [? ?].
    split; by eapply stable_opt_row.
  - rewrite Hd. apply Forall_app. split; [|done].
    eapply Forall_impl; [exact Wd|]. simpl. intros d Hacts.
    eapply Forall_impl; [exact Hacts|]. simpl. intros a. by apply stable_has_action.
Qed.

Lemma preserves_ret {A : Type} F (a : A) (Q : A -> DB -> Prop) :
  (forall db, F db -> Q a db) -> preserves F (ret a) Q.
Proof. intros HQ db Hwf HF. split; [done|]. simpl. intros ? [= <-]. by apply HQ. Qed.

Lemma preserves_raise {A : Type} F e (Q : A -> DB -> Prop) : preserves F (raise e) Q.
Proof. intros db Hwf HF. split; [done|]. by intros ? [=]. Qed.

Lemma preserves_bind {A B : Type} F (m : M A) (f : A -> M B) Q R :
  preserves F m Q -> (forall a, preserves (Q a) (f a) R) -> preserves F (bind m f) R.
Proof.
  intros Hm Hf db Hwf HF. destruct (Hm db Hwf HF) as [Hwf1 HQ].
  unfold bind. destruct (m db) as [db1 [a|e]]; simpl in *.
  - by apply Hf, HQ.
  - split; [done|]. by intros ? [=].
Qed.

Lemma preserves_pure {A : Type} F (m : M A) : pure m -> preserves F m (fun _ => F).
Proof. intros Hm db Hwf HF. split; [by rewrite Hm|]. intros a _. by rewrite Hm. Qed.

Lemma preserves_weaken {A : Type} F (m : M A) (Q R : A -> DB -> Prop) :
  preserves F m Q -> (forall a db, Q a db -> R a db) -> preserves F m R.
Proof. intros Hm HQR db Hwf HF. destruct (Hm db Hwf HF) as [? HQ]. split; [done|]. auto. Qed.

Lemma preserves_for_each_inv {A B : Type} F (xs : list A) (body : A -> M B) :
  (forall x, preserves F (body x) (fun _ => F)) ->
  preserves F (for_each xs body) (fun _ => F).
Proof.
  intros Hbody. induction xs as [|x xs IH]; simpl; [by apply preserves_ret|].
  eapply preserves_bind; [apply Hbody|]. intros y.
  eapply preserves_bind; [apply IH|]. intros ys. by apply preserves_ret.
Qed.

Lemma preserves_for_enumerate {A B : Type} F (xs : list A) index (body : nat -> A -> M B) :
  (forall i x, preserves F (body i x) (fun _ => F)) ->
  preserves F (for_enumerate xs index body) (fun _ => F).
Proof.
  intros Hbody. revert index. induction xs as [|x xs IH]; intros index; simpl.
  - by apply preserves_ret.
  - eapply preserves_bind; [apply Hbody|]. intros ?. apply IH.
Qed.

Lemma preserves_for_each {A B : Type} (R : B -> DB -> Prop) (xs : list A) (body : A -> M B) :
  (forall y, stable (R y)) ->
  (forall F x, stable F -> preserves F (body x) (fun y db => F db /\ R y db)) ->
  forall F, stable F ->
    preserves F (for_each xs body) (fun ys db => F db /\ Forall (fun y => R y db) ys).
Proof.
  intros HR Hbody. induction xs as [|x xs IH]; intros F HF; simpl.
  - apply preserves_ret. by split.
  - eapply preserves_bind; [by apply Hbody|]. intros y.
    eapply preserves_bind.
    { apply (IH (fun db => F db /\ R y db)). by apply stable_and. }
    intros ys. apply preserves_ret. intros db [[? ?] ?]. split; [done|by constructor].
Qed.

Lemma preserves_OSMElement_create F st kwargs :
  stable F ->
  preserves F (ORM.OSMElement_create st kwargs) (fun pk db => F db /\ has_subtype st pk db).
Proof.
  intros HF db Hwf HFdb.
  pose proof (appending_OSMElement_create st kwargs db) as Happ.
  destruct (OSMElement_create_cases st kwargs db) as [(e & _ & Hc)|[_ Hc]];
    rewrite Hc in *; [by split|].
  split.
  - eapply (db_wf_appends db _ [_] [] [] [] [] []); simpl; rewrite ?app_nil_r; try done.
    by repeat constructor.
  - intros a [= <-]. split.
    + by eapply HF.
    + unfold has_subtype, add_element. simpl. by rewrite lookup_app_r, Nat.sub_diag.
Qed.

Lemma preserves_Tag_create F row :
  stable F -> (forall db, F db -> has_row (element row) db) ->
  preserves F (ORM.Tag_create row) (fun _ => F).
Proof.
  intros HF Hrow db Hwf HFdb. split.
  - eapply (db_wf_appends db _ [] [_] [] [] [] []); simpl; rewrite ?app_nil_r; try done.
    repeat constructor. unfold has_row. simpl. by apply Hrow.
  - intros _ _. eapply HF; [apply appending_Tag_create|done].
Qed.

Lemma preserves_WayNode_create F row :
  stable F ->
  (forall db, F db -> has_subtype WAY (way row) db /\ has_subtype NODE (node row) db) ->
  preserves F (ORM.WayNode_create row) (fun _ => F).
Proof.
  intros HF Hrow db Hwf HFdb. split.
  - eapply (db_wf_appends db _ [] [] [_] [] [] []); simpl; rewrite ?app_nil_r; try done.
    repeat constructor; unfold opt_row, has_row, has_subtype; simpl; by apply Hrow.
  - intros _ _. eapply HF; [apply appending_WayNode_create|done].
Qed.

Lemma preserves_RelationMember_create F row :
  stable F ->
  (forall db, F db -> has_subtype RELATION (relation row) db /\ has_row (rm_element row) db) ->
  preserves F (ORM.RelationMember_create row) (fun _ => F).
Proof.
  intros HF Hrow db Hwf HFdb. split.
  - eapply (db_wf_appends db _ [] [] [] [_] [] []); simpl; rewrite ?app_nil_r; try done.
    repeat constructor; unfold opt_row, has_row, has_subtype; simpl; by apply Hrow.
  - intros _ _. eapply HF; [apply appending_RelationMember_create|done].
Qed.

Lemma preserves_Action_create F row :
  stable F ->
  (forall db, F db -> opt_row (new row) db /\ opt_row (old row) db) ->
  preserves F (ORM.Action_create row) (fun pk db => F db /\ has_action pk db).
Proof.
  intros HF Hrow db Hwf HFdb. split.
  - eapply (db_wf_appends db _ [] [] [] [] [_] []); simpl; rewrite ?app_nil_r; try done.
    repeat constructor; unfold opt_row, has_row, has_subtype; simpl; by apply Hrow.
  - intros a [= <-]. split.
    + eapply HF; [apply appending_Action_create|done].
    + unfold has_action. simpl. rewrite length_app. simpl. lia.
Qed.

Lemma preserves_parse_tags F node e :
  stable F -> (forall db, F db -> has_row e db) ->
  preserves F (AbstractOSMElementParser.parse_tags node e) (fun _ => F).
Proof.
  intros HF He. unfold AbstractOSMElementParser.parse_tags.
  eapply preserves_bind; [apply preserves_pure; auto with parsers|]. intros tag_els.
  apply preserves_for_each_inv. intros tag_el.
  do 2 (eapply preserves_bind; [apply preserves_pure; auto with parsers|]; intros ?).
  by apply preserves_Tag_create.
Qed.

Lemma preserves_NodeParser_parse F node :
  stable F ->
  preserves F (NodeParser_parse node) (fun pk db => F db /\ has_subtype NODE pk db).
Proof.
  intros HF. unfold NodeParser_parse.
  do 3 (eapply preserves_bind; [apply preserves_pure; auto with parsers|]; intros ?).
  eapply preserves_bind; [by apply preserves_OSMElement_create|]. intros pk.
  eapply preserves_bind.
  { apply preserves_parse_tags; [auto with parsers|].
    intros db [_ Hpk]. by eapply has_subtype_row. }
  intros ?. by apply preserves_ret.
Qed.

Lemma preserves_WayParser_parse F node :
  stable F ->
  preserves F (WayParser_parse node) (fun pk db => F db /\ has_subtype WAY pk db).
Proof.
  intros HF. unfold WayParser_parse.
  eapply preserves_bind; [apply preserves_pure; auto with parsers|]; intros basic.
  eapply preserves_bind; [by apply preserves_OSMElement_create|]. intros w.
  eapply preserves_bind; [apply preserves_pure; auto with parsers|]; intros nds.
  eapply preserves_bind.
  { apply preserves_for_enumerate. intros i nd.
    eapply preserves_bind; [apply preserves_NodeParser_parse; auto with parsers|].
    intros pk. eapply preserves_weaken.
    - apply preserves_WayNode_create; [auto with parsers|]. simpl. by intros db [[_ ?] ?].
    - simpl. by intros _ db [? _]. }
  intros ?. eapply preserves_bind.
  { apply preserves_parse_tags; [auto with parsers|].
    intros db [_ Hw]. by eapply has_subtype_row. }
  intros ?. by apply preserves_ret.
Qed.

Lemma preserves_RelationMemberParser_parse_with F rec node relation order :
  stable F -> (forall db, F db -> has_subtype RELATION relation db) ->
  (forall G, stable G -> preserves G (rec node) (fun pk db => G db /\ has_subtype RELATION pk db)) ->
  preserves F (RelationMemberParser_parse_with rec node relation order) (fun _ => F).
Proof.
  intros HF Hrel Hrec. unfold RelationMemberParser_parse_with.
  eapply preserves_bind; [apply preserves_pure; auto with parsers|]; intros _type.
  eapply preserves_bind with (Q := fun pk db => F db /\ has_row pk db).
  { repeat case_decide.
    - eapply preserves_weaken; [by apply preserves_NodeParser_parse|].
      simpl. intros pk db [? ?]. split; [done|by eapply has_subtype_row].
    - eapply preserves_weaken; [by apply preserves_WayParser_parse|].
      simpl. intros pk db [? ?]. split; [done|by eapply has_subtype_row].
    - eapply preserves_weaken; [by apply Hrec|].
      simpl. intros pk db [? ?]. split; [done|by eapply has_subtype_row].
    - apply preserves_raise. }
  intros element.
  eapply preserves_bind; [apply preserves_pure; auto with parsers|]; intros role.
  eapply preserves_weaken.
  - apply preserves_RelationMember_create; [auto with parsers|]. simpl.
    intros db [? ?]. split; [by apply Hrel|done].
  - simpl. by intros _ db [? _].
Qed.

Lemma preserves_RelationParser_parse_rec depth : forall F node,
  stable F ->
  preserves F (RelationParser_parse_rec depth node)
    (fun pk db => F db /\ has_subtype RELATION pk db).
Proof.
  induction depth as [|depth IH]; intros F node HF; simpl; [apply preserves_raise|].
  eapply preserves_bind; [apply preserves_pure; auto with parsers|]; intros basic.
  eapply preserves_bind; [by apply preserves_OSMElement_create|]. intros r.
  eapply preserves_bind; [apply preserves_pure; auto with parsers|]; intros member_els.
  eapply preserves_bind.
  { apply preserves_for_enumerate. intros i member.
    apply preserves_RelationMemberParser_parse_with; [auto with parsers| |].
    - by intros db [_ ?].
    - intros G HG. by apply IH. }
  intros ?. eapply preserves_bind.
  { apply preserves_parse_tags; [auto with parsers|].
    intros db [_ Hr]. by eapply has_subtype_row. }
  intros ?. by apply preserves_ret.
Qed.

Lemma preserves_transform F node :
  stable F ->
  preserves F (AbstractXMLParser.transform node) (fun pk db => F db /\ has_row pk db).
Proof.
  intros HF. destruct node as [node|]; simpl; [|apply preserves_raise].
  unfold AbstractXMLParser.get_parser, AbstractXMLParser._dict_fetch, bind.
  destruct (Dom.localName node ≫= _) as [klass|] eqn:Hk; simpl; [|apply preserves_raise].
  destruct (Dom.localName node) as [name|]; [|done]. simpl in Hk.
  apply PARSER_MAP_lookup in Hk as [[_ ->]|[[_ ->]|[_ ->]]].
  - eapply preserves_weaken; [by apply preserves_NodeParser_parse|].
    simpl. intros pk db [? ?]. split; [done|by eapply has_subtype_row].
  - eapply preserves_weaken; [by apply preserves_WayParser_parse|].
    simpl. intros pk db [? ?]. split; [done|by eapply has_subtype_row].
  - eapply preserves_weaken; [by apply preserves_RelationParser_parse_rec|].
    simpl. intros pk db [? ?]. split; [done|by eapply has_subtype_row].
Qed.

Lemma preserves_transform_opt F node :
  stable F ->
  preserves F
    match node with
    | Some n => let* e := AbstractXMLParser.transform (Some n) in ret (Some e)
    | None => ret None
    end
    (fun o db => F db /\ opt_row o db).
Proof.
  intros HF. destruct node as [n|].
  - eapply preserves_bind; [by apply preserves_transform|]. intros e.
    apply preserves_ret. intros db [? ?]. split; [done|]. by intros ? [= <-].
  - apply preserves_ret. intros db ?. split; [done|]. by intros ? [=].
Qed.

Lemma preserves_ActionParser_parse F node :
  stable F ->
  preserves F (ActionParser.parse node) (fun pk db => F db /\ has_action pk db).
Proof.
  intros HF. unfold ActionParser.parse.
  eapply preserves_bind; [apply preserves_pure; auto with parsers|]; intros action_type.
  eapply preserves_bind
    with (Q := fun new_old db => F db /\ opt_row new_old.1 db /\ opt_row new_old.2 db).
  - pose proof pure__get_old_new. repeat case_decide.
    + eapply preserves_bind; [apply preserves_pure; auto with parsers|]; intros child.
      eapply preserves_bind; [by apply preserves_transform|]. intros e.
      apply preserves_ret. simpl. intros db [? ?]. split_and!; [done| |by intros ? [=]].
      by intros ? [= <-].
    + eapply preserves_bind; [by apply preserves_pure|]; intros [old_tag new_tag].
      cbn [fst snd].
      eapply preserves_bind; [by apply preserves_transform_opt|]. intros old.
      eapply preserves_bind; [apply preserves_transform_opt; auto with parsers|].
      intros new. apply preserves_ret. simpl. by intros db [[? ?] ?].
    + eapply preserves_bind; [by apply preserves_pure|]; intros tags.
      eapply preserves_bind; [by apply preserves_transform|]. intros e.
      apply preserves_ret. simpl. intros db [? ?]. split_and!; [done|by intros ? [=]|].
      by intros ? [= <-].
    + apply preserves_ret. simpl. intros db ?. split_and!; [done|by intros ? [=]..].
  - intros new_old. eapply preserves_weaken.
    + apply preserves_Action_create; [auto with parsers|]. simpl. by intros db [_ ?].
    + simpl. by intros pk db [[? _] ?].
Qed.

(** X15. No parser leaves a dangling reference.  From a database where
    every foreign key is the key of a row of the model its field names, the
    Document Parser, the Change Parser and [transform] end in such a
    database, whatever the node, and also when they fail half way. *)
Theorem X15_references_stay_valid node db :
  db_wf db ->
  db_wf (AdiffParser.parse node db).1
  /\ db_wf (ActionParser.parse node db).1
  /\ db_wf (AbstractXMLParser.transform (Some node) db).1.
Proof.
  intros Hwf. split_and!.
  - destruct node as [tag attrs children|data|data]; [|done..].
    destruct (decide (tag = "osm")) as [->|Htag]; cycle 1.
    { unfold AdiffParser.parse. erewrite bind_ok by reflexivity.
      by rewrite decide_True by done. }
    destruct (AdiffParser_parse_osm attrs children db) as (db1 & r & Hloop & Hd & _ & ->).
    assert (db_wf (ORM.Diff_create db).1) as Hwf0.
    { eapply (db_wf_appends db _ [] [] [] [] [] [_]); simpl; rewrite ?app_nil_r; try done.
      by repeat constructor. }
    destruct (preserves_for_each has_action
                (Dom.elements_by_tagName "action" (Element "osm" attrs children))
                ActionParser.parse stable_has_action
                (fun F x HF => preserves_ActionParser_parse F x HF)
                (fun _ => True) stable_True _ Hwf0 I) as [Hwf1 Hpks].
    rewrite Hloop in Hwf1, Hpks. simpl in Hwf1, Hpks.
    destruct r as [pks|err]; [|done]. destruct (Hpks pks eq_refl) as [_ Hacts].
    destruct Hwf1. split; simpl; try done.
    apply Forall_insert; [done|]. done.
  - by apply (preserves_ActionParser_parse (fun _ => True) node stable_True db).
  - by apply (preserves_transform (fun _ => True) (Some node) stable_True db).
Qed.

Lemma X15_references_stay_valid_witness :
  db_wf (AdiffParser.parse adiff_create_then_empty_modify empty_db).1
  /\ db_wf (ActionParser.parse delete_old_new empty_db).1
  /\ db_wf (AbstractXMLParser.transform (Some way_with_two_nd) empty_db).1.
Proof.
  split_and!.
  - apply (X15_references_stay_valid adiff_create_then_empty_modify empty_db).
    by split.
  - apply (X15_references_stay_valid delete_old_new empty_db). by split.
  - apply (X15_references_stay_valid way_with_two_nd empty_db). by split.
Defined.

(** ** The members of a Group *)

Lemma fresh_members_refl n db : fresh_members n db db.
Proof. split; [done|]. exists []. by rewrite app_nil_r. Qed.

Lemma fresh_members_trans n db db1 db2 :
  fresh_members n db db1 -> fresh_members n db1 db2 -> fresh_members n db db2.
Proof.
  intros [He (new1 & H1 & F1)] [He' (new2 & H2 & F2)]. split; [lia|].
  exists (new1 ++ new2). rewrite H2, H1, <- (assoc_L (++)). split; [done|].
  by apply Forall_app.
Qed.

Lemma keeps_fresh_ret {A : Type} n (a : A) (Q : A -> Prop) : Q a -> keeps_fresh n (ret a) Q.
Proof. intros HQ db _. split; [apply fresh_members_refl|]. simpl. by intros ? [= <-]. Qed.

Lemma keeps_fresh_raise {A : Type} n e (Q : A -> Prop) : keeps_fresh n (raise e) Q.
Proof. intros db _. split; [apply fresh_members_refl|]. simpl. by intros ? [=]. Qed.

Lemma keeps_fresh_pure {A : Type} n (m : M A) : pure m -> keeps_fresh n m (fun _ => True).
Proof. intros Hm db _. rewrite Hm. split; [apply fresh_members_refl|done]. Qed.

Lemma keeps_fresh_bind {A B : Type} n (m : M A) (f : A -> M B) Q R :
  keeps_fresh n m Q -> (forall a, Q a -> keeps_fresh n (f a) R) -> keeps_fresh n (bind m f) R.
Proof.
  intros Hm Hf db Hn. destruct (Hm db Hn) as [Hg HQ].
  unfold bind. destruct (m db) as [db1 [a|e]]; simpl in *.
  - destruct (Hf a (HQ a eq_refl) db1) as [Hg' HR].
    { destruct Hg. lia. }
    split; [by eapply fresh_members_trans|done].
  - split; [done|]. by intros ? [=].
Qed.

Lemma keeps_fresh_weaken {A : Type} n (m : M A) (Q R : A -> Prop) :
  keeps_fresh n m Q -> (forall a, Q a -> R a) -> keeps_fresh n m R.
Proof. intros Hm HQR db Hn. destruct (Hm db Hn) as [? HQ]. split; [done|]. auto. Qed.

Lemma keeps_fresh_for_each {A B : Type} n (xs : list A) (body : A -> M B) :
  (forall x, keeps_fresh n (body x) (fun _ => True)) ->
  keeps_fresh n (for_each xs body) (fun _ => True).
Proof.
  intros Hb. induction xs as [|x xs IH]; simpl; [by apply keeps_fresh_ret|].
  eapply keeps_fresh_bind; [apply Hb|]. intros y _.
  eapply keeps_fresh_bind; [apply IH|]. intros ys _. by apply keeps_fresh_ret.
Qed.

Lemma keeps_fresh_for_enumerate {A B : Type} n (xs : list A) index (body : nat -> A -> M B) :
  (forall i x, keeps_fresh n (body i x) (fun _ => True)) ->
  keeps_fresh n (for_enumerate xs index body) (fun _ => True).
Proof.
  intros Hb. revert index. induction xs as [|x xs IH]; intros index; simpl.
  - by apply keeps_fresh_ret.
  - eapply keeps_fresh_bind; [apply Hb|]. intros y _. apply IH.
Qed.

Lemma keeps_fresh_OSMElement_create n st kwargs :
  keeps_fresh n (ORM.OSMElement_create st kwargs) (fun pk => n <= pk).
Proof.
  intros db Hn. destruct (OSMElement_create_cases st kwargs db) as [(e & _ & ->)|[_ ->]].
  { split; [apply fresh_members_refl|done]. }
  split; [|by intros ? [= <-]]. split; unfold add_element; simpl.
  - rewrite length_app. lia.
  - exists []. by rewrite app_nil_r.
Qed.

Lemma keeps_fresh_Tag_create n row : keeps_fresh n (ORM.Tag_create row) (fun _ => True).
Proof. intros db Hn. split; [|done]. split; simpl; [done|]. exists []. by rewrite app_nil_r. Qed.

Lemma keeps_fresh_WayNode_create n row : keeps_fresh n (ORM.WayNode_create row) (fun _ => True).
Proof. intros db Hn. split; [|done]. split; simpl; [done|]. exists []. by rewrite app_nil_r. Qed.

Lemma keeps_fresh_RelationMember_create n row :
  n <= relation row -> keeps_fresh n (ORM.RelationMember_create row) (fun _ => True).
Proof.
  intros Hrow db Hn. split; [|done]. split; simpl; [done|]. exists [row]. by repeat constructor.
Qed.

Lemma keeps_fresh_parse_tags n node e :
  keeps_fresh n (AbstractOSMElementParser.parse_tags node e) (fun _ => True).
Proof.
  unfold AbstractOSMElementParser.parse_tags.
  eapply keeps_fresh_bind; [apply keeps_fresh_pure; auto with parsers|]. intros tag_els _.
  apply keeps_fresh_for_each. intros tag_el.
  do 2 (eapply keeps_fresh_bind; [apply keeps_fresh_pure; auto with parsers|]; intros ? _).
  apply keeps_fresh_Tag_create.
Qed.

Lemma keeps_fresh_NodeParser_parse n node :
  keeps_fresh n (NodeParser_parse node) (fun _ => True).
Proof.
  unfold NodeParser_parse.
  do 3 (eapply keeps_fresh_bind; [apply keeps_fresh_pure; auto with parsers|]; intros ? _).
  eapply keeps_fresh_bind; [apply keeps_fresh_OSMElement_create|]. intros pk _.
  eapply keeps_fresh_bind; [apply keeps_fresh_parse_tags|]. intros _ _.
  by apply keeps_fresh_ret.
Qed.

Lemma keeps_fresh_WayParser_parse n node :
  keeps_fresh n (WayParser_parse node) (fun _ => True).
Proof.
  unfold WayParser_parse.
  eapply keeps_fresh_bind; [apply keeps_fresh_pure; auto with parsers|]; intros basic _.
  eapply keeps_fresh_bind; [apply keeps_fresh_OSMElement_create|]. intros w _.
  eapply keeps_fresh_bind; [apply keeps_fresh_pure; auto with parsers|]; intros nds _.
  eapply keeps_fresh_bind.
  { apply keeps_fresh_for_enumerate. intros i nd.
    eapply keeps_fresh_bind; [apply keeps_fresh_NodeParser_parse|]. intros pk _.
    apply keeps_fresh_WayNode_create. }
  intros _ _. eapply keeps_fresh_bind; [apply keeps_fresh_parse_tags|]. intros _ _.
  by apply keeps_fresh_ret.
Qed.

Lemma keeps_fresh_RelationMemberParser_parse_with n rec node relation order :
  n <= relation ->
  keeps_fresh n (rec node) (fun _ => True) ->
  keeps_fresh n (RelationMemberParser_parse_with rec node relation order) (fun _ => True).
Proof.
  intros Hrel Hrec. unfold RelationMemberParser_parse_with.
  eapply keeps_fresh_bind; [apply keeps_fresh_pure; auto with parsers|]; intros _type _.
  eapply keeps_fresh_bind with (Q := fun _ => True).
  { repeat case_decide;
      auto using keeps_fresh_NodeParser_parse, keeps_fresh_WayParser_parse,
        keeps_fresh_raise. }
  intros element _.
  eapply keeps_fresh_bind; [apply keeps_fresh_pure; auto with parsers|]; intros role _.
  by apply keeps_fresh_RelationMember_create.
Qed.

Lemma keeps_fresh_RelationParser_parse_rec depth : forall n node,
  keeps_fresh n (RelationParser_parse_rec depth node) (fun _ => True).
Proof.
  induction depth as [|depth IH]; intros n node; simpl; [apply keeps_fresh_raise|].
  eapply keeps_fresh_bind; [apply keeps_fresh_pure; auto with parsers|]; intros basic _.
  eapply keeps_fresh_bind; [apply keeps_fresh_OSMElement_create|]. intros r Hr.
  eapply keeps_fresh_bind; [apply keeps_fresh_pure; auto with parsers|]; intros member_els _.
  eapply keeps_fresh_bind.
  { apply keeps_fresh_for_enumerate. intros i member.
    by apply keeps_fresh_RelationMemberParser_parse_with. }
  intros _ _. eapply keeps_fresh_bind; [apply keeps_fresh_parse_tags|]. intros _ _.
  by apply keeps_fresh_ret.
Qed.

Lemma keeps_fresh_registered n name (klass : DomNode -> M nat) node :
  AbstractXMLParser.PARSER_MAP !! name = Some klass ->
  keeps_fresh n (klass node) (fun _ => True).
Proof.
  intros [[_ ->]|[[_ ->]|[_ ->]]]%PARSER_MAP_lookup.
  - apply keeps_fresh_NodeParser_parse.
  - apply keeps_fresh_WayParser_parse.
  - apply keeps_fresh_RelationParser_parse_rec.
Qed.

Lemma filter_relation_fresh r (rows : list RelationMember) :
  Forall (fun m => relation m <> r) rows -> filter (fun m => relation m = r) rows = [].
Proof.
  induction 1 as [|m rows Hm _ IH]; [done|]. by rewrite filter_cons_False.
Qed.

(** One member: the rows of what stands below it belong to later relations,
    and its own row comes last. *)
Lemma member_step member r i db db' pk :
  r < length (elements db) ->
  RelationMemberParser_parse member r i db = (db', Ok pk) ->
  exists nested e value _type st,
    members db' = members db ++ nested ++
                  [{| relation := r; rm_element := e; order := i; role := value |}]
    /\ Forall (fun m => relation m <> r) nested
    /\ attribute_of "role" member = Some value
    /\ attribute_of "type" member = Some _type
    /\ AbstractXMLParser.ELEMENT_TYPES !! _type = Some st
    /\ has_subtype st e db'.
Proof.
  intros Hr H. destruct member as [tag attrs children|data|data]; [|done..].
  destruct (attrs !! "type") as [_type|] eqn:Htype; cycle 1.
  { unfold RelationMemberParser_parse, RelationMemberParser_parse_with in H.
    by erewrite bind_raise in H by (by apply attribute_None). }
  destruct (AbstractXMLParser.PARSER_MAP !! _type) as [klass|] eqn:Hklass; cycle 1.
  { apply PARSER_MAP_None in Hklass as (? & ? & ?).
    unfold RelationMemberParser_parse, RelationMemberParser_parse_with in H.
    erewrite bind_ok in H by (by apply attribute_Some).
    by rewrite !decide_False in H by done. }
  erewrite RelationMemberParser_parse_registered in H by done.
  bind_inv H. rename db0 into db1, a into e.
  destruct (attrs !! "role") as [value|] eqn:Hrole; cycle 1.
  { by erewrite bind_raise in H by (by apply attribute_None). }
  erewrite bind_ok in H by (by apply attribute_Some). injection H as <- <-.
  assert (exists st, AbstractXMLParser.ELEMENT_TYPES !! _type = Some st) as [st Hst].
  { apply PARSER_MAP_lookup in Hklass as [[-> _]|[[-> _]|[-> _]]]; by eexists. }
  destruct (keeps_fresh_registered (S r) _ klass (Element tag attrs children) Hklass db Hr)
    as [[_ (nested & Hnested & Hfresh)] _].
  rewrite Hrun in Hnested. simpl in Hnested.
  destruct (registered_parse_first_row _ _ _ _ _ _ _ _ _ Hklass Hst Hrun)
    as (kwargs & _ & Hrow & _).
  exists nested, e, value, _type, st. split_and!; try done.
  - simpl. by rewrite Hnested, <- (assoc_L (++)).
  - eapply Forall_impl; [exact Hfresh|]. simpl. lia.
  - unfold has_subtype. simpl. by rewrite Hrow.
Qed.

(** The loop of [RelationParser.parse] over the members. *)
Lemma member_loop r member_els : forall index db db2,
  r < length (elements db) ->
  for_enumerate member_els index (fun index member =>
    RelationMemberParser_parse member r index) db = (db2, Ok tt) ->
  exists rows,
    filter (fun m => relation m = r) (members db2)
    = filter (fun m => relation m = r) (members db) ++ rows
    /\ order <$> rows = seq index (length member_els)
    /\ Forall2 (fun member m =>
                  relation m = r
                  /\ attribute_of "role" member = Some (role m)
                  /\ exists _type st,
                       attribute_of "type" member = Some _type
                       /\ AbstractXMLParser.ELEMENT_TYPES !! _type = Some st
                       /\ has_subtype st (rm_element m) db2) member_els rows.
Proof.
  induction member_els as [|member member_els IH]; intros index db db2 Hr H; simpl in H.
  - injection H as <-. exists []. by rewrite app_nil_r.
  - bind_inv H. rename db0 into db1.
    destruct (member_step _ _ _ _ _ _ Hr Hrun)
      as (nested & e & value & _type & st & Hm & Hnested & Hrole & Htype & Hst & He).
    assert (appends db db1) as Happ1.
    { pose proof (appending_RelationMemberParser_parse_with RelationParser_parse member r index
                    (appending_RelationParser_parse member) db) as Happ.
      unfold RelationMemberParser_parse in Hrun. by rewrite Hrun in Happ. }
    assert (appends db1 db2) as Happ2.
    { pose proof (appending_for_enumerate member_els (S index)
                    (fun index member => RelationMemberParser_parse member r index)
                    (fun i x => appending_RelationMemberParser_parse_with RelationParser_parse
                                  x r i (appending_RelationParser_parse x)) db1) as Happ.
      by rewrite H in Happ. }
    destruct (IH (S index) db1 db2) as (rows & Hrows & Horder & Hall); [|done|].
    { eapply (stable_has_row r); [exact Happ1|done]. }
    exists ({| relation := r; rm_element := e; order := index; role := value |} :: rows).
    split_and!.
    + rewrite Hrows, Hm, !filter_app, (filter_relation_fresh r nested) by done.
      rewrite filter_cons_True by done. simpl. by rewrite <- (assoc_L (++)).
    + by rewrite fmap_cons, Horder.
    + constructor; [|done]. simpl. split_and!; [done..|].
      exists _type, st. split_and!; [done..|]. by eapply stable_has_subtype.
Qed.

(** X17. The members of a parsed Group are the member elements found
    anywhere below its node, in document order: the i-th member row of the
    group has order i and the role attribute of the i-th element, and its
    element is a row of the model that the element's type attribute names.
    Member elements nested in a member are members of the outer group too.
    The database must hold no member row of a relation yet to be stored. *)
Theorem X17_members_in_document_order tag attrs children db db' r :
  Forall (fun m => relation m < length (elements db)) (members db) ->
  RelationParser_parse (Element tag attrs children) db = (db', Ok r) ->
  order <$> ORM.relation_members db' r
  = seq 0 (length (Dom.elements_by_tagName "member" (Element tag attrs children)))
  /\ Forall2 (fun member m =>
                relation m = r
                /\ attribute_of "role" member = Some (role m)
                /\ exists _type st,
                     attribute_of "type" member = Some _type
                     /\ AbstractXMLParser.ELEMENT_TYPES !! _type = Some st
                     /\ has_subtype st (rm_element m) db')
       (Dom.elements_by_tagName "member" (Element tag attrs children))
       (ORM.relation_members db' r).
Proof.
  intros Hwf H. rewrite RelationParser_parse_unfold in H.
  erewrite bind_ok in H by apply get_basic_attributes_Element.
  create_ok H.
  erewrite bind_ok in H by apply getElementsByTagName_Element.
  bind_inv H. destruct a. bind_inv H. injection H as <- <-.
  apply parse_tags_Element in Hrun0 as (kvs & _ & -> & _).
  assert (length (elements db)
          < length (elements (add_element (ORM.OSMElement_of_kwargs RELATION (basic_of attrs)) db)))
    as Hr by (rewrite length_elements_add_element; lia).
  destruct (member_loop _ _ _ _ _ Hr Hrun) as (rows & Hrows & Horder & Hall).
  unfold ORM.relation_members.
  change (members (add_tags (tag_rows (length (elements db)) kvs) db0)) with (members db0).
  rewrite Hrows.
  change (members (add_element _ db)) with (members db).
  rewrite filter_relation_fresh; cycle 1.
  { eapply Forall_impl; [exact Hwf|]. simpl. lia. }
  simpl. split; [done|].
  eapply Forall2_impl; [exact Hall|]. simpl.
  intros member m (? & ? & _type & st & ? & ? & ?). split_and!; [done..|].
  by exists _type, st.
Qed.

Lemma X17_members_in_document_order_witness :
  (order <$> ORM.relation_members (RelationParser_parse relation_with_nested_member empty_db).1 0
   = seq 0 (length (Dom.elements_by_tagName "member" relation_with_nested_member))
   /\ Forall2 (fun member m =>
                 relation m = 0
                 /\ attribute_of "role" member = Some (role m)
                 /\ exists _type st,
                      attribute_of "type" member = Some _type
                      /\ AbstractXMLParser.ELEMENT_TYPES !! _type = Some st
                      /\ has_subtype st (rm_element m)
                           (RelationParser_parse relation_with_nested_member empty_db).1)
        (Dom.elements_by_tagName "member" relation_with_nested_member)
        (ORM.relation_members (RelationParser_parse relation_with_nested_member empty_db).1 0))
  /\ ORM.relation_members (RelationParser_parse relation_with_nested_member empty_db).1 0
     = [{| relation := 0; rm_element := 1; order := 0; role := "part" |};
        {| relation := 0; rm_element := 3; order := 1; role := "stop" |}].
Proof.
  split; [|by vm_compute].
  apply (X17_members_in_document_order "relation" (list_to_map [("id", "9")])
           [el "member" [("type", "relation"); ("ref", "8"); ("role", "part")]
              [el "member" [("type", "node"); ("ref", "5"); ("role", "stop");
                            ("lat", "10"); ("lon", "20")] []]]
           empty_db (RelationParser_parse relation_with_nested_member empty_db).1 0).
  - constructor.
  - by vm_compute.
Defined.

(** ** A tag element without key or value *)

Lemma for_each_tags_bad e before bad after : forall db kvs,
  mapM tag_kv before = Some kvs ->
  tag_kv bad = None ->
  for_each (before ++ bad :: after) (fun tag_el =>
    let* k := attribute tag_el "k" in
    let* v := attribute tag_el "v" in
    ORM.Tag_create {| element := e; k := k; v := v |}) db
  = (add_tags (tag_rows e kvs) db,
     Raise (match Dom.attributes bad with
            | None => TypeError "'NoneType' object is not subscriptable"
            | Some attrs => KeyError (if attrs !! "k" is Some _ then "v" else "k")
            end)).
Proof.
  induction before as [|tag_el before IH]; intros db kvs Hkvs Hbad; simpl in *.
  - injection Hkvs as <-. unfold bind at 1. rewrite tag_body_run, Hbad.
    by rewrite add_tags_nil.
  - destruct (tag_kv tag_el) as [kv|] eqn:Hkv; [|done]. simpl in Hkvs.
    destruct (mapM tag_kv before) as [kvs'|]; [|done]. injection Hkvs as <-.
    unfold bind at 1. rewrite tag_body_run, Hkv. unfold bind at 1.
    rewrite (IH _ kvs') by done. by rewrite add_tags_app.
Qed.

(** X18. [parse_tags] stops at the first tag element that lacks its key or
    its value, with [KeyError k] when the key is missing and [KeyError v]
    otherwise.  The tags of the tag elements before it are stored by then and
    stay in the database; those after it are not looked at. *)
Theorem X18_tags_before_a_bad_tag tag attrs children e db before bad after kvs :
  Dom.elements_by_tagName "tag" (Element tag attrs children) = before ++ bad :: after ->
  mapM tag_kv before = Some kvs ->
  tag_kv bad = None ->
  AbstractOSMElementParser.parse_tags (Element tag attrs children) e db
  = (add_tags (tag_rows e kvs) db,
     Raise (KeyError (if attribute_of "k" bad is Some _ then "v" else "k"))).
Proof.
  intros Hels Hkvs Hbad. unfold AbstractOSMElementParser.parse_tags.
  erewrite bind_ok by apply getElementsByTagName_Element. rewrite Hels.
  rewrite (for_each_tags_bad e before bad after db kvs) by done.
  assert (Dom.tag_matches "tag" bad = true) as Hm.
  { eapply elements_by_tagName_are_elements. rewrite Hels.
    apply elem_of_app. right. by left. }
  by destruct bad.
Qed.

Lemma X18_tags_before_a_bad_tag_witness :
  AbstractOSMElementParser.parse_tags
    (el "node" [("id", "1")]
       [el "tag" [("k", "name"); ("v", "stop")] [];
        el "tag" [("k", "highway")] [];
        el "tag" [("k", "ref"); ("v", "12")] []]) 0 empty_db
  = (add_tags [{| element := 0; k := "name"; v := "stop" |}] empty_db, Raise (KeyError "v")).
Proof.
  apply (X18_tags_before_a_bad_tag "node" (list_to_map [("id", "1")])
           [el "tag" [("k", "name"); ("v", "stop")] [];
            el "tag" [("k", "highway")] [];
            el "tag" [("k", "ref"); ("v", "12")] []] 0 empty_db
           [el "tag" [("k", "name"); ("v", "stop")] []]
           (el "tag" [("k", "highway")] [])
           [el "tag" [("k", "ref"); ("v", "12")] []]
           [("name", "stop")]); reflexivity.
Defined.

(** ** The tables a parser leaves alone *)

Section footprint.
Context {T : Type} (table : DB -> T).

Lemma leaves_ret {A : Type} (a : A) : leaves table (ret a).
Proof. done. Qed.

Lemma leaves_raise {A : Type} e : leaves table (raise (A:=A) e).
Proof. done. Qed.

Lemma leaves_pure {A : Type} (m : M A) : pure m -> leaves table m.
Proof. intros Hm db. by rewrite Hm. Qed.

Lemma leaves_bind {A B : Type} (m : M A) (f : A -> M B) :
  leaves table m -> (forall a, leaves table (f a)) -> leaves table (bind m f).
Proof.
  intros Hm Hf db. unfold bind. specialize (Hm db).
  destruct (m db) as [db1 [a|e]]; simpl in *; [|done]. by rewrite Hf.
Qed.

Lemma leaves_for_each {A B : Type} (xs : list A) (body : A -> M B) :
  (forall x, leaves table (body x)) -> leaves table (for_each xs body).
Proof.
  intros Hbody. induction xs as [|x xs IH]; simpl; [apply leaves_ret|].
  apply leaves_bind; [done|]. intros y.
  apply leaves_bind; [done|]. intros ys. apply leaves_ret.
Qed.

Lemma leaves_for_enumerate {A B : Type} (xs : list A) index (body : nat -> A -> M B) :
  (forall i x, leaves table (body i x)) -> leaves table (for_enumerate xs index body).
Proof.
  intros Hbody. revert index. induction xs as [|x xs IH]; intros index; simpl.
  - apply leaves_ret.
  - apply leaves_bind; [done|]. intros _. apply IH.
Qed.

Hypothesis Helement : forall st kwargs, leaves table (ORM.OSMElement_create st kwargs).
Hypothesis Htag : forall row, leaves table (ORM.Tag_create row).

Lemma leaves_parse_tags node e : leaves table (AbstractOSMElementParser.parse_tags node e).
Proof.
  apply leaves_bind; [apply leaves_pure; auto with parsers|]. intros tag_els.
  apply leaves_for_each. intros tag_el.
  do 2 (apply leaves_bind; [apply leaves_pure; auto with parsers|]; intros ?).
  apply Htag.
Qed.

Lemma leaves_NodeParser_parse node : leaves table (NodeParser_parse node).
Proof.
  unfold NodeParser_parse.
  do 3 (apply leaves_bind; [apply leaves_pure; auto with parsers|]; intros ?).
  apply leaves_bind; [apply Helement|]. intros pk.
  apply leaves_bind; [apply leaves_parse_tags|]. intros _. apply leaves_ret.
Qed.

Hypothesis Hwaynode : forall row, leaves table (ORM.WayNode_create row).

Lemma leaves_WayParser_parse node : leaves table (WayParser_parse node).
Proof.
  unfold WayParser_parse.
  apply leaves_bind; [apply leaves_pure; auto with parsers|]; intros basic.
  apply leaves_bind; [apply Helement|]. intros w.
  apply leaves_bind; [apply leaves_pure; auto with parsers|]; intros nds.
  apply leaves_bind.
  { apply leaves_for_enumerate. intros i nd.
    apply leaves_bind; [apply leaves_NodeParser_parse|]. intros pk. apply Hwaynode. }
  intros _. apply leaves_bind; [apply leaves_parse_tags|]. intros _. apply leaves_ret.
Qed.

Hypothesis Hmember : forall row, leaves table (ORM.RelationMember_create row).

Lemma leaves_RelationMemberParser_parse_with rec node relation order :
  leaves table (rec node) ->
  leaves table (RelationMemberParser_parse_with rec node relation order).
Proof.
  intros Hrec. unfold RelationMemberParser_parse_with.
  apply leaves_bind; [apply leaves_pure; auto with parsers|]; intros _type.
  apply leaves_bind.
  { repeat case_decide;
      auto using leaves_NodeParser_parse, leaves_WayParser_parse, leaves_raise. }
  intros element.
  apply leaves_bind; [apply leaves_pure; auto with parsers|]; intros role.
  apply Hmember.
Qed.

Lemma leaves_RelationParser_parse_rec depth : forall node,
  leaves table (RelationParser_parse_rec depth node).
Proof.
  induction depth as [|depth IH]; intros node; simpl; [apply leaves_raise|].
  apply leaves_bind; [apply leaves_pure; auto with parsers|]; intros basic.
  apply leaves_bind; [apply Helement|]. intros r.
  apply leaves_bind; [apply leaves_pure; auto with parsers|]; intros member_els.
  apply leaves_bind.
  { apply leaves_for_enumerate. intros i member.
    apply leaves_RelationMemberParser_parse_with, IH. }
  intros _. apply leaves_bind; [apply leaves_parse_tags|]. intros _. apply leaves_ret.
Qed.

Lemma leaves_RelationParser_parse node : leaves table (RelationParser_parse node).
Proof. apply leaves_RelationParser_parse_rec. Qed.

Lemma leaves_transform node : leaves table (AbstractXMLParser.transform node).
Proof.
  destruct node as [node|]; simpl; [|apply leaves_raise].
  unfold AbstractXMLParser.get_parser, AbstractXMLParser._dict_fetch, bind.
  destruct (Dom.localName node ≫= _) as [klass|] eqn:Hk; simpl; [|apply leaves_raise].
  destruct (Dom.localName node) as [name|]; [|done]. simpl in Hk.
  apply PARSER_MAP_lookup in Hk as [[_ ->]|[[_ ->]|[_ ->]]];
    auto using leaves_NodeParser_parse, leaves_WayParser_parse, leaves_RelationParser_parse.
Qed.

(** What [ActionParser.parse] runs before it stores the Action. *)
Lemma leaves_old_new node action_type :
  leaves table
    (if decide (action_type = "create") then
       let* child := getFirstNontextChild (Some node) in
       let* new := AbstractXMLParser.transform child in
       ret (Some new, None)
     else if decide (action_type = "modify") then
       let* tags := ActionParser._get_old_new node in
       let* old := match tags.1 with
                   | Some old_tag =>
                       let* e := AbstractXMLParser.transform (Some old_tag) in ret (Some e)
                   | None => ret None
                   end in
       let* new := match tags.2 with
                   | Some new_tag =>
                       let* e := AbstractXMLParser.transform (Some new_tag) in ret (Some e)
                   | None => ret None
                   end in
       ret (new, old)
     else if decide (action_type = "delete") then
       let* tags := ActionParser._get_old_new node in
       let* old := AbstractXMLParser.transform tags.1 in
       ret (None, Some old)
     else ret (None, None)).
Proof.
  pose proof pure__get_old_new. pose proof leaves_transform.
  repeat case_decide.
  - apply leaves_bind; [apply leaves_pure; auto with parsers|]; intros child.
    apply leaves_bind; [done|]. intros; apply leaves_ret.
  - apply leaves_bind; [by apply leaves_pure|]; intros [old_tag new_tag].
    cbn [fst snd]. apply leaves_bind.
    { destruct old_tag; [|apply leaves_ret].
      apply leaves_bind; [done|]. intros; apply leaves_ret. }
    intros old. apply leaves_bind.
    { destruct new_tag; [|apply leaves_ret].
      apply leaves_bind; [done|]. intros; apply leaves_ret. }
    intros; apply leaves_ret.
  - apply leaves_bind; [by apply leaves_pure|]; intros tags.
    apply leaves_bind; [done|]. intros; apply leaves_ret.
  - apply leaves_ret.
Qed.

Hypothesis Haction : forall row, leaves table (ORM.Action_create row).

Lemma leaves_ActionParser_parse node : leaves table (ActionParser.parse node).
Proof.
  unfold ActionParser.parse.
  apply leaves_bind; [apply leaves_pure; auto with parsers|]; intros action_type.
  apply leaves_bind; [apply leaves_old_new|]. intros new_old. apply Haction.
Qed.

Hypothesis Hdiff : leaves table ORM.Diff_create.
Hypothesis Hset : forall diff objs, leaves table (ORM.Diff_actions_set diff objs).

Lemma leaves_AdiffParser_parse node : leaves table (AdiffParser.parse node).
Proof.
  unfold AdiffParser.parse.
  apply leaves_bind; [apply leaves_pure; auto with parsers|]; intros tag.
  case_decide; [apply leaves_raise|].
  apply leaves_bind; [apply Hdiff|]. intros diff.
  apply leaves_bind; [apply leaves_pure; auto with parsers|]; intros action_els.
  apply leaves_bind; [apply leaves_for_each; intros; apply leaves_ActionParser_parse|].
  intros actions. apply leaves_bind; [apply Hset|]. intros _. apply leaves_ret.
Qed.

End footprint.

(** The creation of an element writes the table of elements only. *)
Lemma create_leaves {T : Type} (table : DB -> T) :
  (forall row db, table (add_element row db) = table db) ->
  forall st kwargs, leaves table (ORM.OSMElement_create st kwargs).
Proof.
  intros Htable st kwargs db.
  destruct (OSMElement_create_cases st kwargs db) as [(e & _ & ->)|[_ ->]]; [done|].
  apply Htable.
Qed.

(** X19. The tables each parser never writes, whatever the node and whether
    it returns or fails: the Point parser stores elements and tags only; the
    Path parser, way-nodes besides, but no member; the Group parser and
    [transform], no Action, Diff or Bounds; the Change Parser, no Diff; and
    no parser, the Document Parser included, ever stores a Bounds. *)
Theorem X19_tables_left_alone node db :
  (waynodes (NodeParser_parse node db).1 = waynodes db
   /\ members (NodeParser_parse node db).1 = members db
   /\ action_table (NodeParser_parse node db).1 = action_table db
   /\ diffs (NodeParser_parse node db).1 = diffs db
   /\ bounds_table (NodeParser_parse node db).1 = bounds_table db)
  /\ (members (WayParser_parse node db).1 = members db
      /\ action_table (WayParser_parse node db).1 = action_table db
      /\ diffs (WayParser_parse node db).1 = diffs db
      /\ bounds_table (WayParser_parse node db).1 = bounds_table db)
  /\ (action_table (RelationParser_parse node db).1 = action_table db
      /\ diffs (RelationParser_parse node db).1 = diffs db
      /\ bounds_table (RelationParser_parse node db).1 = bounds_table db)
  /\ (action_table (AbstractXMLParser.transform (Some node) db).1 = action_table db
      /\ diffs (AbstractXMLParser.transform (Some node) db).1 = diffs db
      /\ bounds_table (AbstractXMLParser.transform (Some node) db).1 = bounds_table db)
  /\ (diffs (ActionParser.parse node db).1 = diffs db
      /\ bounds_table (ActionParser.parse node db).1 = bounds_table db)
  /\ bounds_table (AdiffParser.parse node db).1 = bounds_table db.
Proof.
  split_and!.
  - apply (leaves_NodeParser_parse waynodes); solve [by apply create_leaves|done].
  - apply (leaves_NodeParser_parse members); solve [by apply create_leaves|done].
  - apply (leaves_NodeParser_parse action_table); solve [by apply create_leaves|done].
  - apply (leaves_NodeParser_parse diffs); solve [by apply create_leaves|done].
  - apply (leaves_NodeParser_parse bounds_table); solve [by apply create_leaves|done].
  - apply (leaves_WayParser_parse members); solve [by apply create_leaves|done].
  - apply (leaves_WayParser_parse action_table); solve [by apply create_leaves|done].
  - apply (leaves_WayParser_parse diffs); solve [by apply create_leaves|done].
  - apply (leaves_WayParser_parse bounds_table); solve [by apply create_leaves|done].
  - apply (leaves_RelationParser_parse action_table); solve [by apply create_leaves|done].
  - apply (leaves_RelationParser_parse diffs); solve [by apply create_leaves|done].
  - apply (leaves_RelationParser_parse bounds_table); solve [by apply create_leaves|done].
  - apply (leaves_transform action_table); solve [by apply create_leaves|done].
  - apply (leaves_transform diffs); solve [by apply create_leaves|done].
  - apply (leaves_transform bounds_table); solve [by apply create_leaves|done].
  - apply (leaves_ActionParser_parse diffs); solve [by apply create_leaves|done].
  - apply (leaves_ActionParser_parse bounds_table); solve [by apply create_leaves|done].
  - apply (leaves_AdiffParser_parse bounds_table); solve [by apply create_leaves|done].
Qed.

(** ** The Changes of a parsed Diff *)

(** A Change Parser that returns has stored one Action, the last row of the
    table, of the type the node declares. *)
Lemma ActionParser_parse_row node db db' pk :
  ActionParser.parse node db = (db', Ok pk) ->
  pk = length (action_table db)
  /\ exists row, action_table db' = action_table db ++ [row]
                 /\ attribute_of "type" node = Some (type row).
Proof.
  intros H. unfold ActionParser.parse in H. bind_inv H. rename db0 into db1, a into action_type.
  bind_inv H. rename db0 into db2, a into new_old.
  assert (db1 = db) as ->.
  { pose proof (pure_attribute node "type" db) as Hp. by rewrite Hrun in Hp. }
  assert (action_table db2 = action_table db) as Hsame.
  { pose proof (leaves_old_new action_table (create_leaves action_table (fun _ _ => eq_refl))
                  (fun _ _ => eq_refl) (fun _ _ => eq_refl) (fun _ _ => eq_refl)
                  node action_type db) as Hl.
    by rewrite Hrun0 in Hl. }
  injection H as <- <-. simpl. rewrite Hsame. split; [done|]. eexists. split; [done|]. simpl.
  unfold attribute, attribute_of in *. destruct (Dom.attributes node) as [attrs|]; [|done].
  simpl in *. by destruct (attrs !! "type") as [value|]; [injection Hrun as <-|].
Qed.

Lemma action_loop xs db pks db' :
  runs_each ActionParser.parse xs db pks db' ->
  pks = seq (length (action_table db)) (length xs)
  /\ exists rows, action_table db' = action_table db ++ rows
                  /\ Forall2 (fun x row => attribute_of "type" x = Some (type row)) xs rows.
Proof.
  induction 1 as [db|x xs db db1 db2 pk pks Hx _ (-> & rows & Hrows & Hall)].
  - split; [done|]. exists []. by rewrite app_nil_r.
  - apply ActionParser_parse_row in Hx as (-> & row & Hrow & Htype).
    rewrite Hrow, length_app, Nat.add_1_r in *. split; [done|].
    exists (row :: rows). rewrite Hrows, <- (assoc_L (++)). split; [done|by constructor].
Qed.

(** X20. A Diff that the Document Parser returns holds all the Actions the
    parse stored and no other: the Action table gains one row per change
    entry, in document order and of the type the entry declares, and the
    Changes of the Diff, which is the last row of its table, are the keys of
    exactly these rows, in that order. *)
Theorem X20_diff_holds_the_new_actions tag attrs children db db' d :
  AdiffParser.parse (Element tag attrs children) db = (db', Ok d) ->
  d = length (diffs db)
  /\ exists rows,
       action_table db' = action_table db ++ rows
       /\ Forall2 (fun action row => attribute_of "type" action = Some (type row))
            (Dom.elements_by_tagName "action" (Element tag attrs children)) rows
       /\ diffs db'
          = diffs db ++ [{| actions := seq (length (action_table db)) (length rows) |}].
Proof.
  intros H. destruct (decide (tag = "osm")) as [->|Htag]; cycle 1.
  { unfold AdiffParser.parse in H. erewrite bind_ok in H by reflexivity.
    by rewrite decide_True in H by done. }
  destruct (AdiffParser_parse_osm attrs children db) as (db1 & r & Hloop & Hd & _ & Hparse).
  rewrite Hparse in H. destruct r as [pks|err]; [|done]. injection H as <- <-.
  apply for_each_runs in Hloop. pose proof (runs_each_length _ _ _ _ _ Hloop) as Hlen.
  apply action_loop in Hloop as (-> & rows & Hrows & Hall).
  split; [done|]. exists rows. split_and!; [done..|]. simpl.
  rewrite Hd, insert_last. by rewrite (Forall2_length _ _ _ Hall).
Qed.

Lemma X20_diff_holds_the_new_actions_witness :
  0 = length (diffs empty_db)
  /\ exists rows,
       action_table (AdiffParser.parse adiff_two_actions empty_db).1
       = action_table empty_db ++ rows
       /\ Forall2 (fun action row => attribute_of "type" action = Some (type row))
            (Dom.elements_by_tagName "action" adiff_two_actions) rows
       /\ diffs (AdiffParser.parse adiff_two_actions empty_db).1
          = diffs empty_db ++ [{| actions := seq (length (action_table empty_db)) (length rows) |}].
Proof.
  apply (X20_diff_holds_the_new_actions "osm" ∅
           [el "action" [("type", "create")] [point "1" "10" "20"];
            el "action" [("type", "remove")] []]
           empty_db (AdiffParser.parse adiff_two_actions empty_db).1 0).
  by vm_compute.
Defined.
